(** * file-host: path resolution, access filter and directory listings

    A shallow embedding of the three Express servers of the repository:

    - the current server, with the logical sections [/docs] and [/games]
      and the [solo]/[multi] buckets (second program of
      [src/unnamed/part_000], lines 313-775), embedded at top level in
      [Section Server];
    - [Legacy]: [src/server.js], with one physical root [ROOT].

    - [Sectioned]: the first program of [src/unnamed/part_000] (lines
      1-312), which stands between the two: sections without buckets,
      resolving like [Legacy] and listing like it inside each section.

    Conventions.
    - A JavaScript string is a Rocq [string] holding its UTF-8 bytes.  All
      string operations used by the servers ([===], [startsWith],
      [endsWith], [slice] by the length of an ASCII key, [split('/')],
      the trailing-slash [replace]) commute with that encoding.  Strings
      with lone surrogates are outside the model.
    - The platform is POSIX: [path.sep] is ["/"].
    - The file system is read-only during a request; it is an oracle [FS]
      giving the outcome of [lstat] and [readdir] on every path.  The
      operations a handler performs are logged, so that "no file system
      access" is the statement that the log is empty.
    - A download is followed up to the point where [send] has accepted
      the path: the exception of [res.setHeader] on a file name it cannot
      encode and the refusals of [send] (a NUL, a [..] segment, a dot
      segment under [dotfiles: 'deny']) are embedded; the opening and the
      streaming of the file are not.
    - The home route is matched as Express 5 matches ['/'] without strict
      routing: on [/] and on [//].
    - [Intl]/ICU collation ([localeCompare(_, 'fr')]) is a parameter of
      the model, assumed to be a total preorder where a proof needs it;
      so are the [Intl.NumberFormat] formatters of [formatSizeFR].
    - Of the HTML template the helpers [escapeHtml], [stripSlash] and
      [formatSizeFR] are embedded; the markup of [renderTableHtml] and the
      date formatting are not. *)

From Stdlib Require Import Bool Arith List String Ascii NArith ZArith Lia.
From Stdlib Require Import Permutation Sorted OrderedTypeEx.
From Stdlib Require QArith.
Import ListNotations.
Local Open Scope string_scope.

(* ===================================================================== *)
(** ** JavaScript string primitives *)
(* ===================================================================== *)

Module JS.

(** [s.startsWith(p)] *)
Fixpoint startsWith (s p : string) {struct p} : bool :=
  match p, s with
  | EmptyString, _ => true
  | String a p', String b s' => Ascii.eqb a b && startsWith s' p'
  | String _ _, EmptyString => false
  end.

(** [s.endsWith(p)] *)
Fixpoint endsWith (s p : string) : bool :=
  String.eqb s p ||
  match s with
  | EmptyString => false
  | String _ s' => endsWith s' p
  end.

(** [s.slice(n)] for [0 <= n] *)
Fixpoint slice (n : nat) (s : string) : string :=
  match n, s with
  | O, _ => s
  | S n', String _ s' => slice n' s'
  | S _, EmptyString => EmptyString
  end.

(** [s || d] on strings: the empty string is falsy. *)
Definition or_else (s d : string) : string :=
  if String.eqb s "" then d else s.

(** [s.replace(/\/+$/, '')]: removes the maximal run of trailing slashes. *)
Fixpoint stripTrailingSlashes (s : string) : string :=
  match s with
  | EmptyString => EmptyString
  | String c s' =>
      let r := stripTrailingSlashes s' in
      if Ascii.eqb c "/" && String.eqb r "" then EmptyString else String c r
  end.

(** [s.split(sep)] for a one-character separator. *)
Fixpoint split (sep : ascii) (s : string) : list string :=
  match s with
  | EmptyString => [EmptyString]
  | String c s' =>
      if Ascii.eqb c sep then EmptyString :: split sep s'
      else match split sep s' with
           | [] => [String c EmptyString]
           | h :: t => String c h :: t
           end
  end.

(** [l.join(sep)] *)
Fixpoint join (sep : string) (l : list string) : string :=
  match l with
  | [] => EmptyString
  | [x] => x
  | x :: t => x ++ sep ++ join sep t
  end.

(** [l.filter(Boolean)] on an array of strings. *)
Definition filterBoolean (l : list string) : list string :=
  filter (fun s => negb (String.eqb s "")) l.

(** [Array.prototype.sort(compareFn)]: the sort is stable (ES2019); for a
    consistent comparator its result is the stable sorted permutation,
    computed here by insertion from the right.  [compareFn a b] is the
    number returned by the callback; only its sign is used. *)
Section Sort.
Context {A : Type} (compareFn : A -> A -> Z).

Fixpoint insert (x : A) (l : list A) : list A :=
  match l with
  | [] => [x]
  | y :: t => if (compareFn x y <=? 0)%Z then x :: l else y :: insert x t
  end.

Fixpoint sort (l : list A) : list A :=
  match l with
  | [] => []
  | x :: t => insert x (sort t)
  end.
End Sort.

(** [s.replaceAll(c, r)] for a one-character pattern [c]. *)
Fixpoint replaceAll (c : ascii) (r : string) (s : string) : string :=
  match s with
  | EmptyString => EmptyString
  | String a s' =>
      (if Ascii.eqb a c then r else String a EmptyString) ++ replaceAll c r s'
  end.

(** [s.slice(0, -1)]: all but the last character. *)
Fixpoint sliceButLast (s : string) : string :=
  match s with
  | EmptyString => EmptyString
  | String a s' =>
      match s' with
      | EmptyString => EmptyString
      | String _ _ => String a (sliceButLast s')
      end
  end.

(** [s.indexOf(c) !== -1] for a one-character [c]. *)
Fixpoint includes (s : string) (c : ascii) : bool :=
  match s with
  | EmptyString => false
  | String a s' => Ascii.eqb a c || includes s' c
  end.

End JS.

(* ===================================================================== *)
(** ** Percent-encoding ([encodeURIComponent], [decodeURIComponent]) *)
(* ===================================================================== *)

Module URI.

Definition code (c : ascii) : N := N_of_ascii c.

Definition hexval (c : ascii) : option N :=
  let n := code c in
  if (48 <=? n)%N && (n <=? 57)%N then Some (n - 48)%N
  else if (65 <=? n)%N && (n <=? 70)%N then Some (n - 55)%N
  else if (97 <=? n)%N && (n <=? 102)%N then Some (n - 87)%N
  else None.

(** Upper-case hexadecimal digit, as [encodeURIComponent] emits. *)
Definition hexdigit (n : N) : ascii :=
  if (n <? 10)%N then ascii_of_N (48 + n) else ascii_of_N (55 + n).

(** State of the UTF-8 check that [Decode] performs on escaped octets:
    [U_start] between code points, [U_cont k lo hi] when [k] continuation
    octets are still expected and the next one must lie in [lo..hi]
    (Unicode table 3-7: no overlong form, no surrogate, at most U+10FFFF). *)
Inductive utf8_state : Type :=
| U_start
| U_cont (k : nat) (lo hi : N).

Definition between (lo hi b : N) : bool := ((lo <=? b) && (b <=? hi))%N.

Definition utf8_step (st : utf8_state) (b : N) : option utf8_state :=
  match st with
  | U_start =>
      if (b <? 128)%N then Some U_start
      else if between 194 223 b then Some (U_cont 1 128 191)
      else if (b =? 224)%N then Some (U_cont 2 160 191)
      else if between 225 236 b then Some (U_cont 2 128 191)
      else if (b =? 237)%N then Some (U_cont 2 128 159)
      else if between 238 239 b then Some (U_cont 2 128 191)
      else if (b =? 240)%N then Some (U_cont 3 144 191)
      else if between 241 243 b then Some (U_cont 3 128 191)
      else if (b =? 244)%N then Some (U_cont 3 128 143)
      else None
  | U_cont k lo hi =>
      if between lo hi b then
        match k with
        | S (S k') => Some (U_cont (S k') 128 191)
        | _ => Some U_start
        end
      else None
  end.

(** [Decode(string, "")] of ECMA-262, on the byte model.  [None] is the
    thrown [URIError]: a ["%"] not followed by two hexadecimal digits, an
    escaped octet sequence that is not well-formed UTF-8, or a sequence
    interrupted by an unescaped character or by the end of the string. *)
Fixpoint decode_from (st : utf8_state) (s : string) : option string :=
  match s with
  | EmptyString =>
      match st with U_start => Some EmptyString | U_cont _ _ _ => None end
  | String c rest =>
      if Ascii.eqb c "%" then
        match rest with
        | String h1 (String h2 rest') =>
            match hexval h1, hexval h2 with
            | Some a, Some b =>
                let o := (16 * a + b)%N in
                match utf8_step st o with
                | Some st' =>
                    option_map (String (ascii_of_N o)) (decode_from st' rest')
                | None => None
                end
            | _, _ => None
            end
        | _ => None
        end
      else
        match st with
        | U_start => option_map (String c) (decode_from U_start rest)
        | U_cont _ _ _ => None
        end
  end.

Definition decodeURIComponent (s : string) : option string :=
  decode_from U_start s.

(** uriUnreserved: letters, digits and [- _ . ! ~ * ' ( )]. *)
Definition isUnreserved (c : ascii) : bool :=
  let n := code c in
  between 48 57 n || between 65 90 n || between 97 122 n ||
  existsb (N.eqb n) [45; 95; 46; 33; 126; 42; 39; 40; 41]%N.

Definition escape (c : ascii) : string :=
  let n := code c in
  String "%" (String (hexdigit (n / 16)) (String (hexdigit (n mod 16)) EmptyString)).

(** [encodeURIComponent] on the byte model: every octet of the UTF-8 form
    that is not an unreserved character is escaped. *)
Fixpoint encodeURIComponent (s : string) : string :=
  match s with
  | EmptyString => EmptyString
  | String c rest =>
      (if isUnreserved c then String c EmptyString else escape c)
        ++ encodeURIComponent rest
  end.

(** Well-formed UTF-8, with the same automaton. *)
Fixpoint utf8_run (st : utf8_state) (s : string) : option utf8_state :=
  match s with
  | EmptyString => Some st
  | String c rest =>
      match utf8_step st (code c) with
      | Some st' => utf8_run st' rest
      | None => None
      end
  end.

Definition utf8_valid (s : string) : bool :=
  match utf8_run U_start s with
  | Some U_start => true
  | _ => false
  end.

End URI.

(* ===================================================================== *)
(** ** Node's [path] module (POSIX) *)
(* ===================================================================== *)

Module Path.

Definition sep : string := "/".

(** [normalizeString] of Node's [lib/path.js], one segment at a time:
    [res] is the stack of kept segments, innermost first.  Empty and ["."]
    segments are dropped; [".."] removes the last kept segment unless
    there is none or it is itself [".."], in which case it is kept only
    when [allowAboveRoot]. *)
Fixpoint normalizeSegs (allowAboveRoot : bool) (res segs : list string)
  : list string :=
  match segs with
  | [] => rev res
  | seg :: rest =>
      if String.eqb seg "" || String.eqb seg "." then
        normalizeSegs allowAboveRoot res rest
      else if String.eqb seg ".." then
        match res with
        | top :: res' =>
            if String.eqb top ".." then
              normalizeSegs allowAboveRoot
                (if allowAboveRoot then ".." :: res else res) rest
            else normalizeSegs allowAboveRoot res' rest
        | [] =>
            normalizeSegs allowAboveRoot
              (if allowAboveRoot then [".."] else []) rest
        end
      else normalizeSegs allowAboveRoot (seg :: res) rest
  end.

Definition normalizeString (p : string) (allowAboveRoot : bool) : string :=
  JS.join "/" (normalizeSegs allowAboveRoot [] (JS.split "/" p)).

Definition isAbsolute (p : string) : bool := JS.startsWith p "/".

(** The right-to-left loop of [path.resolve]: arguments are prepended until
    an absolute one is met; empty ones are skipped.  The list is the
    arguments in reverse order followed by the working directory. *)
Fixpoint resolveLoop (rtl : list string) (resolvedPath : string)
  : string * bool :=
  match rtl with
  | [] => (resolvedPath, false)
  | p :: more =>
      if String.eqb p "" then resolveLoop more resolvedPath
      else
        let resolvedPath' := p ++ "/" ++ resolvedPath in
        if isAbsolute p then (resolvedPath', true)
        else resolveLoop more resolvedPath'
  end.

(** [path.resolve(...args)] in a process whose working directory is [cwd]. *)
Definition resolve (cwd : string) (args : list string) : string :=
  let '(resolvedPath, resolvedAbsolute) := resolveLoop (rev args ++ [cwd]) "" in
  let n := normalizeString resolvedPath (negb resolvedAbsolute) in
  if resolvedAbsolute then "/" ++ n
  else if String.eqb n "" then "." else n.

(** [path.normalize(p)] *)
Definition normalize (p : string) : string :=
  if String.eqb p "" then "."
  else
    let isAbs := isAbsolute p in
    let trailingSeparator := JS.endsWith p "/" in
    let n := normalizeString p (negb isAbs) in
    if String.eqb n "" then
      (if isAbs then "/" else if trailingSeparator then "./" else ".")
    else
      let n' := if trailingSeparator then n ++ "/" else n in
      if isAbs then "/" ++ n' else n'.

(** [path.join(...args)] *)
Definition join (args : list string) : string :=
  let joined := JS.join "/" (JS.filterBoolean args) in
  if String.eqb joined "" then "." else normalize joined.

(** [path.basename(p)] without suffix: the last non-empty segment. *)
Definition basename (p : string) : string :=
  last (JS.filterBoolean (JS.split "/" p)) "".

End Path.

(* ===================================================================== *)
(** ** File system, requests, responses *)
(* ===================================================================== *)

Inductive Errno : Type := ENOENT | EACCES | ENOTDIR | ELOOP | EIO.

Inductive FileKind : Type := KFile | KDirectory | KSymlink | KOther.

(** [fs.Stats] as far as the servers read it. *)
Record Stats : Type := mkStats {
  st_kind : FileKind;
  st_size : N;
  st_mtime : Z
}.

(** [fs.Dirent] returned by [readdir(_, { withFileTypes: true })]. *)
Record Dirent : Type := mkDirent {
  d_name : string;
  d_kind : FileKind
}.

Definition isDirectory (k : FileKind) : bool :=
  match k with KDirectory => true | _ => false end.

Definition isFile (k : FileKind) : bool :=
  match k with KFile => true | _ => false end.

(** The state of the disk during one request. *)
Record FS : Type := mkFS {
  fs_lstat : string -> Errno + Stats;
  fs_readdir : string -> Errno + list Dirent
}.

Inductive FsOp : Type :=
| OpLstat (p : string)
| OpReaddir (p : string)
| OpSendFile (p : string).

(** Handlers read the disk and log what they touch. *)
Definition IO (A : Type) : Type := FS -> A * list FsOp.

Definition ret {A} (a : A) : IO A := fun _ => (a, []).

Definition bind {A B} (m : IO A) (k : A -> IO B) : IO B :=
  fun fs =>
    let '(a, t1) := m fs in
    let '(b, t2) := k a fs in
    (b, t1 ++ t2)%list.

Notation "x <- m ;; k" := (bind m (fun x => k))
  (at level 61, m at next level, right associativity).

Definition lstat (p : string) : IO (Errno + Stats) :=
  fun fs => (fs_lstat fs p, [OpLstat p]).

Definition readdir (p : string) : IO (Errno + list Dirent) :=
  fun fs => (fs_readdir fs p, [OpReaddir p]).

Record Request : Type := mkRequest {
  req_method : string;
  req_path : string   (* [req.path]: the pathname, still percent-encoded *)
}.

(** One line of a listing.  [size] is [null] for directories; [mode] is
    [null]/absent outside the [solo]/[multi] buckets. *)
Record Row : Type := mkRow {
  name : string;
  href : string;
  isDir : bool;
  size : option N;
  mtime : Z;
  mode : option string
}.

(** What a listing handler hands to the HTML template; the markup itself
    is not modelled.  A breadcrumb is its [href] and its label. *)
Record Page : Type := mkPage {
  title : string;
  heading : string;
  breadcrumbs : list (string * string);
  rows : list Row;
  showMode : bool;
  parentLink : bool
}.

Inductive Body : Type :=
| Text (s : string)
| Html (p : Page)
| HomePage.

(** What reaches [next(err)]: the exceptions of the handlers' own code and
    the errors with which [send] refuses a path ([HttpError], by its status). *)
Inductive Exn : Type :=
| URIError
| TypeError
| FsError (e : Errno)
| HttpError (status : nat).

(** How a middleware ends: it answers, it calls [next()], it calls
    [next(err)], or, the headers of [setDownloadHeaders] being set, [send]
    accepts the path given to [res.sendFile] and goes on to open the file
    ([Download], with the file name and the [Cache-Control] value of the
    headers).  What [send] does from there on (the [stat] and the stream
    of the file, which follow symbolic links; the errors of the disk at
    that point; conditional and range requests) is not modelled. *)
Inductive Outcome : Type :=
| Respond (status : nat) (body : Body)
| Download (abs filename cacheControl : string)
| Next
| NextErr (e : Exn).

(** The double quote character. *)
Definition dquote : ascii := ascii_of_nat 34.

(** [res.setHeader(name, value)] throws [ERR_INVALID_CHAR], a [TypeError],
    when [value] holds a character other than the tab, U+0020..U+007E and
    U+0080..U+00FF.  On the UTF-8 bytes of a well-formed string: a control
    octet other than the tab, or the lead octet of a character from U+0100
    on (0xC4 and above), makes the value invalid. *)
Definition headerOctet (c : ascii) : bool :=
  let n := N_of_ascii c in
  ((n =? 9) || ((32 <=? n) && (n <=? 126)) || ((128 <=? n) && (n <=? 195)))%N.

Fixpoint validHeaderValue (value : string) : bool :=
  match value with
  | EmptyString => true
  | String c value' => headerOctet c && validHeaderValue value'
  end.

(** [setDownloadHeaders(res, filePath)]: the file name and the
    [Cache-Control] value of the two headers it sets, or the exception of
    its first [res.setHeader]. *)
Definition setDownloadHeaders (filePath : string) : Exn + (string * string) :=
  let filename := Path.basename filePath in
  if validHeaderValue
       ("attachment; filename=" ++ String dquote (filename ++ String dquote ""))
  then inr (filename, "public, max-age=86400, immutable")
  else inl TypeError.

(** [UP_PATH_REGEXP] of [send], [/(?:^|[\\/])\.\.(?:[\\/]|$)/]: a segment
    [..] between separators, slash or backslash, or the ends of the path. *)
Definition isSeparator (c : ascii) : bool :=
  Ascii.eqb c "/" || Ascii.eqb c (ascii_of_nat 92).

Definition upAt (s : string) : bool :=
  match s with
  | String a (String b r) =>
      Ascii.eqb a "." && Ascii.eqb b "."
      && match r with
         | EmptyString => true
         | String c _ => isSeparator c
         end
  | _ => false
  end.

Fixpoint upPathFrom (boundary : bool) (s : string) : bool :=
  (boundary && upAt s)
  || match s with
     | EmptyString => false
     | String c s' => upPathFrom (isSeparator c) s'
     end.

Definition UP_PATH (s : string) : bool := upPathFrom true s.

(** [containsDotFile(parts)] of [send]: [part.length > 1 && part[0] === '.']
    for some part. *)
Definition containsDotFile (parts : list string) : bool :=
  existsb (fun part => (1 <? String.length part)%nat && JS.startsWith part ".")
          parts.

(** The checks of [send] on the path of [res.sendFile(abs, { dotfiles:
    'deny' }, _)], all made before it touches the disk: a NUL gives the
    error 400; no [root] being given, a [..] segment gives 403, and so
    does, the dot files being denied, a dot segment anywhere in the
    normalized path. *)
Definition sendRefusal (abs : string) : option nat :=
  if JS.includes abs (ascii_of_nat 0) then Some 400
  else if UP_PATH abs then Some 403
  else if containsDotFile (JS.split "/" (Path.normalize abs)) then Some 403
  else None.

(** [res.sendFile(abs, { dotfiles: 'deny' }, (err) => { if (err) next(err); })]
    once [setDownloadHeaders] has set [headers]: a refusal comes back
    through the callback and goes to [next(err)]. *)
Definition sendFile (abs : string) (headers : string * string) : IO Outcome :=
  fun _ =>
    match sendRefusal abs with
    | Some status => (NextErr (HttpError status), [])
    | None => (Download abs (fst headers) (snd headers), [OpSendFile abs])
    end.

Definition errorHandler (e : Exn) : Outcome :=
  Respond 500 (Text "Erreur interne. Consulte la console du serveur.").

Definition isGetOrHead (m : string) : bool :=
  String.eqb m "GET" || String.eqb m "HEAD".

(** The paths matched by the route ['/']: routing is not strict, so that
    the route also matches its path followed by one slash. *)
Definition isHomePath (urlPath : string) : bool :=
  String.eqb urlPath "/" || String.eqb urlPath "//".

(** [app.get('/', _)] answers [GET] and [HEAD] on those paths. *)
Definition homeRoute (req : Request) : bool :=
  isGetOrHead (req_method req) && isHomePath (req_path req).

(** The comparator of both plain listings:
    [(b.isDir - a.isDir) || a.name.localeCompare(b.name, 'fr')]. *)
Definition compareRows (localeCompare : string -> string -> Z) (a b : Row) : Z :=
  let d := (Z.b2z (isDir b) - Z.b2z (isDir a))%Z in
  if (d =? 0)%Z then localeCompare (name a) (name b) else d.

(** The comparator of the union listing: [a.name.localeCompare(b.name, 'fr')]. *)
Definition compareNames (localeCompare : string -> string -> Z) (a b : Row) : Z :=
  localeCompare (name a) (name b).

(** Breadcrumbs: [acc += step(p)] for each part, each linking to [acc + "/"]. *)
Fixpoint crumbsFrom (step : string -> string) (acc : string) (parts : list string)
  : list (string * string) :=
  match parts with
  | [] => []
  | p :: more =>
      let acc' := acc ++ step p in
      (acc' ++ "/", p) :: crumbsFrom step acc' more
  end.

(* ===================================================================== *)
(** ** The current server: sections [/docs] and [/games], buckets *)
(* ===================================================================== *)

Record Bucket : Type := mkBucket {
  slug : string;
  dir : string;
  bmode : string   (* the [mode] field: the display tag *)
}.

Section Server.

Variable cwd : string.       (* [process.cwd()] *)
Variable dirname : string.   (* [__dirname] *)
Variable localeCompare : string -> string -> Z.  (* [a.localeCompare(b, 'fr')] *)

Definition ROOT : string := Path.resolve cwd [dirname; "files"].

(** [SECTIONS], in the order [Object.keys] enumerates it: ["/docs"] comes
    from the literal, ["/games"] is assigned afterwards. *)
Definition SECTIONS : list (string * string) :=
  [ ("/docs", Path.join [ROOT; "docs"]);
    ("/games", Path.join [ROOT; "games"]) ].

Definition GAMES_BUCKETS : list Bucket :=
  [ mkBucket "solo" (Path.join [ROOT; "games"; "solo"]) "solo";
    mkBucket "multi" (Path.join [ROOT; "games"; "multi"]) "coop" ].

(** [SECTIONS[key]] *)
Fixpoint lookupSection (table : list (string * string)) (key : string)
  : option string :=
  match table with
  | [] => None
  | (k, root) :: more =>
      if String.eqb k key then Some root else lookupSection more key
  end.

Fixpoint matchSectionIn (keys : list string) (urlPath : string)
  : option string :=
  match keys with
  | [] => None
  | key :: more =>
      if String.eqb urlPath key
         || JS.startsWith urlPath (key ++ "/")
         || JS.startsWith urlPath (key ++ "%2F")
      then Some key
      else matchSectionIn more urlPath
  end.

Definition matchSection (urlPath : string) : option string :=
  matchSectionIn (map fst SECTIONS) urlPath.

(** [null] is [None]. *)
Definition resolvePathSafe (sectionRoot sectionRelPath : string)
  : option string :=
  match URI.decodeURIComponent (JS.or_else sectionRelPath "/") with
  | None => None
  | Some decoded =>
      let abs := Path.resolve cwd [sectionRoot; "." ++ decoded] in
      let rootNorm :=
        if JS.endsWith sectionRoot Path.sep then sectionRoot
        else sectionRoot ++ Path.sep in
      if negb (JS.startsWith abs rootNorm) && negb (String.eqb abs sectionRoot)
      then None
      else Some abs
  end.

Definition isAllowedGamesRel (rel : string) : bool :=
  let clean := JS.stripTrailingSlashes (JS.or_else rel "/") in
  String.eqb clean "/"
  || String.eqb clean ""
  || String.eqb clean "/solo" || JS.startsWith clean "/solo/"
  || String.eqb clean "/multi" || JS.startsWith clean "/multi/".

Definition inferModeFromRel (rel : string) : option string :=
  if String.eqb rel "" then None
  else if String.eqb rel "/solo" || JS.startsWith rel "/solo/" then Some "solo"
  else if String.eqb rel "/multi" || JS.startsWith rel "/multi/" then Some "coop"
  else None.

Definition safeDecodePath (p : string) : string :=
  match URI.decodeURIComponent p with
  | Some d => d
  | None => p
  end.

(** [req.path.slice(sectionKey.length) || '/'] *)
Definition relOf (sectionKey : string) (req : Request) : string :=
  JS.or_else (JS.slice (String.length sectionKey) (req_path req)) "/".

(** Direct download inside a section. *)
Definition downloadHandler (req : Request) : IO Outcome :=
  match matchSection (req_path req) with
  | None => ret Next
  | Some sectionKey =>
      match lookupSection SECTIONS sectionKey with
      | None => ret (NextErr TypeError)
      | Some sectionRoot =>
          let rel := relOf sectionKey req in
          if String.eqb sectionKey "/games" && negb (isAllowedGamesRel rel)
          then ret Next
          else
            match resolvePathSafe sectionRoot rel with
            | None => ret (Respond 400 (Text "Chemin invalide"))
            | Some abs =>
                st <- lstat abs ;;
                match st with
                | inl _ => ret Next
                | inr s =>
                    if isDirectory (st_kind s) then ret Next
                    else
                      match setDownloadHeaders abs with
                      | inl e => ret (NextErr e)
                      | inr headers => sendFile abs headers
                      end
                end
            end
      end
  end.

(** The row pushed by the union view for entry [e] of bucket [b]. *)
Definition bucketRow (b : Bucket) (e : Dirent) (s : Stats) : Row :=
  {| name := d_name e;
     href := "/games/" ++ slug b ++ "/" ++ URI.encodeURIComponent (d_name e);
     isDir := false;
     size := Some (st_size s);
     mtime := st_mtime s;
     mode := Some (bmode b) |}.

(** The inner loop of the union view, over one bucket's entries. *)
Fixpoint bucketRows (b : Bucket) (entries : list Dirent) : IO (list Row) :=
  match entries with
  | [] => ret []
  | e :: more =>
      if negb (isFile (d_kind e)) then bucketRows b more
      else
        let full := Path.join [dir b; d_name e] in
        s <- lstat full ;;
        match s with
        | inl _ => bucketRows b more
        | inr s =>
            rest <- bucketRows b more ;;
            ret (bucketRow b e s :: rest)
        end
  end.

(** The outer loop of the union view, over the buckets. *)
Fixpoint unionRows (buckets : list Bucket) : IO (list Row) :=
  match buckets with
  | [] => ret []
  | b :: more =>
      l <- readdir (dir b) ;;
      match l with
      | inl _ => unionRows more
      | inr entries =>
          r1 <- bucketRows b entries ;;
          r2 <- unionRows more ;;
          ret (r1 ++ r2)%list
      end
  end.

(** The row pushed by the plain listing for child [e]. *)
Definition plainRow (req : Request) (sectionKey rel : string)
  (e : Dirent) (s : Stats) : Row :=
  let isDir := isDirectory (d_kind e) in
  let name := d_name e ++ (if isDir then "/" else "") in
  let base :=
    if JS.endsWith (req_path req) "/" then req_path req
    else req_path req ++ "/" in
  let href :=
    base ++ URI.encodeURIComponent (d_name e) ++ (if isDir then "/" else "") in
  let mode :=
    if String.eqb sectionKey "/games" then inferModeFromRel rel else None in
  {| name := name;
     href := href;
     isDir := isDir;
     size := if isDir then None else Some (st_size s);
     mtime := st_mtime s;
     mode := if isDir then None else mode |}.

(** The child loop of the plain listing. *)
Fixpoint listRows (req : Request) (sectionKey rel abs : string)
  (entries : list Dirent) : IO (list Row) :=
  match entries with
  | [] => ret []
  | e :: more =>
      let full := Path.join [abs; d_name e] in
      s <- lstat full ;;
      match s with
      | inl _ => listRows req sectionKey rel abs more
      | inr s =>
          rest <- listRows req sectionKey rel abs more ;;
          ret (plainRow req sectionKey rel e s :: rest)
      end
  end.

Definition unionPage (rows : list Row) : Page :=
  {| title := "/games";
     heading := "games";
     breadcrumbs := [("/", "Accueil"); ("/games/", "games")];
     rows := JS.sort (compareNames localeCompare) rows;
     showMode := true;
     parentLink := false |}.

Definition plainPage (req : Request) (rows : list Row) : Page :=
  let decoded := safeDecodePath (JS.or_else (req_path req) "/") in
  let parts := JS.filterBoolean (JS.split "/" decoded) in
  let part0 := hd "undefined" parts in
  {| title := decoded;
     heading := hd "" parts;
     breadcrumbs := ("/", "Accueil") :: crumbsFrom (fun p => "/" ++ p) "" parts;
     rows := JS.sort (compareRows localeCompare) rows;
     showMode := true;
     parentLink :=
       negb (String.eqb decoded ("/" ++ part0 ++ "/"))
       && negb (String.eqb decoded ("/" ++ part0)) |}.

(** Section index. *)
Definition indexHandler (req : Request) : IO Outcome :=
  match matchSection (req_path req) with
  | None => ret Next
  | Some sectionKey =>
      match lookupSection SECTIONS sectionKey with
      | None => ret (NextErr TypeError)
      | Some sectionRoot =>
          let rel := relOf sectionKey req in
          if String.eqb sectionKey "/games"
             && (String.eqb rel "/" || String.eqb rel "")
          then
            rows <- unionRows GAMES_BUCKETS ;;
            ret (Respond 200 (Html (unionPage rows)))
          else if String.eqb sectionKey "/games"
                  && negb (isAllowedGamesRel rel)
          then ret (Respond 404 (Text "Introuvable"))
          else
            match resolvePathSafe sectionRoot rel with
            | None => ret (Respond 400 (Text "Chemin invalide"))
            | Some abs =>
                st <- lstat abs ;;
                match st with
                | inl _ => ret (Respond 404 (Text "Introuvable"))
                | inr s =>
                    if negb (isDirectory (st_kind s)) then ret Next
                    else
                      l <- readdir abs ;;
                      match l with
                      | inl e => ret (NextErr (FsError e))
                      | inr entries =>
                          rows <- listRows req sectionKey rel abs entries ;;
                          ret (Respond 200 (Html (plainPage req rows)))
                      end
                end
            end
      end
  end.

(** The middleware chain after the security middlewares: the home route
    [app.get('/')], the download handler, the section index, the error
    handler.  A final [Next] means that every handler has passed: the
    request is left to Express (its 404; for [OPTIONS] on a path of the
    home route, its automatic answer). *)
Definition app (req : Request) : IO Outcome :=
  if homeRoute req then
    ret (Respond 200 HomePage)
  else
    o <- downloadHandler req ;;
    match o with
    | Next =>
        o' <- indexHandler req ;;
        match o' with
        | NextErr e => ret (errorHandler e)
        | _ => ret o'
        end
    | NextErr e => ret (errorHandler e)
    | _ => ret o
    end.

End Server.

(* ===================================================================== *)
(** ** The single-root server of [src/server.js] *)
(* ===================================================================== *)

Module Legacy.
Section Server.

Variable cwd : string.
Variable dirname : string.
Variable localeCompare : string -> string -> Z.

Definition ROOT : string := Path.resolve cwd [dirname; "files"].

(** [decodeURIComponent] is not guarded here: [inl URIError] is the
    exception leaving the function. *)
Definition resolvePathSafe (root urlPath : string) : Exn + option string :=
  match URI.decodeURIComponent (JS.or_else urlPath "/") with
  | None => inl URIError
  | Some decoded =>
      let abs := Path.resolve cwd [root; "." ++ decoded] in
      let rootNorm :=
        if JS.endsWith root Path.sep then root else root ++ Path.sep in
      if negb (JS.startsWith abs rootNorm) && negb (String.eqb abs root)
      then inr None
      else inr (Some abs)
  end.

Definition downloadHandler (req : Request) : IO Outcome :=
  match resolvePathSafe ROOT (req_path req) with
  | inl e => ret (NextErr e)
  | inr None => ret (Respond 400 (Text "Chemin invalide"))
  | inr (Some abs) =>
      st <- lstat abs ;;
      match st with
      | inl _ => ret Next
      | inr s =>
          if isDirectory (st_kind s) then ret Next
          else
            match setDownloadHeaders abs with
            | inl e => ret (NextErr e)
            | inr headers => sendFile abs headers
            end
      end
  end.

Definition plainRow (req : Request) (e : Dirent) (s : Stats) : Row :=
  let isDir := isDirectory (d_kind e) in
  let name := d_name e ++ (if isDir then "/" else "") in
  let base :=
    if JS.endsWith (req_path req) "/" then req_path req
    else req_path req ++ "/" in
  let href :=
    base ++ URI.encodeURIComponent (d_name e) ++ (if isDir then "/" else "") in
  {| name := name;
     href := href;
     isDir := isDir;
     size := if isDir then None else Some (st_size s);
     mtime := st_mtime s;
     mode := None |}.

(** The child loop: [lstat] is not guarded, its failure leaves the loop
    for the handler's [catch]. *)
Fixpoint listRows (req : Request) (abs : string) (entries : list Dirent)
  : IO (Exn + list Row) :=
  match entries with
  | [] => ret (inr [])
  | e :: more =>
      let full := Path.join [abs; d_name e] in
      s <- lstat full ;;
      match s with
      | inl err => ret (inl (FsError err))
      | inr s =>
          rest <- listRows req abs more ;;
          match rest with
          | inl err => ret (inl err)
          | inr rest => ret (inr (plainRow req e s :: rest))
          end
      end
  end.

Definition indexPage (req : Request) (rows : list Row) : Exn + Page :=
  match URI.decodeURIComponent (JS.or_else (req_path req) "/") with
  | None => inl URIError
  | Some decoded =>
      let parts := JS.filterBoolean (JS.split "/" decoded) in
      inr {| title := "Index " ++ JS.or_else decoded "/";
             heading := "files";
             breadcrumbs :=
               ("/", "/")
                 :: crumbsFrom (fun p => "/" ++ URI.encodeURIComponent p) "" parts;
             rows := JS.sort (compareRows localeCompare) rows;
             showMode := false;
             parentLink :=
               negb (String.eqb decoded "/") && negb (String.eqb decoded "") |}
  end.

Definition indexHandler (req : Request) : IO Outcome :=
  if negb (isGetOrHead (req_method req)) then ret Next
  else
    match resolvePathSafe ROOT (req_path req) with
    | inl e => ret (NextErr e)
    | inr None => ret (Respond 400 (Text "Chemin invalide"))
    | inr (Some abs) =>
        st <- lstat abs ;;
        match st with
        | inl _ => ret (Respond 404 (Text "Introuvable"))
        | inr s =>
            if negb (isDirectory (st_kind s)) then ret Next
            else
              l <- readdir abs ;;
              match l with
              | inl e => ret (NextErr (FsError e))
              | inr entries =>
                  r <- listRows req abs entries ;;
                  match r with
                  | inl e => ret (NextErr e)
                  | inr rows =>
                      match indexPage req rows with
                      | inl e => ret (NextErr e)
                      | inr page => ret (Respond 200 (Html page))
                      end
                  end
              end
        end
    end.

Definition app (req : Request) : IO Outcome :=
  o <- downloadHandler req ;;
  match o with
  | Next =>
      o' <- indexHandler req ;;
      match o' with
      | NextErr e => ret (errorHandler e)
      | _ => ret o'
      end
  | NextErr e => ret (errorHandler e)
  | _ => ret o
  end.

End Server.
End Legacy.

(* ===================================================================== *)
(** ** The server with sections and without buckets *)
(* ===================================================================== *)

(** First program of [src/unnamed/part_000] (lines 1-312).  Its
    [resolvePathSafe] is the one of [src/server.js] and so is the child
    loop of its index ([Legacy.listRows], rows without a mode); sections
    are matched as in the current server, in the order [/games], [/docs]. *)
Module Sectioned.
Section Server.

Variable cwd : string.
Variable dirname : string.
Variable localeCompare : string -> string -> Z.

Definition ROOT : string := Path.resolve cwd [dirname; "files"].

Definition SECTIONS : list (string * string) :=
  [ ("/games", Path.join [ROOT; "games"]);
    ("/docs", Path.join [ROOT; "docs"]) ].

Definition matchSection (urlPath : string) : option string :=
  matchSectionIn (map fst SECTIONS) urlPath.

Definition resolvePathSafe (sectionRoot sectionRelPath : string)
  : Exn + option string :=
  match URI.decodeURIComponent (JS.or_else sectionRelPath "/") with
  | None => inl URIError
  | Some decoded =>
      let abs := Path.resolve cwd [sectionRoot; "." ++ decoded] in
      let rootNorm :=
        if JS.endsWith sectionRoot Path.sep then sectionRoot
        else sectionRoot ++ Path.sep in
      if negb (JS.startsWith abs rootNorm) && negb (String.eqb abs sectionRoot)
      then inr None
      else inr (Some abs)
  end.

Definition downloadHandler (req : Request) : IO Outcome :=
  match matchSection (req_path req) with
  | None => ret Next
  | Some sectionKey =>
      match lookupSection SECTIONS sectionKey with
      | None => ret (NextErr TypeError)
      | Some sectionRoot =>
          match resolvePathSafe sectionRoot (relOf sectionKey req) with
          | inl e => ret (NextErr e)
          | inr None => ret (Respond 400 (Text "Chemin invalide"))
          | inr (Some abs) =>
              st <- lstat abs ;;
              match st with
              | inl _ => ret Next
              | inr s =>
                  if isDirectory (st_kind s) then ret Next
                  else
                    match setDownloadHeaders abs with
                    | inl e => ret (NextErr e)
                    | inr headers => sendFile abs headers
                    end
              end
          end
      end
  end.

Definition indexPage (req : Request) (rows : list Row) : Exn + Page :=
  match URI.decodeURIComponent (JS.or_else (req_path req) "/") with
  | None => inl URIError
  | Some decoded =>
      let parts := JS.filterBoolean (JS.split "/" decoded) in
      let part0 := hd "undefined" parts in
      inr {| title := JS.or_else decoded "/";
             heading := hd "" parts;
             breadcrumbs :=
               ("/", "Accueil")
                 :: crumbsFrom (fun p => "/" ++ URI.encodeURIComponent p) "" parts;
             rows := JS.sort (compareRows localeCompare) rows;
             showMode := false;
             parentLink :=
               negb (String.eqb decoded ("/" ++ part0 ++ "/"))
               && negb (String.eqb decoded ("/" ++ part0)) |}
  end.

Definition indexHandler (req : Request) : IO Outcome :=
  if negb (isGetOrHead (req_method req)) then ret Next
  else
    match matchSection (req_path req) with
    | None => ret Next
    | Some sectionKey =>
        match lookupSection SECTIONS sectionKey with
        | None => ret (NextErr TypeError)
        | Some sectionRoot =>
            match resolvePathSafe sectionRoot (relOf sectionKey req) with
            | inl e => ret (NextErr e)
            | inr None => ret (Respond 400 (Text "Chemin invalide"))
            | inr (Some abs) =>
                st <- lstat abs ;;
                match st with
                | inl _ => ret (Respond 404 (Text "Introuvable"))
                | inr s =>
                    if negb (isDirectory (st_kind s)) then ret Next
                    else
                      l <- readdir abs ;;
                      match l with
                      | inl e => ret (NextErr (FsError e))
                      | inr entries =>
                          r <- Legacy.listRows req abs entries ;;
                          match r with
                          | inl e => ret (NextErr e)
                          | inr rows =>
                              match indexPage req rows with
                              | inl e => ret (NextErr e)
                              | inr page => ret (Respond 200 (Html page))
                              end
                          end
                      end
                end
            end
        end
    end.

Definition app (req : Request) : IO Outcome :=
  if homeRoute req then
    ret (Respond 200 HomePage)
  else
    o <- downloadHandler req ;;
    match o with
    | Next =>
        o' <- indexHandler req ;;
        match o' with
        | NextErr e => ret (errorHandler e)
        | _ => ret o'
        end
    | NextErr e => ret (errorHandler e)
    | _ => ret o
    end.

End Server.
End Sectioned.

(* ===================================================================== *)
(** ** Helpers of the HTML template (current server) *)
(* ===================================================================== *)

Definition escapeHtml (s : string) : string :=
  JS.replaceAll "'" "&#39;"
    (JS.replaceAll dquote "&quot;"
       (JS.replaceAll ">" "&gt;"
          (JS.replaceAll "<" "&lt;"
             (JS.replaceAll "&" "&amp;" s)))).

Definition stripSlash (name : string) : string :=
  if JS.endsWith name "/" then JS.sliceButLast name else name.

(** [dirExists] is declared by the server and never called. *)
Definition dirExists (p : string) : IO bool :=
  s <- lstat p ;;
  match s with
  | inl _ => ret false
  | inr s => ret (isDirectory (st_kind s))
  end.

(** [formatSizeFR].  The three [Intl.NumberFormat('fr-FR', ...)] formatters
    are parameters: [nf1] and [nf0] keep at most one and no fraction
    digit, [nf] is the default one.  [bytes / value] is a division by a
    power of two, exact on doubles: [n] is the rational itself. *)
Section Sizes.

Variables nf1 nf0 nf : QArith_base.Q -> string.

Definition UNITS : list (string * positive) :=
  [ ("Go", 1024 ^ 3); ("Mo", 1024 ^ 2); ("Ko", 1024) ]%positive.

(** The [for] loop over [UNITS]; [None] when it ends without returning. *)
Fixpoint formatUnits (units : list (string * positive)) (bytes : N)
  : option string :=
  match units with
  | [] => None
  | (unit, value) :: more =>
      if (Npos value <=? bytes)%N then
        let n := QArith_base.Qmake (Z.of_N bytes) value in
        Some ((if QArith_base.Qle_bool (QArith_base.inject_Z 10) n
               then nf0 n else nf1 n) ++ " " ++ unit)
      else formatUnits more bytes
  end.

Definition formatSizeFR (bytes : N) : string :=
  match formatUnits UNITS bytes with
  | Some s => s
  | None => nf (QArith_base.inject_Z (Z.of_N bytes)) ++ " o"
  end.

End Sizes.

(* ===================================================================== *)
(** ** Vocabulary of the statements *)
(* ===================================================================== *)

Fixpoint allSlashes (s : string) : bool :=
  match s with
  | EmptyString => true
  | String c s' => Ascii.eqb c "/" && allSlashes s'
  end.

Fixpoint slashFree (s : string) : bool :=
  match s with
  | EmptyString => true
  | String c s' => negb (Ascii.eqb c "/") && slashFree s'
  end.

(** An ordinary path segment: a non-empty name without separator that is
    neither ["."] nor [".."]. *)
Definition okSegment (seg : string) : bool :=
  slashFree seg
  && negb (String.eqb seg "")
  && negb (String.eqb seg ".")
  && negb (String.eqb seg "..").

(** The first non-empty segment of a relative path, if any. *)
Definition firstNonEmptySegment (rel : string) : option string :=
  hd_error (JS.filterBoolean (JS.split "/" rel)).

(** The access filter in the words of the specification: the section root
    (["/"] or empty), or a path whose first non-empty segment is a bucket
    slug. *)
Definition isPermitted_spec (slugs : list string) (rel : string) : bool :=
  String.eqb rel "/" || String.eqb rel ""
  || match firstNonEmptySegment rel with
     | Some seg => existsb (String.eqb seg) slugs
     | None => false
     end.

(** A comparator on which to run the examples: code-unit order. *)
Definition ordinalCompare (a b : string) : Z :=
  match String.compare a b with
  | Lt => (-1)%Z
  | Eq => 0%Z
  | Gt => 1%Z
  end.

Definition exampleStats (k : FileKind) : Stats := mkStats k 10 0.

(** A small disk under [__dirname = "/app"]: [games] holds the two
    buckets and a sibling [other]; [docs/secret] exists but cannot be
    [lstat]ed (no search permission), [docs/broken] lists three children
    one of which cannot be [lstat]ed. *)
Definition exampleFS : FS :=
  mkFS
    (fun p =>
       if existsb (String.eqb p)
            ["/app/files"; "/app/files/games"; "/app/files/games/solo";
             "/app/files/games/multi"; "/app/files/games/other";
             "/app/files/docs"; "/app/files/docs/broken";
             "/app/files/games/solo/sub"]
       then inr (exampleStats KDirectory)
       else if existsb (String.eqb p)
            ["/app/files/games/solo/a.zip"; "/app/files/games/solo/b.zip";
             "/app/files/games/multi/c.zip"; "/app/files/docs/broken/x";
             "/app/files/docs/broken/z"; "/app/files/docs/a b&c"]
       then inr (exampleStats KFile)
       else if existsb (String.eqb p)
            ["/app/files/docs/secret"; "/app/files/docs/broken/y"]
       then inl EACCES
       else inl ENOENT)
    (fun p =>
       if String.eqb p "/app/files" then
         inr [mkDirent "docs" KDirectory; mkDirent "games" KDirectory]
       else if String.eqb p "/app/files/games" then
         inr [mkDirent "solo" KDirectory; mkDirent "other" KDirectory;
              mkDirent "multi" KDirectory]
       else if String.eqb p "/app/files/games/solo" then
         inr [mkDirent "b.zip" KFile; mkDirent "sub" KDirectory;
              mkDirent "a.zip" KFile]
       else if String.eqb p "/app/files/games/multi" then
         inr [mkDirent "c.zip" KFile]
       else if String.eqb p "/app/files/docs" then
         inr [mkDirent "broken" KDirectory; mkDirent "a b&c" KFile]
       else if String.eqb p "/app/files/docs/broken" then
         inr [mkDirent "x" KFile; mkDirent "y" KFile; mkDirent "z" KFile]
       else if String.eqb p "/app/files/games/other" then inr []
       else inl ENOENT).

(** Why the resolver rejects, in the taxonomy of the specification:
    [InvalidPath] when percent-decoding fails, [Traversal] when the
    normalised path is neither the root nor below it. *)
Inductive Rejection : Type := InvalidPath | Traversal.

Definition rejection (cwd sectionRoot sectionRelPath : string)
  : option Rejection :=
  match URI.decodeURIComponent (JS.or_else sectionRelPath "/") with
  | None => Some InvalidPath
  | Some decoded =>
      let abs := Path.resolve cwd [sectionRoot; "." ++ decoded] in
      let rootNorm :=
        if JS.endsWith sectionRoot Path.sep then sectionRoot
        else sectionRoot ++ Path.sep in
      if JS.startsWith abs rootNorm || String.eqb abs sectionRoot then None
      else Some Traversal
  end.

Definition okSegments (segs : list string) : Prop :=
  Forall (fun seg => okSegment seg = true) segs.

(** A normalised absolute path: ["/"] followed by ordinary segments joined
    by single slashes. *)
Definition normalizedAbsolute (p : string) : Prop :=
  exists segs, okSegments segs /\ p = "/" ++ JS.join "/" segs.

(** [abs] is [root] or lies below it: [root], one separator, and then
    ordinary segments only. *)
Definition within (root abs : string) : Prop :=
  abs = root
  \/ exists rest,
       rest <> "" /\ abs = root ++ Path.sep ++ rest
       /\ okSegments (JS.split "/" rest).

(** The children of [abs] on which [lstat] succeeds, with their stats, in
    enumeration order. *)
Definition statChildren (fs : FS) (abs : string) (entries : list Dirent)
  : list (Dirent * Stats) :=
  flat_map
    (fun e =>
       match fs_lstat fs (Path.join [abs; d_name e]) with
       | inr s => [(e, s)]
       | inl _ => []
       end)
    entries.

(** The [lstat] calls of a child loop over [entries]. *)
Definition statCalls (abs : string) (entries : list Dirent) : list FsOp :=
  map (fun e => OpLstat (Path.join [abs; d_name e])) entries.

(** A consistent comparator in the sense of ECMA-262: the signs of
    [f a b] and [f b a] are opposite and "not after" is transitive.  This
    is all that is assumed of [localeCompare]. *)
Record Consistent {A : Type} (f : A -> A -> Z) : Prop := mkConsistent {
  cmp_sgn : forall a b, Z.sgn (f b a) = (- Z.sgn (f a b))%Z;
  cmp_trans : forall a b c, (f a b <= 0)%Z -> (f b c <= 0)%Z -> (f a c <= 0)%Z
}.

(** [a] is not after [b]. *)
Definition notAfter {A : Type} (f : A -> A -> Z) (a b : A) : Prop :=
  (f a b <= 0)%Z.

(** Rows in the order of their names. *)
Definition byName (localeCompare : string -> string -> Z) (a b : Row) : Prop :=
  (localeCompare (name a) (name b) <= 0)%Z.

(** [f], with ties broken by a rank: the order a stable sort realises on
    an array whose elements come in increasing rank. *)
Definition tieBreak {A : Type} (f : A -> A -> Z) (rank : A -> nat) (a b : A) : Z :=
  if (f a b =? 0)%Z then (Z.of_nat (rank a) - Z.of_nat (rank b))%Z else f a b.

(** What the union view collects from one bucket, and from all of them. *)
Definition bucketListing (fs : FS) (b : Bucket) : list Row :=
  match fs_readdir fs (dir b) with
  | inl _ => []
  | inr entries =>
      map (fun es => bucketRow b (fst es) (snd es))
        (statChildren fs (dir b) (filter (fun e => isFile (d_kind e)) entries))
  end.

Definition unionListing (fs : FS) (buckets : list Bucket) : list Row :=
  flat_map (bucketListing fs) buckets.

Definition bucketCalls (fs : FS) (b : Bucket) : list FsOp :=
  OpReaddir (dir b)
    :: match fs_readdir fs (dir b) with
       | inl _ => []
       | inr entries =>
           statCalls (dir b) (filter (fun e => isFile (d_kind e)) entries)
       end.

(** Position of a union row's bucket in [GAMES_BUCKETS], read off its tag. *)
Definition bucketRank (r : Row) : nat :=
  match mode r with
  | Some m => if String.eqb m "solo" then 0 else 1
  | None => 2
  end.

Fixpoint noPercent (s : string) : bool :=
  match s with
  | EmptyString => true
  | String c s' => negb (Ascii.eqb c "%") && noPercent s'
  end.

(** The states the UTF-8 check can be in: a continuation octet is never
    an ASCII one. *)
Definition wfState (st : URI.utf8_state) : Prop :=
  match st with
  | URI.U_start => True
  | URI.U_cont _ lo _ => (128 <= lo)%N
  end.

(** The entity [escapeHtml] writes for one character, and the escape done
    in one pass over the string. *)
Definition htmlEntity (c : ascii) : string :=
  if Ascii.eqb c "&" then "&amp;"
  else if Ascii.eqb c "<" then "&lt;"
  else if Ascii.eqb c ">" then "&gt;"
  else if Ascii.eqb c dquote then "&quot;"
  else if Ascii.eqb c "'" then "&#39;"
  else String c "".

Fixpoint escapeChars (s : string) : string :=
  match s with
  | EmptyString => EmptyString
  | String c s' => htmlEntity c ++ escapeChars s'
  end.

(** [c] occurs in [s]. *)
Fixpoint occurs (c : ascii) (s : string) : bool :=
  match s with
  | EmptyString => false
  | String a s' => Ascii.eqb a c || occurs c s'
  end.

(** The characters with a meaning in HTML text and attribute values. *)
Definition htmlSpecial (c : ascii) : bool :=
  Ascii.eqb c "&" || Ascii.eqb c "<" || Ascii.eqb c ">"
  || Ascii.eqb c dquote || Ascii.eqb c "'".

Fixpoint plainText (s : string) : bool :=
  match s with
  | EmptyString => true
  | String c s' => negb (htmlSpecial c) && plainText s'
  end.

(** The path an operation of the log touches. *)
Definition opPath (op : FsOp) : string :=
  match op with
  | OpLstat p => p
  | OpReaddir p => p
  | OpSendFile p => p
  end.

(** [readdir] returns names of entries: ordinary segments. *)
Definition wellNamed (fs : FS) : Prop :=
  forall p entries,
    fs_readdir fs p = inr entries ->
    Forall (fun e => okSegment (d_name e) = true) entries.

(** Two spellings of one name: [e] followed by the combining acute accent
    U+0301, and the composed letter U+00E9, in UTF-8.  The two strings are
    canonically equivalent, and [localeCompare] returns 0 on canonically
    equivalent strings (ECMA-402, [Intl.Collator]); a POSIX directory holds
    both as two entries. *)
Definition composedName : string :=
  String (ascii_of_nat 195) (String (ascii_of_nat 169) ".zip").

Definition decomposedName : string :=
  String "e" (String (ascii_of_nat 204) (String (ascii_of_nat 129) ".zip")).

(** A comparator with that tie on which to run the examples: code-unit
    order once [e] and U+0301 are composed. *)
Fixpoint composeAcute (s : string) : string :=
  match s with
  | EmptyString => EmptyString
  | String a s' =>
      match s' with
      | String b (String c r) =>
          if Ascii.eqb a "e" && Ascii.eqb b (ascii_of_nat 204)
             && Ascii.eqb c (ascii_of_nat 129)
          then String (ascii_of_nat 195)
                 (String (ascii_of_nat 169) (composeAcute r))
          else String a (composeAcute s')
      | _ => String a (composeAcute s')
      end
  end.

Definition canonicalCompare (a b : string) : Z :=
  ordinalCompare (composeAcute a) (composeAcute b).

(** A disk under [__dirname = "/app"] whose [solo] bucket enumerates
    [entries]; [files/games] is a directory, every other path a regular
    file, and [multi] cannot be read. *)
Definition soloFS (entries : list Dirent) : FS :=
  mkFS (fun p => inr (exampleStats (if String.eqb p "/app/files/games"
                                    then KDirectory else KFile)))
       (fun p => if String.eqb p "/app/files/games/solo" then inr entries
                 else inl ENOENT).

(** What happens to a path that [lstat] has shown not to be a directory:
    [setDownloadHeaders], then [res.sendFile].  [deliverable] holds when
    neither fails, that is when the file is handed to [send]. *)
Definition handOver (abs : string) : Outcome * list FsOp :=
  match setDownloadHeaders abs with
  | inl e => (NextErr e, [])
  | inr headers =>
      match sendRefusal abs with
      | Some status => (NextErr (HttpError status), [])
      | None => (Download abs (fst headers) (snd headers), [OpSendFile abs])
      end
  end.

(** A disk where every path is a regular file, and the name [U+20AC.zip]
    in UTF-8. *)
Definition anyFile : FS :=
  mkFS (fun _ => inr (exampleStats KFile)) (fun _ => inl ENOTDIR).

Definition euroZip : string :=
  String (ascii_of_nat 226) (String (ascii_of_nat 130)
    (String (ascii_of_nat 172) ".zip")).

Definition deliverable (abs : string) : bool :=
  match setDownloadHeaders abs, sendRefusal abs with
  | inr _, None => true
  | _, _ => false
  end.

(* ===================================================================== *)
(** * Properties *)
(* ===================================================================== *)

(** ** The platform functions on examples *)

Example split_ex : JS.split "/" "/a//b/" = [""; "a"; ""; "b"; ""].
Proof. reflexivity. Qed.

Example strip_ex : JS.stripTrailingSlashes "/solo/x//" = "/solo/x".
Proof. reflexivity. Qed.

Example resolve_ex1 :
  Path.resolve "/cwd" ["/srv/files"; "./a/../b/./c/"] = "/srv/files/b/c".
Proof. reflexivity. Qed.

Example resolve_ex2 :
  Path.resolve "/cwd" ["/srv/files"; "./../../../etc/passwd"] = "/etc/passwd".
Proof. reflexivity. Qed.

Example resolve_ex3 : Path.resolve "/cwd" ["rel"; "./x"] = "/cwd/rel/x".
Proof. reflexivity. Qed.

Example join_ex :
  Path.join ["/srv/files"; "games"; "solo"] = "/srv/files/games/solo".
Proof. reflexivity. Qed.

Example decode_ex1 : URI.decodeURIComponent "/a%20b%26c%2Fd" = Some "/a b&c/d".
Proof. reflexivity. Qed.

Example decode_ex2 : URI.decodeURIComponent "/%zz" = None.
Proof. reflexivity. Qed.

Example decode_ex3 : URI.decodeURIComponent "%C0%AF" = None.
Proof. reflexivity. Qed.

Example encode_ex : URI.encodeURIComponent "a b&c" = "a%20b%26c".
Proof. reflexivity. Qed.

(** ** Strings *)

Lemma ascii_eqb_refl (c : ascii) : Ascii.eqb c c = true.
Proof. apply Ascii.eqb_eq. reflexivity. Qed.

Lemma string_eqb_refl (s : string) : String.eqb s s = true.
Proof. apply String.eqb_eq. reflexivity. Qed.

Lemma append_nil_r (s : string) : s ++ "" = s.
Proof. induction s as [|c s IH]; simpl; [reflexivity | now rewrite IH]. Qed.

Lemma append_assoc (a b c : string) : (a ++ b) ++ c = a ++ (b ++ c).
Proof. induction a as [|x a IH]; simpl; [reflexivity | now rewrite IH]. Qed.

Lemma append_eq_nil (a b : string) : a ++ b = "" -> a = "" /\ b = "".
Proof. destruct a; simpl; [auto | discriminate]. Qed.

Lemma append_inv_head (a b c : string) : a ++ b = a ++ c -> b = c.
Proof.
  induction a as [|x a IH]; simpl; intros H; [exact H|].
  injection H as H. auto.
Qed.

Lemma startsWith_iff (s p : string) :
  JS.startsWith s p = true <-> exists t, s = p ++ t.
Proof.
  revert s. induction p as [|a p IH]; intros s; simpl.
  - split; [intros _; now exists s | reflexivity].
  - destruct s as [|b s].
    + split; [discriminate | intros [t H]; discriminate].
    + rewrite andb_true_iff, Ascii.eqb_eq, IH. split.
      * intros [-> [t ->]]. now exists t.
      * intros [t H]. injection H as -> ->. split; [reflexivity | now exists t].
Qed.

Lemma startsWith_app (p t : string) : JS.startsWith (p ++ t) p = true.
Proof. apply startsWith_iff. now exists t. Qed.

Lemma startsWith_refl (p : string) : JS.startsWith p p = true.
Proof. apply startsWith_iff. exists "". now rewrite append_nil_r. Qed.

Lemma startsWith_app_l (s p t : string) :
  JS.startsWith s p = true -> JS.startsWith (s ++ t) p = true.
Proof.
  rewrite !startsWith_iff. intros [u ->]. exists (u ++ t).
  apply append_assoc.
Qed.

Lemma startsWith_trans (s p q : string) :
  JS.startsWith s p = true -> JS.startsWith p q = true ->
  JS.startsWith s q = true.
Proof.
  rewrite !startsWith_iff. intros [u ->] [v ->]. exists (v ++ u).
  apply append_assoc.
Qed.

Lemma endsWith_unfold (s p : string) :
  JS.endsWith s p =
  String.eqb s p
  || match s with EmptyString => false | String _ s' => JS.endsWith s' p end.
Proof. destruct s; reflexivity. Qed.

Lemma endsWith_iff (s p : string) :
  JS.endsWith s p = true <-> exists t, s = t ++ p.
Proof.
  induction s as [|c s IH]; rewrite endsWith_unfold.
  - rewrite orb_false_r, String.eqb_eq. split.
    + intros <-. now exists "".
    + intros [t H]. symmetry in H. apply append_eq_nil in H. symmetry. tauto.
  - rewrite orb_true_iff, String.eqb_eq, IH. split.
    + intros [<- | [t ->]]; [now exists "" | now exists (String c t)].
    + intros [[|d t] H]; simpl in H.
      * now left.
      * injection H as -> ->. right. now exists t.
Qed.

Lemma endsWith_app (t p : string) : JS.endsWith (t ++ p) p = true.
Proof. apply endsWith_iff. now exists t. Qed.

Lemma slice_app (a b : string) : JS.slice (String.length a) (a ++ b) = b.
Proof. induction a as [|c a IH]; simpl; [now destruct b | exact IH]. Qed.

Lemma slice_all (a : string) : JS.slice (String.length a) a = "".
Proof. induction a as [|c a IH]; simpl; [reflexivity | exact IH]. Qed.

Lemma or_else_nonempty (s d : string) : s <> "" -> JS.or_else s d = s.
Proof.
  intros H. unfold JS.or_else. destruct (String.eqb_spec s ""); congruence.
Qed.

(** ** Section registry *)

Section Registry.
Variables cwd dirname : string.

Lemma matchSectionIn_one (key urlPath : string) (more : list string) :
  matchSectionIn (key :: more) urlPath =
  if String.eqb urlPath key
     || JS.startsWith urlPath (key ++ "/")
     || JS.startsWith urlPath (key ++ "%2F")
  then Some key else matchSectionIn more urlPath.
Proof. reflexivity. Qed.

(** The test of [matchSection] for one key, as a proposition. *)
Lemma section_test_iff (urlPath key : string) :
  String.eqb urlPath key
  || JS.startsWith urlPath (key ++ "/")
  || JS.startsWith urlPath (key ++ "%2F") = true
  <-> urlPath = key
      \/ (exists t, urlPath = key ++ "/" ++ t)
      \/ (exists t, urlPath = key ++ "%2F" ++ t).
Proof.
  rewrite !orb_true_iff, String.eqb_eq, !startsWith_iff.
  split.
  - intros [[H | [t H]] | [t H]]; [now left | right; left | right; right];
      exists t; now rewrite H, append_assoc.
  - intros [H | [[t H] | [t H]]]; [now left; left | left; right | right];
      exists t; now rewrite H, append_assoc.
Qed.

Lemma matchSection_cases (urlPath : string) :
  matchSection cwd dirname urlPath = Some "/docs"
  \/ matchSection cwd dirname urlPath = Some "/games"
  \/ matchSection cwd dirname urlPath = None.
Proof.
  unfold matchSection, SECTIONS. cbn [map fst].
  rewrite !matchSectionIn_one.
  destruct (_ || _ || _); [now left|].
  destruct (_ || _ || _); [now right; left | now right; right].
Qed.

Lemma matchSection_iff (urlPath key : string) :
  matchSection cwd dirname urlPath = Some key
  <-> In key (map fst (SECTIONS cwd dirname))
      /\ (urlPath = key
          \/ (exists t, urlPath = key ++ "/" ++ t)
          \/ (exists t, urlPath = key ++ "%2F" ++ t)).
Proof.
  unfold matchSection, SECTIONS. cbn [map fst In].
  rewrite !matchSectionIn_one.
  split.
  - destruct (_ || _ || _) eqn:Hd.
    + intros [= <-]. split; [now left|]. now apply section_test_iff.
    + destruct (String.eqb urlPath "/games" || _ || _) eqn:Hg;
        [|cbn; intros H; discriminate H].
      intros [= <-]. split; [now right; left|]. now apply section_test_iff.
  - intros [[<- | [<- | []]] H].
    + apply section_test_iff in H. now rewrite H.
    + assert (Hd : String.eqb urlPath "/docs"
                   || JS.startsWith urlPath ("/docs" ++ "/")
                   || JS.startsWith urlPath ("/docs" ++ "%2F") = false).
      { destruct H as [-> | [[t ->] | [t ->]]]; reflexivity. }
      rewrite Hd. apply section_test_iff in H. now rewrite H.
Qed.

(** C3. [matchSection] returns a key exactly when the URL path is that
    key, or starts with the key followed by ["/"], or starts with the key
    followed by the escape ["%2F"]; ["/games2"] matches no section. *)
Theorem matchSection_segment_boundary (urlPath key : string) :
  (matchSection cwd dirname urlPath = Some key
   <-> In key (map fst (SECTIONS cwd dirname))
       /\ (urlPath = key
           \/ (exists t, urlPath = key ++ "/" ++ t)
           \/ (exists t, urlPath = key ++ "%2F" ++ t)))
  /\ matchSection cwd dirname "/games2" = None
  /\ matchSection cwd dirname "/games" = Some "/games"
  /\ matchSection cwd dirname "/games/solo" = Some "/games"
  /\ matchSection cwd dirname "/games%2Fsolo" = Some "/games".
Proof.
  split; [apply matchSection_iff | repeat split; reflexivity].
Qed.

End Registry.

(** ** Access filter *)

Lemma strip_unfold (c : ascii) (s : string) :
  JS.stripTrailingSlashes (String c s) =
  if Ascii.eqb c "/" && String.eqb (JS.stripTrailingSlashes s) ""
  then "" else String c (JS.stripTrailingSlashes s).
Proof. reflexivity. Qed.

Lemma split_unfold (c : ascii) (s : string) :
  JS.split "/" (String c s) =
  if Ascii.eqb c "/" then "" :: JS.split "/" s
  else match JS.split "/" s with
       | [] => [String c ""]
       | h :: t => String c h :: t
       end.
Proof. reflexivity. Qed.

Lemma split_nonempty (s : string) : JS.split "/" s <> [].
Proof.
  destruct s as [|c s]; [discriminate|].
  rewrite split_unfold.
  destruct (Ascii.eqb c "/"); [discriminate|].
  destruct (JS.split "/" s); discriminate.
Qed.

Lemma startsWith_cons (a b : ascii) (s p : string) :
  JS.startsWith (String b s) (String a p) = Ascii.eqb a b && JS.startsWith s p.
Proof. reflexivity. Qed.

Lemma startsWith_nil_l (a : ascii) (p : string) :
  JS.startsWith "" (String a p) = false.
Proof. reflexivity. Qed.

Lemma ascii_eqb_sym (a b : ascii) : Ascii.eqb a b = Ascii.eqb b a.
Proof.
  destruct (Ascii.eqb_spec a b) as [->|H]; symmetry;
    [apply ascii_eqb_refl | apply Ascii.eqb_neq; congruence].
Qed.

(** Stripping trailing slashes does not change whether the string is, or
    begins with, a given slash-free segment followed by a slash. *)
Lemma strip_first_segment (w s : string) :
  slashFree w = true ->
  (JS.stripTrailingSlashes s = w
   \/ JS.startsWith (JS.stripTrailingSlashes s) (w ++ "/") = true)
  <-> (s = w \/ JS.startsWith s (w ++ "/") = true).
Proof.
  revert s. induction w as [|a w IH]; intros s Hw.
  - change ("" ++ "/") with "/".
    destruct s as [|c s]; [simpl; tauto|].
    rewrite strip_unfold, startsWith_cons.
    destruct (Ascii.eqb_spec c "/") as [->|Hc].
    + destruct (String.eqb _ ""); cbn; tauto.
    + cbn [andb]. rewrite startsWith_cons.
      assert (Ascii.eqb "/" c = false) as ->.
      { apply Ascii.eqb_neq. congruence. }
      split; intros [H|H]; discriminate.
  - cbn [slashFree] in Hw. apply andb_true_iff in Hw as [Ha Hw].
    apply negb_true_iff in Ha.
    change (String a w ++ "/") with (String a (w ++ "/")).
    destruct s as [|c s].
    + cbn. split; intros [H|H]; discriminate.
    + rewrite strip_unfold, startsWith_cons.
      destruct (Ascii.eqb_spec c "/") as [->|Hc].
      * rewrite Ha.
        destruct (String.eqb _ ""); cbn [andb];
          rewrite ?startsWith_cons, ?startsWith_nil_l, ?Ha;
          (split; intros [H|H]; try discriminate;
           injection H as H _; subst a; now rewrite ascii_eqb_refl in Ha).
      * cbn [andb]. rewrite startsWith_cons.
        specialize (IH s Hw).
        destruct (Ascii.eqb_spec a c) as [->|Hac]; cbn [andb].
        -- split; intros [H|H].
           ++ injection H as H. destruct IH as [IH _].
              destruct (IH (or_introl H)) as [->|H']; [now left | now right].
           ++ destruct IH as [IH _].
              destruct (IH (or_intror H)) as [->|H']; [now left | now right].
           ++ injection H as H. destruct IH as [_ IH].
              destruct (IH (or_introl H)) as [->|H']; [now left | now right].
           ++ destruct IH as [_ IH].
              destruct (IH (or_intror H)) as [->|H']; [now left | now right].
        -- split; intros [H|H]; try discriminate; congruence.
Qed.

(** The first segment of [s] is [w] exactly when [s] is [w] or begins with
    [w] followed by a slash. *)
Lemma split_first_segment (w s : string) :
  slashFree w = true ->
  (exists rest, JS.split "/" s = w :: rest)
  <-> (s = w \/ JS.startsWith s (w ++ "/") = true).
Proof.
  revert s. induction w as [|a w IH]; intros s Hw.
  - change ("" ++ "/") with "/".
    destruct s as [|c s].
    + cbn. split; [now left | intros _; now exists []].
    + rewrite split_unfold, startsWith_cons, (ascii_eqb_sym "/" c).
      destruct (Ascii.eqb_spec c "/") as [->|Hc]; cbn [andb JS.startsWith].
      * split; [now right | intros _; now eexists].
      * split.
        -- intros [rest H]. destruct (JS.split "/" s); discriminate.
        -- intros [H|H]; discriminate.
  - cbn [slashFree] in Hw. apply andb_true_iff in Hw as [Ha Hw].
    apply negb_true_iff in Ha.
    change (String a w ++ "/") with (String a (w ++ "/")).
    destruct s as [|c s].
    + cbn. split; [intros [rest H]; discriminate | intros [H|H]; discriminate].
    + rewrite split_unfold, startsWith_cons.
      destruct (Ascii.eqb_spec c "/") as [->|Hc].
      * rewrite Ha. cbn [andb].
        split; [intros [rest H]; discriminate|].
        intros [H|H]; [|discriminate].
        injection H as H _. subst a. now rewrite ascii_eqb_refl in Ha.
      * specialize (IH s Hw).
        destruct (JS.split "/" s) as [|h t] eqn:Hs;
          [now apply split_nonempty in Hs|].
        destruct (Ascii.eqb_spec a c) as [->|Hac]; cbn [andb].
        -- split.
           ++ intros [rest H]. injection H as H _. subst h.
              destruct IH as [IH _].
              destruct IH as [->|H']; [now exists t | now left | now right].
           ++ intros H. destruct IH as [_ IH].
              destruct IH as [rest IH].
              { destruct H as [H|H]; [left; congruence | now right]. }
              injection IH as -> ->. now exists rest.
        -- split; [intros [rest H]; congruence|].
           intros [H|H]; [congruence | discriminate].
Qed.

(** Only a run of slashes is stripped to nothing. *)
Lemma allSlashes_strip (s : string) :
  allSlashes s = String.eqb (JS.stripTrailingSlashes s) "".
Proof.
  induction s as [|c s IH]; [reflexivity|].
  cbn [allSlashes]. rewrite strip_unfold, IH.
  destruct (Ascii.eqb c "/"), (String.eqb (JS.stripTrailingSlashes s) "");
    reflexivity.
Qed.

Lemma allSlashes_cons (s : string) :
  allSlashes (String "/" s) = String.eqb (JS.stripTrailingSlashes s) "".
Proof. cbn [allSlashes Ascii.eqb Bool.eqb andb]. apply allSlashes_strip. Qed.

Lemma string_eqb_cons (a b : ascii) (s t : string) :
  String.eqb (String a s) (String b t) = Ascii.eqb a b && String.eqb s t.
Proof. cbn [String.eqb]. now destruct (Ascii.eqb a b). Qed.

(** The filter, one segment at a time: after the leading slash, the first
    segment must be a bucket slug. *)
Lemma isAllowedGamesRel_iff (rel : string) :
  isAllowedGamesRel rel = true
  <-> allSlashes rel = true
      \/ exists sl rest,
           In sl ["solo"; "multi"] /\ JS.split "/" rel = "" :: sl :: rest.
Proof.
  destruct rel as [|c s].
  { split; [now left | reflexivity]. }
  unfold isAllowedGamesRel.
  rewrite or_else_nonempty by discriminate.
  destruct (Ascii.eqb_spec c "/") as [->|Hc].
  - rewrite allSlashes_cons, strip_unfold, split_unfold.
    cbn [Ascii.eqb Bool.eqb andb].
    destruct (String.eqb_spec (JS.stripTrailingSlashes s) "") as [He|He].
    { split; [now left | reflexivity]. }
    set (r := JS.stripTrailingSlashes s) in *.
    change "/solo" with (String "/" "solo"). change "/multi" with (String "/" "multi").
    change "/solo/" with (String "/" "solo/"). change "/multi/" with (String "/" "multi/").
    change "/" with (String "/" "") at 1.
    rewrite !string_eqb_cons, !startsWith_cons.
    cbn [Ascii.eqb Bool.eqb andb orb].
    assert (String.eqb r "" = false) as -> by now apply String.eqb_neq.
    cbn [orb].
    rewrite !orb_true_iff, !String.eqb_eq.
    pose proof (strip_first_segment "solo" s eq_refl) as Hs.
    pose proof (strip_first_segment "multi" s eq_refl) as Hm.
    pose proof (split_first_segment "solo" s eq_refl) as Hs'.
    pose proof (split_first_segment "multi" s eq_refl) as Hm'.
    fold r in Hs, Hm.
    change ("solo" ++ "/") with "solo/" in *.
    change ("multi" ++ "/") with "multi/" in *.
    split.
    + intros H. right.
      assert (Hc : (r = "solo" \/ JS.startsWith r "solo/" = true)
                   \/ (r = "multi" \/ JS.startsWith r "multi/" = true)).
      { destruct H as [[[[H|H]|H]|H]|H]; [discriminate H | tauto..]. }
      destruct Hc as [Hc|Hc].
      * apply Hs, Hs' in Hc. destruct Hc as [rest Hc].
        exists "solo", rest. rewrite Hc. split; [now left | reflexivity].
      * apply Hm, Hm' in Hc. destruct Hc as [rest Hc].
        exists "multi", rest. rewrite Hc. split; [now right; left | reflexivity].
    + intros [H|[sl [rest [Hin H]]]]; [discriminate|].
      injection H as H.
      destruct Hin as [<-|[<-|[]]].
      * assert (Hc : r = "solo" \/ JS.startsWith r "solo/" = true).
        { apply Hs, Hs'. now exists rest. }
        tauto.
      * assert (Hc : r = "multi" \/ JS.startsWith r "multi/" = true).
        { apply Hm, Hm'. now exists rest. }
        tauto.
  - assert (Hf : Ascii.eqb c "/" = false) by now apply Ascii.eqb_neq.
    assert (Hf' : Ascii.eqb "/" c = false) by now rewrite ascii_eqb_sym.
    rewrite allSlashes_strip, strip_unfold, split_unfold, Hf.
    cbn [andb].
    set (r := JS.stripTrailingSlashes s).
    change "/solo" with (String "/" "solo"). change "/multi" with (String "/" "multi").
    change "/solo/" with (String "/" "solo/"). change "/multi/" with (String "/" "multi/").
    change "/" with (String "/" "") at 1.
    rewrite !string_eqb_cons, !startsWith_cons, Hf, Hf'.
    cbn [andb orb String.eqb].
    split; [discriminate|].
    intros [H|[sl [rest [_ H]]]]; [discriminate|].
    destruct (JS.split "/" s); discriminate.
Qed.

(** ** The handlers, branch by branch *)

Section Handlers.
Variables cwd dirname : string.
Variable localeCompare : string -> string -> Z.

Local Abbreviation matchSection' := (matchSection cwd dirname).
Local Abbreviation SECTIONS' := (SECTIONS cwd dirname).
Local Abbreviation resolvePathSafe' := (resolvePathSafe cwd).
Local Abbreviation downloadHandler' := (downloadHandler cwd dirname).
Local Abbreviation indexHandler' := (indexHandler cwd dirname localeCompare).
Local Abbreviation app' := (app cwd dirname localeCompare).
Local Abbreviation gamesRoot' := (Path.join [ROOT cwd dirname; "games"]).
Local Abbreviation docsRoot' := (Path.join [ROOT cwd dirname; "docs"]).

Lemma lookupSection_games : lookupSection SECTIONS' "/games" = Some gamesRoot'.
Proof. reflexivity. Qed.

Lemma lookupSection_docs : lookupSection SECTIONS' "/docs" = Some docsRoot'.
Proof. reflexivity. Qed.

Lemma lookupSection_matched (urlPath key : string) :
  matchSection' urlPath = Some key ->
  exists root, lookupSection SECTIONS' key = Some root.
Proof.
  intros H. destruct (matchSection_cases cwd dirname urlPath) as [E|[E|E]];
    rewrite E in H; [| |discriminate]; injection H as <-;
    eexists; reflexivity.
Qed.

Lemma matched_not_home (urlPath key : string) :
  matchSection' urlPath = Some key -> isHomePath urlPath = false.
Proof.
  intros H. unfold isHomePath.
  destruct (String.eqb_spec urlPath "/") as [->|]; [discriminate H|].
  destruct (String.eqb_spec urlPath "//") as [->|]; [discriminate H|].
  reflexivity.
Qed.

Lemma homeRoute_not_home (req : Request) :
  isHomePath (req_path req) = false -> homeRoute req = false.
Proof. intros H. unfold homeRoute. rewrite H. apply andb_false_r. Qed.

Lemma handOver_run (abs : string) (fs : FS) :
  match setDownloadHeaders abs with
  | inl e => ret (NextErr e)
  | inr headers => sendFile abs headers
  end fs = handOver abs.
Proof.
  unfold handOver, sendFile, ret.
  destruct (setDownloadHeaders abs); [reflexivity|].
  destruct (sendRefusal abs); reflexivity.
Qed.

Lemma handOver_deliverable (abs : string) :
  deliverable abs = true ->
  handOver abs
  = (Download abs (Path.basename abs) "public, max-age=86400, immutable",
     [OpSendFile abs]).
Proof.
  unfold deliverable, handOver, setDownloadHeaders.
  destruct (validHeaderValue _); [|discriminate].
  destruct (sendRefusal abs); [discriminate|]. reflexivity.
Qed.

Lemma handOver_refused (abs : string) :
  deliverable abs = false -> exists e, handOver abs = (NextErr e, []).
Proof.
  unfold deliverable, handOver.
  destruct (setDownloadHeaders abs) as [e|h]; [intros _; now exists e|].
  destruct (sendRefusal abs) as [st|]; [intros _; now eexists|discriminate].
Qed.

Lemma handOver_log (abs : string) (op : FsOp) :
  In op (snd (handOver abs)) -> op = OpSendFile abs.
Proof.
  unfold handOver. destruct (setDownloadHeaders abs); [intros []|].
  destruct (sendRefusal abs); [intros []|].
  intros [<-|[]]. reflexivity.
Qed.

Lemma downloadHandler_eq (req : Request) (fs : FS) (key root : string) :
  matchSection' (req_path req) = Some key ->
  lookupSection SECTIONS' key = Some root ->
  downloadHandler' req fs =
  if String.eqb key "/games" && negb (isAllowedGamesRel (relOf key req))
  then (Next, [])
  else
    match resolvePathSafe' root (relOf key req) with
    | None => (Respond 400 (Text "Chemin invalide"), [])
    | Some abs =>
        match fs_lstat fs abs with
        | inl _ => (Next, [OpLstat abs])
        | inr s =>
            if isDirectory (st_kind s) then (Next, [OpLstat abs])
            else let '(o, t) := handOver abs in (o, OpLstat abs :: t)
        end
    end.
Proof.
  intros Hm Hl. unfold downloadHandler. rewrite Hm, Hl.
  destruct (_ && _); [reflexivity|].
  destruct (resolvePathSafe' root _) as [abs|]; [|reflexivity].
  unfold bind, lstat. destruct (fs_lstat fs abs) as [e|s]; [reflexivity|].
  destruct (isDirectory _); [reflexivity|].
  rewrite handOver_run. destruct (handOver abs); reflexivity.
Qed.

Lemma indexHandler_eq (req : Request) (fs : FS) (key root : string) :
  matchSection' (req_path req) = Some key ->
  lookupSection SECTIONS' key = Some root ->
  indexHandler' req fs =
  let rel := relOf key req in
  if String.eqb key "/games" && (String.eqb rel "/" || String.eqb rel "")
  then
    let '(rows, t) := unionRows (GAMES_BUCKETS cwd dirname) fs in
    (Respond 200 (Html (unionPage localeCompare rows)), t)
  else if String.eqb key "/games" && negb (isAllowedGamesRel rel)
  then (Respond 404 (Text "Introuvable"), [])
  else
    match resolvePathSafe' root rel with
    | None => (Respond 400 (Text "Chemin invalide"), [])
    | Some abs =>
        match fs_lstat fs abs with
        | inl _ => (Respond 404 (Text "Introuvable"), [OpLstat abs])
        | inr s =>
            if negb (isDirectory (st_kind s)) then (Next, [OpLstat abs])
            else
              match fs_readdir fs abs with
              | inl e => (NextErr (FsError e), [OpLstat abs; OpReaddir abs])
              | inr entries =>
                  let '(rows, t) := listRows req key rel abs entries fs in
                  (Respond 200 (Html (plainPage localeCompare req rows)),
                   OpLstat abs :: OpReaddir abs :: t)
              end
        end
    end.
Proof.
  intros Hm Hl. unfold indexHandler. rewrite Hm, Hl. cbv zeta.
  destruct (_ && (_ || _)).
  { unfold bind, ret. destruct (unionRows _ fs) as [rows t].
    now rewrite app_nil_r. }
  destruct (_ && negb _); [reflexivity|].
  destruct (resolvePathSafe' root _) as [abs|]; [|reflexivity].
  unfold bind, lstat, readdir, ret.
  destruct (fs_lstat fs abs) as [e|s]; [reflexivity|].
  destruct (isDirectory _); [|reflexivity]. cbn [negb].
  destruct (fs_readdir fs abs) as [e|entries]; [reflexivity|].
  destruct (listRows _ _ _ _ _ fs) as [rows t]. cbn.
  now rewrite app_nil_r.
Qed.

Lemma app_eq (req : Request) (fs : FS) :
  isHomePath (req_path req) = false ->
  app' req fs =
  let '(o, t1) := downloadHandler' req fs in
  match o with
  | Next =>
      let '(o', t2) := indexHandler' req fs in
      (match o' with NextErr e => errorHandler e | _ => o' end, (t1 ++ t2)%list)
  | NextErr e => (errorHandler e, t1)
  | _ => (o, t1)
  end.
Proof.
  intros Hp. unfold app. rewrite (homeRoute_not_home req Hp).
  unfold bind, ret. destruct (downloadHandler' req fs) as [o t1].
  destruct o; try now rewrite app_nil_r.
  destruct (indexHandler' req fs) as [o' t2].
  destruct o'; now rewrite app_nil_r.
Qed.

(** A path that [lstat] shows not to be a directory: the file is handed to
    [send], or the failure of the hand-over is answered by the error
    handler. *)
Lemma app_not_directory
  (req : Request) (fs : FS) (key root abs : string) (s : Stats) :
  matchSection' (req_path req) = Some key ->
  lookupSection SECTIONS' key = Some root ->
  String.eqb key "/games" && negb (isAllowedGamesRel (relOf key req)) = false ->
  resolvePathSafe' root (relOf key req) = Some abs ->
  fs_lstat fs abs = inr s -> isDirectory (st_kind s) = false ->
  app' req fs
  = if deliverable abs
    then (Download abs (Path.basename abs) "public, max-age=86400, immutable",
          [OpLstat abs; OpSendFile abs])
    else (Respond 500 (Text "Erreur interne. Consulte la console du serveur."),
          [OpLstat abs]).
Proof.
  intros Hm Hl Hg Hres Hst Hdir.
  rewrite (app_eq req fs (matched_not_home _ _ Hm)).
  rewrite (downloadHandler_eq req fs _ _ Hm Hl), Hg, Hres, Hst, Hdir.
  destruct (deliverable abs) eqn:D.
  - now rewrite (handOver_deliverable abs D).
  - destruct (handOver_refused abs D) as [e ->]. reflexivity.
Qed.


(** ** Access filter and rejections at the HTTP boundary *)

(** C2 (as amended). [isAllowedGamesRel] is true exactly for a path made
    of slashes only (the section root) and for a path whose segment right
    after its single leading slash is a bucket slug; it is true for ["/"],
    ["/solo"], ["/solo/anything"], ["/multi/x/y"] and false for ["/other"],
    ["/solo2"], ["/..%2f.."]; a request under [/games] whose relative path is
    not allowed is answered 404 with no file system access at all. *)
Theorem isAllowedGamesRel_first_segment (rel : string) (req : Request) (fs : FS) :
  (isAllowedGamesRel rel = true
   <-> allSlashes rel = true
       \/ exists sl rest,
            In sl (map slug (GAMES_BUCKETS cwd dirname))
            /\ JS.split "/" rel = "" :: sl :: rest)
  /\ map isAllowedGamesRel
       ["/"; "/solo"; "/solo/anything"; "/multi/x/y";
        "/other"; "/solo2"; "/..%2f.."]
     = [true; true; true; true; false; false; false]
  /\ (matchSection' (req_path req) = Some "/games" ->
      isAllowedGamesRel (relOf "/games" req) = false ->
      downloadHandler' req fs = (Next, [])
      /\ indexHandler' req fs = (Respond 404 (Text "Introuvable"), [])
      /\ app' req fs = (Respond 404 (Text "Introuvable"), [])).
Proof.
  split; [apply isAllowedGamesRel_iff|].
  split; [reflexivity|].
  intros Hm Hf.
  assert (Hd : downloadHandler' req fs = (Next, [])).
  { rewrite (downloadHandler_eq req fs _ _ Hm lookupSection_games), Hf.
    reflexivity. }
  assert (Hi : indexHandler' req fs = (Respond 404 (Text "Introuvable"), [])).
  { rewrite (indexHandler_eq req fs _ _ Hm lookupSection_games). cbv zeta.
    rewrite Hf.
    destruct (String.eqb_spec (relOf "/games" req) "/") as [E|_];
      [now rewrite E in Hf|].
    destruct (String.eqb_spec (relOf "/games" req) "") as [E|_];
      [now rewrite E in Hf|].
    reflexivity. }
  repeat split; [exact Hd | exact Hi |].
  rewrite (app_eq req fs (matched_not_home _ _ Hm)), Hd, Hi. reflexivity.
Qed.

(** The resolver returns [null] exactly when one of the two rejections
    applies. *)
Lemma resolvePathSafe_None_iff (root rel : string) :
  resolvePathSafe' root rel = None <-> rejection cwd root rel <> None.
Proof.
  unfold resolvePathSafe, rejection.
  destruct (URI.decodeURIComponent _) as [d|]; [|split; [discriminate|reflexivity]].
  cbv zeta.
  destruct (JS.startsWith _ _); destruct (String.eqb _ root); cbn;
    split; congruence.
Qed.

(** C7. Whichever way the resolver rejects the relative path of a section
    request, by a percent-decoding failure or by a traversal, the answer
    is the same HTTP 400 "Chemin invalide", given by the first handler that
    resolves, and the file system has not been touched. *)
Theorem rejection_same_client_error
  (req : Request) (fs : FS) (key root : string) (why : Rejection) :
  matchSection' (req_path req) = Some key ->
  lookupSection SECTIONS' key = Some root ->
  (key = "/games" -> isAllowedGamesRel (relOf key req) = true) ->
  rejection cwd root (relOf key req) = Some why ->
  resolvePathSafe' root (relOf key req) = None
  /\ downloadHandler' req fs = (Respond 400 (Text "Chemin invalide"), [])
  /\ app' req fs = (Respond 400 (Text "Chemin invalide"), [])
  /\ (~ (key = "/games" /\ (relOf key req = "/" \/ relOf key req = "")) ->
      indexHandler' req fs = (Respond 400 (Text "Chemin invalide"), [])).
Proof.
  intros Hm Hl Hallowed Hwhy.
  assert (Hnone : resolvePathSafe' root (relOf key req) = None).
  { apply resolvePathSafe_None_iff. now rewrite Hwhy. }
  assert (Hgate : String.eqb key "/games"
                  && negb (isAllowedGamesRel (relOf key req)) = false).
  { destruct (String.eqb_spec key "/games") as [E|_]; [|reflexivity].
    now rewrite (Hallowed E). }
  assert (Hd : downloadHandler' req fs
               = (Respond 400 (Text "Chemin invalide"), [])).
  { now rewrite (downloadHandler_eq req fs _ _ Hm Hl), Hgate, Hnone. }
  repeat split; [exact Hnone | exact Hd | |].
  - now rewrite (app_eq req fs (matched_not_home _ _ Hm)), Hd.
  - intros Hnotroot.
    rewrite (indexHandler_eq req fs _ _ Hm Hl). cbv zeta.
    rewrite Hgate, Hnone.
    destruct (String.eqb_spec key "/games") as [E|_]; [|reflexivity].
    destruct (String.eqb_spec (relOf key req) "/") as [E1|_]; [tauto|].
    destruct (String.eqb_spec (relOf key req) "") as [E2|_]; [tauto|].
    reflexivity.
Qed.

(** C4 (as amended). When a section request reaches classification (any
    section request but the [/games] root, which is served by the union
    view), every failure of [lstat] on the resolved path, whatever its
    error code, gives the not-found outcome: the download handler passes
    on, the section index answers 404 "Introuvable". *)
Theorem stat_failure_is_not_found
  (req : Request) (fs : FS) (key root abs : string) (e : Errno) :
  matchSection' (req_path req) = Some key ->
  lookupSection SECTIONS' key = Some root ->
  (key = "/games" ->
   isAllowedGamesRel (relOf key req) = true
   /\ relOf key req <> "/" /\ relOf key req <> "") ->
  resolvePathSafe' root (relOf key req) = Some abs ->
  fs_lstat fs abs = inl e ->
  downloadHandler' req fs = (Next, [OpLstat abs])
  /\ indexHandler' req fs = (Respond 404 (Text "Introuvable"), [OpLstat abs])
  /\ app' req fs
     = (Respond 404 (Text "Introuvable"), [OpLstat abs; OpLstat abs]).
Proof.
  intros Hm Hl Hgames Hres Hstat.
  assert (Hgate : String.eqb key "/games"
                  && negb (isAllowedGamesRel (relOf key req)) = false).
  { destruct (String.eqb_spec key "/games") as [E|_]; [|reflexivity].
    destruct (Hgames E) as [-> _]. reflexivity. }
  assert (Hunion : String.eqb key "/games"
                   && (String.eqb (relOf key req) "/"
                       || String.eqb (relOf key req) "") = false).
  { destruct (String.eqb_spec key "/games") as [E|_]; [|reflexivity].
    destruct (Hgames E) as [_ [H1 H2]].
    apply String.eqb_neq in H1, H2. now rewrite H1, H2. }
  assert (Hd : downloadHandler' req fs = (Next, [OpLstat abs])).
  { now rewrite (downloadHandler_eq req fs _ _ Hm Hl), Hgate, Hres, Hstat. }
  assert (Hi : indexHandler' req fs
               = (Respond 404 (Text "Introuvable"), [OpLstat abs])).
  { rewrite (indexHandler_eq req fs _ _ Hm Hl). cbv zeta.
    now rewrite Hunion, Hgate, Hres, Hstat. }
  repeat split; [exact Hd | exact Hi |].
  now rewrite (app_eq req fs (matched_not_home _ _ Hm)), Hd, Hi.
Qed.

End Handlers.

(** The access filter in the words of the specification agrees with the
    code on the seven listed paths. *)
Example isPermitted_spec_examples :
  map (isPermitted_spec ["solo"; "multi"])
    ["/"; "/solo"; "/solo/anything"; "/multi/x/y";
     "/other"; "/solo2"; "/..%2f.."]
  = [true; true; true; true; false; false; false].
Proof. reflexivity. Qed.

(** C2, counterexample.  The first non-empty segment of ["//solo"] is the
    bucket slug ["solo"], yet the filter rejects the path: the code looks
    at the segment right after one leading slash, not at the first
    non-empty one. *)
Lemma isAllowedGamesRel_not_first_nonempty_segment :
  firstNonEmptySegment "//solo" = Some "solo"
  /\ isPermitted_spec ["solo"; "multi"] "//solo" = true
  /\ isAllowedGamesRel "//solo" = false
  /\ ~ (forall rel,
         isAllowedGamesRel rel = true
         <-> isPermitted_spec ["solo"; "multi"] rel = true).
Proof.
  repeat split; try reflexivity.
  intros H. specialize (H "//solo"). destruct H as [_ H].
  specialize (H eq_refl). discriminate H.
Qed.

Lemma isAllowedGamesRel_first_segment_witness :
  app "/" "/app" ordinalCompare (mkRequest "GET" "/games/other/x") exampleFS
  = (Respond 404 (Text "Introuvable"), []).
Proof.
  refine (proj2 (proj2 (proj2 (proj2
    (isAllowedGamesRel_first_segment "/" "/app" ordinalCompare "/other/x"
       (mkRequest "GET" "/games/other/x") exampleFS)) _ _))); reflexivity.
Defined.

Lemma rejection_same_client_error_witness :
  app "/" "/app" ordinalCompare (mkRequest "GET" "/docs/%zz") exampleFS
  = (Respond 400 (Text "Chemin invalide"), [])
  /\ app "/" "/app" ordinalCompare
       (mkRequest "GET" "/docs/../../../etc/passwd") exampleFS
     = (Respond 400 (Text "Chemin invalide"), []).
Proof.
  split.
  - refine (proj1 (proj2 (proj2
      (rejection_same_client_error "/" "/app" ordinalCompare
         (mkRequest "GET" "/docs/%zz") exampleFS "/docs" "/app/files/docs"
         InvalidPath _ _ _ _)))); try reflexivity.
    intros H; discriminate H.
  - refine (proj1 (proj2 (proj2
      (rejection_same_client_error "/" "/app" ordinalCompare
         (mkRequest "GET" "/docs/../../../etc/passwd") exampleFS
         "/docs" "/app/files/docs" Traversal _ _ _ _)))); try reflexivity.
    intros H; discriminate H.
Defined.

(** C4, counterexample.  [docs/secret] exists but [lstat] fails on it with
    [EACCES]; the server answers 404 "Introuvable", not an internal
    error. *)
Lemma stat_permission_error_answers_404 :
  fs_lstat exampleFS "/app/files/docs/secret" = inl EACCES
  /\ app "/" "/app" ordinalCompare (mkRequest "GET" "/docs/secret") exampleFS
     = (Respond 404 (Text "Introuvable"),
        [OpLstat "/app/files/docs/secret"; OpLstat "/app/files/docs/secret"])
  /\ fst (app "/" "/app" ordinalCompare (mkRequest "GET" "/docs/secret") exampleFS)
     <> errorHandler (FsError EACCES).
Proof. repeat split; try reflexivity. cbv. intros H. discriminate H. Qed.

Lemma stat_failure_is_not_found_witness :
  app "/" "/app" ordinalCompare (mkRequest "GET" "/docs/secret") exampleFS
  = (Respond 404 (Text "Introuvable"),
     [OpLstat "/app/files/docs/secret"; OpLstat "/app/files/docs/secret"]).
Proof.
  refine (proj2 (proj2
    (stat_failure_is_not_found "/" "/app" ordinalCompare
       (mkRequest "GET" "/docs/secret") exampleFS "/docs" "/app/files/docs"
       "/app/files/docs/secret" EACCES _ _ _ _ _))); try reflexivity.
  intros H; discriminate H.
Defined.

(** ** Segments: [split], [join] and normalisation *)

Lemma split_app_sep (a b : string) :
  JS.split "/" (a ++ String "/" b) = (JS.split "/" a ++ JS.split "/" b)%list.
Proof.
  induction a as [|c a IH].
  - reflexivity.
  - change (String c a ++ String "/" b) with (String c (a ++ String "/" b)).
    rewrite !split_unfold, IH.
    destruct (Ascii.eqb c "/"); [reflexivity|].
    destruct (JS.split "/" a) as [|h t] eqn:E; [now apply split_nonempty in E|].
    reflexivity.
Qed.

Lemma split_slashFree_id (s : string) :
  slashFree s = true -> JS.split "/" s = [s].
Proof.
  induction s as [|c s IH]; [reflexivity|].
  cbn [slashFree]. intros H. apply andb_true_iff in H as [Hc Hs].
  apply negb_true_iff in Hc. rewrite split_unfold, Hc, (IH Hs). reflexivity.
Qed.

Lemma split_all_slashFree (s : string) :
  Forall (fun seg => slashFree seg = true) (JS.split "/" s).
Proof.
  induction s as [|c s IH]; [repeat constructor|].
  rewrite split_unfold.
  destruct (Ascii.eqb c "/") eqn:Hc; [now constructor|].
  destruct (JS.split "/" s) as [|h t]; [repeat constructor; cbn; now rewrite Hc|].
  inversion IH as [|? ? Hh Ht]; subst.
  constructor; [cbn; now rewrite Hc, Hh | exact Ht].
Qed.

Lemma join_cons2 (sep x y : string) (t : list string) :
  JS.join sep (x :: y :: t) = x ++ sep ++ JS.join sep (y :: t).
Proof. reflexivity. Qed.

Lemma join_split (s : string) : JS.join "/" (JS.split "/" s) = s.
Proof.
  induction s as [|c s IH]; [reflexivity|].
  rewrite split_unfold.
  destruct (Ascii.eqb_spec c "/") as [->|Hc].
  - destruct (JS.split "/" s) as [|h t] eqn:E; [now apply split_nonempty in E|].
    rewrite join_cons2, IH. reflexivity.
  - destruct (JS.split "/" s) as [|h t] eqn:E; [now apply split_nonempty in E|].
    destruct t as [|h' t]; cbn in IH |- *; now rewrite <- IH.
Qed.

Lemma okSegment_slashFree (seg : string) :
  okSegment seg = true -> slashFree seg = true.
Proof.
  unfold okSegment. intros H.
  now apply andb_true_iff in H as [H _]; apply andb_true_iff in H as [H _];
    apply andb_true_iff in H as [H _].
Qed.

Lemma okSegment_nonempty (seg : string) : okSegment seg = true -> seg <> "".
Proof. intros H ->. discriminate H. Qed.

Lemma split_join (segs : list string) :
  okSegments segs -> segs <> [] -> JS.split "/" (JS.join "/" segs) = segs.
Proof.
  induction segs as [|x t IH]; [congruence|].
  intros Hok _. inversion Hok as [|? ? Hx Ht]; subst.
  destruct t as [|y t].
  - cbn [JS.join]. now apply split_slashFree_id, okSegment_slashFree.
  - rewrite join_cons2. change ("/" ++ JS.join "/" (y :: t))
      with (String "/" (JS.join "/" (y :: t))).
    rewrite split_app_sep, (split_slashFree_id x), IH;
      [reflexivity | exact Ht | discriminate | now apply okSegment_slashFree].
Qed.

(** The segments of a normalised absolute path. *)
Lemma split_normalized (segs : list string) :
  okSegments segs ->
  JS.split "/" ("/" ++ JS.join "/" segs)
  = "" :: match segs with [] => [""] | _ => segs end.
Proof.
  intros Hok. change ("/" ++ JS.join "/" segs) with (String "/" (JS.join "/" segs)).
  rewrite split_unfold. cbn [Ascii.eqb Bool.eqb].
  destruct segs as [|x t]; [reflexivity|].
  now rewrite split_join.
Qed.

Lemma normalizeSegs_app (allow : bool) (res l1 l2 : list string) :
  Path.normalizeSegs allow res (l1 ++ l2)
  = Path.normalizeSegs allow (rev (Path.normalizeSegs allow res l1)) l2.
Proof.
  revert res. induction l1 as [|seg l1 IH]; intros res.
  - cbn. now rewrite rev_involutive.
  - cbn [List.app Path.normalizeSegs].
    destruct (String.eqb seg "" || String.eqb seg "."); [apply IH|].
    destruct (String.eqb seg ".."); [|apply IH].
    destruct res as [|top res']; [apply IH|].
    destruct (String.eqb top ".."); apply IH.
Qed.

Lemma normalizeSegs_ok_step (allow : bool) (res l : list string) (seg : string) :
  okSegment seg = true ->
  Path.normalizeSegs allow res (seg :: l) = Path.normalizeSegs allow (seg :: res) l.
Proof.
  unfold okSegment. intros H.
  apply andb_true_iff in H as [H H3]. apply andb_true_iff in H as [H H2].
  apply andb_true_iff in H as [_ H1].
  apply negb_true_iff in H1, H2, H3.
  cbn [Path.normalizeSegs]. now rewrite H1, H2, H3.
Qed.

(** Ordinary segments are kept as they are. *)
Lemma normalizeSegs_ok (allow : bool) (res l : list string) :
  okSegments l -> Path.normalizeSegs allow res l = (rev res ++ l)%list.
Proof.
  revert res. induction l as [|seg l IH]; intros res Hok.
  - cbn. now rewrite app_nil_r.
  - inversion Hok as [|? ? Hseg Hl]; subst.
    rewrite (normalizeSegs_ok_step _ _ _ _ Hseg), (IH _ Hl).
    cbn [rev]. now rewrite <- app_assoc.
Qed.

Lemma normalizeSegs_empty_step (allow : bool) (res l : list string) :
  Path.normalizeSegs allow res ("" :: l) = Path.normalizeSegs allow res l.
Proof. reflexivity. Qed.

(** Below the root nothing but ordinary segments survives. *)
Lemma normalizeSegs_false_ok (res l : list string) :
  okSegments res ->
  Forall (fun seg => slashFree seg = true) l ->
  okSegments (Path.normalizeSegs false res l).
Proof.
  revert res. induction l as [|seg l IH]; intros res Hres Hl.
  - cbn. now apply Forall_rev.
  - inversion Hl as [|? ? Hseg Hl']; subst.
    cbn [Path.normalizeSegs].
    destruct (String.eqb seg "") eqn:E1; [now apply IH|].
    destruct (String.eqb seg ".") eqn:E2; [now apply IH|].
    cbn [orb].
    destruct (String.eqb seg "..") eqn:E3.
    + destruct res as [|top res']; [now apply IH|].
      inversion Hres; subst.
      destruct (String.eqb top ".."); now apply IH.
    + apply IH; [|exact Hl'].
      constructor; [|exact Hres].
      unfold okSegment. now rewrite Hseg, E1, E2, E3.
Qed.

Lemma okSegments_app (l1 l2 : list string) :
  okSegments l1 -> okSegments l2 -> okSegments (l1 ++ l2).
Proof. intros H1 H2. apply Forall_app. now split. Qed.

(** ** [path.resolve] on an absolute root *)

Lemma isAbsolute_iff (p : string) :
  Path.isAbsolute p = true <-> exists q, p = String "/" q.
Proof.
  unfold Path.isAbsolute. rewrite startsWith_iff. split; intros [q ->]; now exists q.
Qed.

Lemma normalizeSegs_trailing_empty (allow : bool) (res l : list string) :
  Path.normalizeSegs allow res (l ++ [""]) = Path.normalizeSegs allow res l.
Proof. rewrite normalizeSegs_app. cbn. apply rev_involutive. Qed.

(** With an absolute first argument and a relative second one, the working
    directory is not consulted and the result is the normalisation of the
    two, one after the other. *)
Lemma resolve_from_absolute (cwd root x : string) :
  Path.isAbsolute root = true -> x <> "" -> Path.isAbsolute x = false ->
  Path.resolve cwd [root; x]
  = "/" ++ JS.join "/"
      (Path.normalizeSegs false
         (rev (Path.normalizeSegs false [] (JS.split "/" root)))
         (JS.split "/" x)).
Proof.
  intros Hroot Hx Hrel.
  unfold Path.resolve. cbn [rev List.app Path.resolveLoop].
  apply String.eqb_neq in Hx. rewrite Hx, Hrel.
  pose proof Hroot as Hq. apply isAbsolute_iff in Hq as [q ->].
  cbn [String.eqb]. rewrite Hroot. cbn [negb].
  unfold Path.normalizeString.
  change (String "/" q ++ "/" ++ x ++ "/" ++ "")
    with (String "/" q ++ String "/" (x ++ String "/" "")).
  rewrite !split_app_sep. cbn [JS.split].
  rewrite normalizeSegs_app, normalizeSegs_trailing_empty. reflexivity.
Qed.

Lemma dot_prefixed (d : string) :
  "." ++ d <> "" /\ Path.isAbsolute ("." ++ d) = false.
Proof. split; [discriminate | reflexivity]. Qed.

Lemma resolve_normalized (cwd root d : string) :
  Path.isAbsolute root = true ->
  normalizedAbsolute (Path.resolve cwd [root; "." ++ d]).
Proof.
  intros Hroot. destruct (dot_prefixed d) as [H1 H2].
  rewrite (resolve_from_absolute cwd root _ Hroot H1 H2).
  eexists. split; [|reflexivity].
  apply normalizeSegs_false_ok; [|apply split_all_slashFree].
  apply Forall_rev. apply normalizeSegs_false_ok; [constructor|].
  apply split_all_slashFree.
Qed.

(** A normalised absolute path that begins with [root ++ "/"] continues
    with ordinary segments. *)
Lemma normalized_below (root abs : string) :
  Path.isAbsolute root = true ->
  normalizedAbsolute abs ->
  JS.startsWith abs (root ++ "/") = true ->
  exists rest,
    rest <> "" /\ abs = root ++ "/" ++ rest /\ okSegments (JS.split "/" rest).
Proof.
  intros Hroot [segs [Hok ->]] Hpre.
  apply isAbsolute_iff in Hroot as [q ->].
  apply startsWith_iff in Hpre as [rest Hrest].
  rewrite append_assoc in Hrest.
  change ("/" ++ JS.join "/" segs) with (String "/" (JS.join "/" segs)) in *.
  change (String "/" q ++ "/" ++ rest) with (String "/" (q ++ String "/" rest)) in *.
  injection Hrest as Hrest.
  assert (Hne : segs <> []).
  { intros ->. cbn in Hrest. symmetry in Hrest.
    apply append_eq_nil in Hrest as [_ Hrest]. discriminate Hrest. }
  assert (Hsplit : okSegments (JS.split "/" q ++ JS.split "/" rest)).
  { rewrite <- split_app_sep, <- Hrest, split_join by assumption. exact Hok. }
  apply Forall_app in Hsplit as [_ Hsplit].
  exists rest. repeat split.
  - intros ->. inversion Hsplit as [|? ? H _]. discriminate H.
  - now rewrite Hrest.
  - exact Hsplit.
Qed.

Section Resolver.
Variable cwd : string.

Lemma resolvePathSafe_Some_inv (root p abs : string) :
  resolvePathSafe cwd root p = Some abs ->
  exists d,
    URI.decodeURIComponent (JS.or_else p "/") = Some d
    /\ abs = Path.resolve cwd [root; "." ++ d]
    /\ (JS.startsWith abs
          (if JS.endsWith root Path.sep then root else root ++ Path.sep) = true
        \/ abs = root).
Proof.
  unfold resolvePathSafe.
  destruct (URI.decodeURIComponent _) as [d|]; [|discriminate].
  cbv zeta.
  destruct (JS.startsWith _ _) eqn:Hs; cbn [negb andb].
  - intros [= <-]. exists d. auto.
  - destruct (String.eqb_spec (Path.resolve cwd [root; "." ++ d]) root) as [E|_];
      cbn [negb]; [|discriminate].
    intros [= <-]. exists d. auto.
Qed.

(** The single-root server resolves like the current one, except that a
    decoding failure leaves by exception instead of returning [null]. *)
Lemma legacy_resolvePathSafe_eq (root p : string) :
  Legacy.resolvePathSafe cwd root p
  = match URI.decodeURIComponent (JS.or_else p "/") with
    | None => inl URIError
    | Some _ => inr (resolvePathSafe cwd root p)
    end.
Proof.
  unfold Legacy.resolvePathSafe, resolvePathSafe.
  destruct (URI.decodeURIComponent _) as [d|]; [|reflexivity].
  cbv zeta. now destruct (_ && _).
Qed.

Lemma resolvePathSafe_contained (root p abs : string) :
  Path.isAbsolute root = true ->
  JS.endsWith root Path.sep = false ->
  resolvePathSafe cwd root p = Some abs ->
  normalizedAbsolute abs /\ within root abs.
Proof.
  intros Hroot Hsep Hres.
  apply resolvePathSafe_Some_inv in Hres as [d [_ [-> Hchk]]].
  pose proof (resolve_normalized cwd root d Hroot) as Hnorm.
  split; [exact Hnorm|].
  rewrite Hsep in Hchk. destruct Hchk as [Hpre|Heq]; [|now left].
  right. now apply normalized_below.
Qed.

(** C1. For an absolute root without trailing separator and any relative
    URL path, [resolvePathSafe] returns [null] or a normalised absolute path
    (no ["."], [".."] or empty segment) that is the root itself or the root,
    one separator and at least one ordinary segment; the single-root
    variant returns the same paths and rejects by [null] or, on a
    malformed escape, by exception.  ["/files2"] is not below ["/files"]. *)
Theorem resolvePathSafe_within_root (root p : string) :
  Path.isAbsolute root = true ->
  JS.endsWith root Path.sep = false ->
  (forall abs, resolvePathSafe cwd root p = Some abs ->
               normalizedAbsolute abs /\ within root abs)
  /\ (forall abs, Legacy.resolvePathSafe cwd root p = inr (Some abs) ->
                  normalizedAbsolute abs /\ within root abs)
  /\ (forall e, Legacy.resolvePathSafe cwd root p = inl e ->
                e = URIError /\ resolvePathSafe cwd root p = None)
  /\ resolvePathSafe cwd "/files" "/../files2" = None
  /\ resolvePathSafe cwd "/files" "/../files2/x" = None
  /\ Legacy.resolvePathSafe cwd "/files" "/../files2" = inr None.
Proof.
  intros Hroot Hsep.
  split; [|split; [|split; [|repeat split; reflexivity]]].
  - intros abs H. eapply resolvePathSafe_contained; eassumption.
  - intros abs H. rewrite legacy_resolvePathSafe_eq in H.
    destruct (URI.decodeURIComponent _); [|discriminate].
    injection H as H. eapply resolvePathSafe_contained; eassumption.
  - intros e H. rewrite legacy_resolvePathSafe_eq in H. unfold resolvePathSafe.
    destruct (URI.decodeURIComponent _); [discriminate|].
    split; [congruence | reflexivity].
Qed.

End Resolver.

Lemma resolvePathSafe_within_root_witness :
  resolvePathSafe "/" "/srv/files" "/a/../b%20c/./d" = Some "/srv/files/b c/d"
  /\ normalizedAbsolute "/srv/files/b c/d"
  /\ within "/srv/files" "/srv/files/b c/d".
Proof.
  split; [reflexivity|].
  exact (proj1 (resolvePathSafe_within_root "/" "/srv/files" "/a/../b%20c/./d"
                  eq_refl eq_refl) "/srv/files/b c/d" eq_refl).
Defined.

(** ** The physical roots of the program *)

Lemma join_ok_nonempty (segs : list string) :
  okSegments segs -> segs <> [] -> JS.join "/" segs <> "".
Proof.
  intros Hok Hne E.
  pose proof (split_join segs Hok Hne) as H. rewrite E in H. cbn in H.
  subst segs. inversion Hok as [|? ? Hx _]. discriminate Hx.
Qed.

Lemma last_app_nonempty {A} (l1 l2 : list A) (d : A) :
  l2 <> [] -> last (l1 ++ l2) d = last l2 d.
Proof.
  intros H. induction l1 as [|x l1 IH]; [reflexivity|].
  cbn [List.app]. destruct (l1 ++ l2)%list eqn:E.
  - apply app_eq_nil in E as [_ E]. contradiction.
  - rewrite <- IH. reflexivity.
Qed.

Lemma okSegments_last (segs : list string) :
  okSegments segs -> segs <> [] -> last segs "" <> "".
Proof.
  intros Hok Hne. destruct (exists_last Hne) as [l [x ->]].
  rewrite last_last. apply Forall_app in Hok as [_ Hok].
  inversion Hok as [|? ? Hx _]. now apply okSegment_nonempty.
Qed.

(** A path whose last segment is an ordinary one has no trailing slash. *)
Lemma endsWith_sep_false (s : string) (segs : list string) :
  JS.split "/" s = segs -> last segs "" <> "" -> JS.endsWith s "/" = false.
Proof.
  intros Hs Hlast. destruct (JS.endsWith s "/") eqn:E; [|reflexivity].
  apply endsWith_iff in E as [t ->].
  change (t ++ "/") with (t ++ String "/" "") in Hs.
  rewrite split_app_sep in Hs. subst segs. cbn [JS.split] in Hlast.
  rewrite last_last in Hlast. contradiction.
Qed.

Lemma normalizeSegs_of_normalized (segs : list string) :
  okSegments segs ->
  Path.normalizeSegs false [] (JS.split "/" ("/" ++ JS.join "/" segs)) = segs.
Proof.
  intros Hok. rewrite split_normalized by exact Hok.
  rewrite normalizeSegs_empty_step.
  destruct segs as [|x t]; [reflexivity|].
  now rewrite normalizeSegs_ok.
Qed.

Lemma normalized_no_trailing_sep (segs : list string) :
  okSegments segs -> segs <> [] ->
  JS.endsWith ("/" ++ JS.join "/" segs) Path.sep = false.
Proof.
  intros Hok Hne. eapply endsWith_sep_false; [now apply split_normalized|].
  destruct segs as [|x t]; [contradiction|].
  change (last ("" :: x :: t) "") with (last (x :: t) "").
  now apply okSegments_last.
Qed.

Lemma filterBoolean_id (l : list string) :
  Forall (fun x => x <> "") l -> JS.filterBoolean l = l.
Proof.
  induction 1 as [|x l Hx _ IH]; [reflexivity|].
  unfold JS.filterBoolean in *. cbn [filter].
  apply String.eqb_neq in Hx. rewrite Hx. cbn [negb]. now rewrite IH.
Qed.

(** [path.join] of a normalised absolute path with ordinary names appends
    the names. *)
Lemma path_join_normalized (segs names : list string) :
  okSegments segs -> okSegments names -> names <> [] ->
  Path.join (("/" ++ JS.join "/" segs) :: names)
  = "/" ++ JS.join "/" (segs ++ names).
Proof.
  intros Hsegs Hnames Hne.
  unfold Path.join.
  rewrite filterBoolean_id.
  2:{ constructor; [discriminate|].
      eapply Forall_impl; [|exact Hnames]. intros a. apply okSegment_nonempty. }
  destruct names as [|y t]; [contradiction|].
  rewrite join_cons2.
  set (R := "/" ++ JS.join "/" segs).
  set (joined := R ++ "/" ++ JS.join "/" (y :: t)).
  assert (Hsplit : JS.split "/" joined
                   = (JS.split "/" R ++ (y :: t))%list).
  { unfold joined. change ("/" ++ JS.join "/" (y :: t))
      with (String "/" (JS.join "/" (y :: t))).
    rewrite split_app_sep, split_join; [reflexivity | exact Hnames | discriminate]. }
  assert (Hnorm : Path.normalizeSegs false [] (JS.split "/" joined)
                  = (segs ++ y :: t)%list).
  { rewrite Hsplit, normalizeSegs_app. unfold R.
    rewrite normalizeSegs_of_normalized by exact Hsegs.
    rewrite normalizeSegs_ok by exact Hnames. now rewrite rev_involutive. }
  assert (Hj : String.eqb joined "" = false) by reflexivity.
  rewrite Hj. unfold Path.normalize. rewrite Hj.
  assert (Habs : Path.isAbsolute joined = true) by reflexivity.
  rewrite Habs. cbn [negb].
  unfold Path.normalizeString. rewrite Hnorm.
  assert (Hn : String.eqb (JS.join "/" (segs ++ y :: t)) "" = false).
  { apply String.eqb_neq, join_ok_nonempty.
    - now apply okSegments_app.
    - intros E. apply app_eq_nil in E as [_ E]. discriminate E. }
  rewrite Hn.
  assert (Ht : JS.endsWith joined "/" = false).
  { eapply endsWith_sep_false; [exact Hsplit|].
    rewrite last_app_nonempty by discriminate.
    apply okSegments_last; [exact Hnames | discriminate]. }
  rewrite Ht. reflexivity.
Qed.

Section Roots.
Variables cwd dirname : string.
Hypothesis dirname_absolute : Path.isAbsolute dirname = true.

(** [ROOT] is the normalised [__dirname] followed by ["files"]. *)
Lemma ROOT_normalized :
  exists dsegs,
    okSegments dsegs
    /\ ROOT cwd dirname = "/" ++ JS.join "/" (dsegs ++ ["files"]).
Proof.
  exists (Path.normalizeSegs false [] (JS.split "/" dirname)).
  assert (Hok : okSegments (Path.normalizeSegs false [] (JS.split "/" dirname))).
  { apply normalizeSegs_false_ok; [constructor | apply split_all_slashFree]. }
  split; [exact Hok|].
  unfold ROOT.
  rewrite resolve_from_absolute; [|exact dirname_absolute|discriminate|reflexivity].
  change (JS.split "/" "files") with ["files"].
  rewrite normalizeSegs_ok by (repeat constructor).
  now rewrite rev_involutive.
Qed.

(** Every directory the program serves from: [ROOT] followed by ordinary
    names. *)
Lemma under_ROOT_normalized (names : list string) :
  okSegments names -> names <> [] ->
  exists rsegs,
    okSegments rsegs /\ rsegs <> []
    /\ Path.join (ROOT cwd dirname :: names) = "/" ++ JS.join "/" rsegs.
Proof.
  intros Hnames Hne. destruct ROOT_normalized as [dsegs [Hd ->]].
  exists ((dsegs ++ ["files"]) ++ names)%list.
  assert (Hf : okSegments (dsegs ++ ["files"])).
  { apply okSegments_app; [exact Hd | repeat constructor]. }
  repeat split.
  - now apply okSegments_app.
  - intros E. apply app_eq_nil in E as [_ E]. contradiction.
  - now apply path_join_normalized.
Qed.

Lemma section_root_normalized (key root : string) :
  lookupSection (SECTIONS cwd dirname) key = Some root ->
  exists rsegs,
    okSegments rsegs /\ rsegs <> [] /\ root = "/" ++ JS.join "/" rsegs.
Proof.
  unfold SECTIONS. cbn [lookupSection].
  destruct (String.eqb "/docs" key).
  - intros [= <-]. apply under_ROOT_normalized; [repeat constructor | discriminate].
  - destruct (String.eqb "/games" key); [|discriminate].
    intros [= <-]. apply under_ROOT_normalized; [repeat constructor | discriminate].
Qed.

(** The roots of the two sections satisfy what the resolver needs. *)
Lemma section_root_canonical (key root : string) :
  lookupSection (SECTIONS cwd dirname) key = Some root ->
  Path.isAbsolute root = true /\ JS.endsWith root Path.sep = false.
Proof.
  intros H. apply section_root_normalized in H as [rsegs [Hok [Hne ->]]].
  split; [reflexivity | now apply normalized_no_trailing_sep].
Qed.

End Roots.

(** Resolution against a normalised root, on segments. *)
Lemma resolve_on_normalized (cwd : string) (rsegs : list string) (d : string) :
  okSegments rsegs ->
  Path.resolve cwd ["/" ++ JS.join "/" rsegs; "." ++ d]
  = "/" ++ JS.join "/"
      (Path.normalizeSegs false (rev rsegs) (JS.split "/" ("." ++ d))).
Proof.
  intros Hok. destruct (dot_prefixed d) as [H1 H2].
  rewrite resolve_from_absolute; [|reflexivity|exact H1|exact H2].
  now rewrite normalizeSegs_of_normalized.
Qed.

(** ** The child loops *)

Lemma listRows_run (req : Request) (key rel abs : string)
  (entries : list Dirent) (fs : FS) :
  listRows req key rel abs entries fs
  = (map (fun es => plainRow req key rel (fst es) (snd es))
       (statChildren fs abs entries),
     statCalls abs entries).
Proof.
  induction entries as [|e more IH]; [reflexivity|].
  cbn [listRows statChildren statCalls flat_map map].
  unfold bind, lstat, ret.
  fold (statChildren fs abs more). fold (statCalls abs more).
  destruct (fs_lstat fs (Path.join [abs; d_name e])) as [err|s];
    rewrite IH; cbn; [reflexivity|].
  now rewrite app_nil_r.
Qed.

Lemma bucketRows_run (b : Bucket) (entries : list Dirent) (fs : FS) :
  bucketRows b entries fs
  = (map (fun es => bucketRow b (fst es) (snd es))
       (statChildren fs (dir b) (filter (fun e => isFile (d_kind e)) entries)),
     statCalls (dir b) (filter (fun e => isFile (d_kind e)) entries)).
Proof.
  induction entries as [|e more IH]; [reflexivity|].
  cbn [bucketRows filter].
  destruct (isFile (d_kind e)); cbn [negb]; [|exact IH].
  cbn [statChildren statCalls flat_map map].
  unfold bind, lstat, ret.
  fold (statChildren fs (dir b) (filter (fun e => isFile (d_kind e)) more)).
  fold (statCalls (dir b) (filter (fun e => isFile (d_kind e)) more)).
  destruct (fs_lstat fs (Path.join [dir b; d_name e])) as [err|s];
    rewrite IH; cbn; [reflexivity|].
  now rewrite app_nil_r.
Qed.

(** In the single-root server one failing child aborts the loop. *)
Lemma legacy_listRows_fails (req : Request) (abs : string)
  (entries : list Dirent) (fs : FS) :
  (exists e err, In e entries
                 /\ fs_lstat fs (Path.join [abs; d_name e]) = inl err) ->
  exists err t, Legacy.listRows req abs entries fs = (inl (FsError err), t).
Proof.
  induction entries as [|e more IH]; intros [e0 [err0 [Hin Hfail]]];
    [contradiction|].
  cbn [Legacy.listRows]. unfold bind, lstat, ret.
  destruct (fs_lstat fs (Path.join [abs; d_name e])) as [err|s] eqn:E.
  - eauto.
  - destruct Hin as [->|Hin]; [congruence|].
    destruct IH as [err [t Hrun]]; [eauto|].
    rewrite Hrun. cbn. eauto.
Qed.

(** ** The [/games] root reached through a bucket *)

Section GamesRoot.
Variables cwd dirname : string.
Variable localeCompare : string -> string -> Z.
Hypothesis dirname_absolute : Path.isAbsolute dirname = true.

Local Abbreviation gamesRoot' := (Path.join [ROOT cwd dirname; "games"]).

Lemma resolve_bucket_parent :
  resolvePathSafe cwd gamesRoot' "/solo/.." = Some gamesRoot'.
Proof.
  destruct (section_root_normalized cwd dirname dirname_absolute "/games" _
              (lookupSection_games cwd dirname)) as [rsegs [Hok [_ E]]].
  rewrite E. unfold resolvePathSafe.
  change (URI.decodeURIComponent (JS.or_else "/solo/.." "/"))
    with (Some "/solo/..").
  cbv beta iota zeta. rewrite resolve_on_normalized by exact Hok.
  change (JS.split "/" ("." ++ "/solo/..")) with ["."; "solo"; ".."].
  cbn [Path.normalizeSegs String.eqb Ascii.eqb Bool.eqb orb].
  rewrite rev_involutive, string_eqb_refl. cbn [negb].
  now rewrite andb_false_r.
Qed.

Lemma resolve_section_root (key root : string) :
  lookupSection (SECTIONS cwd dirname) key = Some root ->
  resolvePathSafe cwd root "/" = Some root.
Proof.
  intros Hl.
  destruct (section_root_normalized cwd dirname dirname_absolute key root Hl)
    as [rsegs [Hok [_ ->]]].
  unfold resolvePathSafe.
  change (URI.decodeURIComponent (JS.or_else "/" "/")) with (Some "/").
  cbv beta iota zeta. rewrite resolve_on_normalized by exact Hok.
  change (JS.split "/" ("." ++ "/")) with ["."; ""].
  cbn [Path.normalizeSegs String.eqb Ascii.eqb Bool.eqb orb].
  rewrite rev_involutive, string_eqb_refl. cbn [negb].
  now rewrite andb_false_r.
Qed.

(** C8. Under [/games] the union view is produced exactly when the
    relative path is ["/"] (or empty); every other listing is the plain
    listing of the resolved directory.  The path ["/solo/.."] passes the
    allow-list, resolves to the section root, and is answered by the plain
    branch: it reads the physical [games] directory and lists every child
    that can be [lstat]ed, bucket or not. *)
Theorem games_root_through_bucket_parent
  (fs : FS) (s : Stats) (entries : list Dirent) (method : string) :
  let req := mkRequest method "/games/solo/.." in
  fs_lstat fs gamesRoot' = inr s ->
  isDirectory (st_kind s) = true ->
  fs_readdir fs gamesRoot' = inr entries ->
  relOf "/games" req = "/solo/.."
  /\ isAllowedGamesRel (relOf "/games" req) = true
  /\ resolvePathSafe cwd gamesRoot' (relOf "/games" req) = Some gamesRoot'
  /\ app cwd dirname localeCompare req fs
     = (Respond 200
          (Html (plainPage localeCompare req
                   (map (fun es => plainRow req "/games" "/solo/.." (fst es) (snd es))
                      (statChildren fs gamesRoot' entries)))),
        OpLstat gamesRoot' :: OpLstat gamesRoot' :: OpReaddir gamesRoot'
          :: statCalls gamesRoot' entries)
  /\ (forall req' fs',
        matchSection cwd dirname (req_path req') = Some "/games" ->
        relOf "/games" req' = "/" \/ relOf "/games" req' = "" ->
        indexHandler cwd dirname localeCompare req' fs'
        = (Respond 200
             (Html (unionPage localeCompare
                      (fst (unionRows (GAMES_BUCKETS cwd dirname) fs')))),
           snd (unionRows (GAMES_BUCKETS cwd dirname) fs')))
  /\ (forall req' fs' pg t,
        matchSection cwd dirname (req_path req') = Some "/games" ->
        relOf "/games" req' <> "/" -> relOf "/games" req' <> "" ->
        indexHandler cwd dirname localeCompare req' fs'
        = (Respond 200 (Html pg), t) ->
        exists abs entries',
          resolvePathSafe cwd gamesRoot' (relOf "/games" req') = Some abs
          /\ fs_readdir fs' abs = inr entries'
          /\ pg = plainPage localeCompare req'
                    (map (fun es => plainRow req' "/games" (relOf "/games" req')
                                      (fst es) (snd es))
                       (statChildren fs' abs entries'))).
Proof.
  intros req Hstat Hdir Hread.
  assert (Hm : matchSection cwd dirname (req_path req) = Some "/games")
    by reflexivity.
  assert (Hrel : relOf "/games" req = "/solo/..") by reflexivity.
  pose proof resolve_bucket_parent as Hres.
  split; [exact Hrel|]. split; [reflexivity|].
  split; [now rewrite Hrel|].
  split; [|split].
  - rewrite (app_eq _ _ _ req fs (matched_not_home _ _ _ _ Hm)).
    rewrite (downloadHandler_eq _ _ req fs _ _ Hm (lookupSection_games _ _)).
    rewrite (indexHandler_eq _ _ _ req fs _ _ Hm (lookupSection_games _ _)).
    cbv zeta. rewrite Hrel, Hres, Hstat, Hdir, Hread, listRows_run.
    reflexivity.
  - intros req' fs' Hm' Hroot.
    rewrite (indexHandler_eq _ _ _ req' fs' _ _ Hm' (lookupSection_games _ _)).
    cbv zeta.
    assert (E : String.eqb (relOf "/games" req') "/"
                || String.eqb (relOf "/games" req') "" = true).
    { destruct Hroot as [-> | ->]; reflexivity. }
    rewrite E. cbn [String.eqb Ascii.eqb Bool.eqb andb].
    now destruct (unionRows _ fs').
  - intros req' fs' pg t Hm' H1 H2.
    rewrite (indexHandler_eq _ _ _ req' fs' _ _ Hm' (lookupSection_games _ _)).
    cbv zeta.
    apply String.eqb_neq in H1, H2. rewrite H1, H2.
    cbn [String.eqb Ascii.eqb Bool.eqb andb orb].
    destruct (isAllowedGamesRel _); cbn [negb]; [|discriminate].
    destruct (resolvePathSafe cwd _ (relOf "/games" req')) as [abs|];
      [|discriminate].
    destruct (fs_lstat fs' abs) as [?|s']; [discriminate|].
    destruct (isDirectory (st_kind s')); cbn [negb]; [|discriminate].
    destruct (fs_readdir fs' abs) as [?|entries'] eqn:Hrd; [discriminate|].
    rewrite listRows_run. intros [= <- _].
    exists abs, entries'. auto.
Qed.

End GamesRoot.

Lemma games_root_through_bucket_parent_witness :
  app "/" "/app" ordinalCompare (mkRequest "GET" "/games/solo/..") exampleFS
  = (Respond 200
       (Html
          {| title := "/games/solo/..";
             heading := "games";
             breadcrumbs :=
               [("/", "Accueil"); ("/games/", "games");
                ("/games/solo/", "solo"); ("/games/solo/../", "..")];
             rows :=
               [ mkRow "multi/" "/games/solo/../multi/" true None 0 None;
                 mkRow "other/" "/games/solo/../other/" true None 0 None;
                 mkRow "solo/" "/games/solo/../solo/" true None 0 None ];
             showMode := true;
             parentLink := true |}),
     [OpLstat "/app/files/games"; OpLstat "/app/files/games";
      OpReaddir "/app/files/games"; OpLstat "/app/files/games/solo";
      OpLstat "/app/files/games/other"; OpLstat "/app/files/games/multi"]).
Proof.
  exact (proj1 (proj2 (proj2 (proj2
    (games_root_through_bucket_parent "/" "/app" ordinalCompare eq_refl
       exampleFS (exampleStats KDirectory)
       [mkDirent "solo" KDirectory; mkDirent "other" KDirectory;
        mkDirent "multi" KDirectory] "GET" eq_refl eq_refl eq_refl))))).
Defined.

(** ** Sorting *)

Section SortFacts.
Context {A : Type} (f : A -> A -> Z).

Lemma insert_perm (x : A) (l : list A) : Permutation (x :: l) (JS.insert f x l).
Proof.
  induction l as [|y t IH]; cbn [JS.insert]; [reflexivity|].
  destruct (f x y <=? 0)%Z; [reflexivity|].
  rewrite perm_swap. now constructor.
Qed.

Lemma sort_perm (l : list A) : Permutation l (JS.sort f l).
Proof.
  induction l as [|x t IH]; cbn [JS.sort]; [constructor|].
  rewrite <- insert_perm. now constructor.
Qed.

Hypothesis f_consistent : Consistent f.

Lemma notAfter_total (a b : A) : notAfter f a b \/ notAfter f b a.
Proof.
  unfold notAfter. pose proof (cmp_sgn f f_consistent a b) as H.
  destruct (Z.sgn_spec (f a b)) as [[? ?]|[[? ?]|[? ?]]];
    destruct (Z.sgn_spec (f b a)) as [[? ?]|[[? ?]|[? ?]]]; lia.
Qed.

Lemma insert_sorted (x : A) (l : list A) :
  StronglySorted (notAfter f) l -> StronglySorted (notAfter f) (JS.insert f x l).
Proof.
  induction 1 as [|y t Ht IH Hy]; cbn [JS.insert].
  - repeat constructor.
  - destruct (Z.leb_spec (f x y) 0) as [Hxy|Hxy].
    + constructor; [now constructor|].
      constructor; [exact Hxy|].
      eapply Forall_impl; [|exact Hy]. intros z Hz.
      exact (cmp_trans f f_consistent _ _ _ Hxy Hz).
    + constructor; [exact IH|].
      eapply Permutation_Forall; [apply insert_perm|].
      constructor; [|exact Hy].
      destruct (notAfter_total x y) as [H|H]; [unfold notAfter in H; lia | exact H].
Qed.

Lemma sort_sorted (l : list A) : StronglySorted (notAfter f) (JS.sort f l).
Proof.
  induction l as [|x t IH]; cbn [JS.sort]; [constructor | now apply insert_sorted].
Qed.

(** Two sorted arrangements of the same elements coincide when elements
    that are each not after the other are equal. *)
Lemma sorted_perm_unique (l l' : list A) :
  (forall a b, In a l -> In b l ->
               notAfter f a b -> notAfter f b a -> a = b) ->
  StronglySorted (notAfter f) l -> StronglySorted (notAfter f) l' ->
  Permutation l l' -> l = l'.
Proof.
  intros Hanti Hl. revert l' Hanti.
  induction Hl as [|x t Ht IH Hx]; intros l' Hanti Hl' Hp.
  - now apply Permutation_nil in Hp.
  - destruct l' as [|x' t']; [now apply Permutation_sym, Permutation_nil in Hp|].
    inversion Hl' as [|? ? Ht' Hx']; subst.
    assert (Exx : x = x').
    { assert (Hin' : In x' (x :: t)).
      { eapply Permutation_in; [symmetry; exact Hp | now left]. }
      assert (Hin : In x (x' :: t')).
      { eapply Permutation_in; [exact Hp | now left]. }
      destruct Hin' as [E|Hin']; [exact E|].
      destruct Hin as [E|Hin]; [now symmetry|].
      rewrite Forall_forall in Hx, Hx'.
      apply Hanti; [now left | now right | now apply Hx | now apply Hx']. }
    subst x'. f_equal.
    apply IH; [|exact Ht'|now apply Permutation_cons_inv in Hp].
    intros a b Ha Hb. apply Hanti; now right.
Qed.

End SortFacts.

(** ** Order of a plain listing *)

Section PlainOrder.
Variable localeCompare : string -> string -> Z.

Lemma compareRows_cases (a b : Row) :
  compareRows localeCompare a b
  = match isDir a, isDir b with
    | true, false => (-1)%Z
    | false, true => 1%Z
    | _, _ => localeCompare (name a) (name b)
    end.
Proof. unfold compareRows. now destruct (isDir a), (isDir b). Qed.

Hypothesis collation : Consistent localeCompare.

Lemma compareRows_consistent : Consistent (compareRows localeCompare).
Proof.
  constructor.
  - intros a b. rewrite !compareRows_cases.
    destruct (isDir a), (isDir b); try reflexivity;
      apply (cmp_sgn _ collation).
  - intros a b c. rewrite !compareRows_cases.
    destruct (isDir a), (isDir b), (isDir c); try lia;
      apply (cmp_trans _ collation).
Qed.

(** A list sorted by [compareRows] is its directories, in name order,
    followed by its files, in name order. *)
Lemma sorted_rows_split (l : list Row) :
  StronglySorted (notAfter (compareRows localeCompare)) l ->
  exists dirs files,
    l = (dirs ++ files)%list
    /\ Forall (fun r => isDir r = true) dirs
    /\ Forall (fun r => isDir r = false) files
    /\ StronglySorted (byName localeCompare) dirs
    /\ StronglySorted (byName localeCompare) files.
Proof.
  induction 1 as [|x t Ht IH Hx].
  - exists [], []. repeat split; constructor.
  - destruct IH as [dirs [files [-> [Hd [Hf [Sd Sf]]]]]].
    apply Forall_app in Hx as [Hxd Hxf].
    destruct (isDir x) eqn:Ex.
    + exists (x :: dirs), files.
      refine (conj eq_refl (conj _ (conj Hf (conj _ Sf)))).
      * now constructor.
      * constructor; [exact Sd|].
        rewrite Forall_forall in Hxd, Hd |- *. intros y Hy.
        specialize (Hxd y Hy). specialize (Hd y Hy).
        unfold notAfter in Hxd. rewrite compareRows_cases, Ex, Hd in Hxd.
        exact Hxd.
    + assert (dirs = []) as ->.
      { destruct dirs as [|y dirs']; [reflexivity|].
        inversion Hxd as [|? ? Hy _]; inversion Hd as [|? ? Ey _]; subst.
        unfold notAfter in Hy. rewrite compareRows_cases, Ex, Ey in Hy. lia. }
      exists [], (x :: files).
      refine (conj eq_refl (conj _ (conj _ (conj _ _)))).
      * constructor.
      * now constructor.
      * constructor.
      * constructor; [exact Sf|].
        rewrite Forall_forall in Hxf, Hf |- *. intros y Hy.
        specialize (Hxf y Hy). specialize (Hf y Hy).
        unfold notAfter in Hxf. rewrite compareRows_cases, Ex, Hf in Hxf.
        exact Hxf.
Qed.

Lemma sort_rows_split (l : list Row) :
  Permutation l (JS.sort (compareRows localeCompare) l)
  /\ exists dirs files,
       JS.sort (compareRows localeCompare) l = (dirs ++ files)%list
       /\ Forall (fun r => isDir r = true) dirs
       /\ Forall (fun r => isDir r = false) files
       /\ StronglySorted (byName localeCompare) dirs
       /\ StronglySorted (byName localeCompare) files.
Proof.
  split; [apply sort_perm|].
  apply sorted_rows_split, sort_sorted, compareRows_consistent.
Qed.

(** C9. The rows of a plain listing, in both servers, are a rearrangement
    of the rows built, with every directory before every file and each of
    the two groups in the order of [localeCompare(_, 'fr')] on the names;
    the entries ["b.txt"] (file) and ["a"] (directory) come out as ["a"],
    ["b.txt"] whatever their enumeration order. *)
Theorem plain_listing_directories_first
  (req : Request) (built : list Row) (key rel : string) (s1 s2 : Stats) :
  (Permutation built (rows (plainPage localeCompare req built))
   /\ exists dirs files,
        rows (plainPage localeCompare req built) = (dirs ++ files)%list
        /\ Forall (fun r => isDir r = true) dirs
        /\ Forall (fun r => isDir r = false) files
        /\ StronglySorted (byName localeCompare) dirs
        /\ StronglySorted (byName localeCompare) files)
  /\ (forall page,
        Legacy.indexPage localeCompare req built = inr page ->
        Permutation built (rows page)
        /\ exists dirs files,
             rows page = (dirs ++ files)%list
             /\ Forall (fun r => isDir r = true) dirs
             /\ Forall (fun r => isDir r = false) files
             /\ StronglySorted (byName localeCompare) dirs
             /\ StronglySorted (byName localeCompare) files)
  /\ (let a := plainRow req key rel (mkDirent "a" KDirectory) s1 in
      let b := plainRow req key rel (mkDirent "b.txt" KFile) s2 in
      JS.sort (compareRows localeCompare) [b; a] = [a; b]
      /\ JS.sort (compareRows localeCompare) [a; b] = [a; b]).
Proof.
  split; [apply sort_rows_split|]. split.
  - intros page. unfold Legacy.indexPage.
    destruct (URI.decodeURIComponent _); [|discriminate].
    intros [= <-]. apply sort_rows_split.
  - split; reflexivity.
Qed.

End PlainOrder.

Lemma ordinalCompare_notAfter (a b : string) :
  (ordinalCompare a b <= 0)%Z <-> String_as_OT.lt a b \/ a = b.
Proof.
  unfold ordinalCompare.
  destruct (String.compare a b) eqn:E.
  - apply String_as_OT.cmp_eq in E. split; [now right | lia].
  - apply String_as_OT.cmp_lt in E. split; [now left | lia].
  - split; [lia|]. intros [H| ->].
    + apply String_as_OT.cmp_lt in H. unfold String_as_OT.cmp in H. congruence.
    + assert (String.compare b b = Eq) by now apply String_as_OT.cmp_eq.
      congruence.
Qed.

Lemma ordinalCompare_consistent : Consistent ordinalCompare.
Proof.
  constructor.
  - intros a b. unfold ordinalCompare.
    rewrite (String.compare_antisym a b).
    now destruct (String.compare b a).
  - intros a b c. rewrite !ordinalCompare_notAfter.
    intros [H1| ->] [H2| ->]; auto.
    left. eapply String_as_OT.lt_trans; eassumption.
Qed.

Lemma plain_listing_directories_first_witness :
  let f := mkRow "b.txt" "/docs/b.txt" false (Some 10%N) 0 None in
  let d := mkRow "a/" "/docs/a/" true None 0 None in
  let sorted := rows (plainPage ordinalCompare (mkRequest "GET" "/docs") [f; d]) in
  sorted = [d; f]
  /\ Permutation [f; d] sorted
  /\ exists dirs files,
       sorted = (dirs ++ files)%list
       /\ Forall (fun r => isDir r = true) dirs
       /\ Forall (fun r => isDir r = false) files
       /\ StronglySorted (byName ordinalCompare) dirs
       /\ StronglySorted (byName ordinalCompare) files.
Proof.
  intros f d sorted. split; [reflexivity|].
  exact (proj1 (plain_listing_directories_first ordinalCompare
                  ordinalCompare_consistent (mkRequest "GET" "/docs")
                  [f; d] "/docs" "/" (exampleStats KDirectory)
                  (exampleStats KFile))).
Defined.

(** ** Stability: the result of sorting does not depend on the order of
    elements that the comparator tells apart *)

Section StableSort.
Context {A : Type} (f : A -> A -> Z) (rank : A -> nat).
Hypothesis f_consistent : Consistent f.

Lemma cmp_zero_sym (a b : A) : f a b = 0%Z -> f b a = 0%Z.
Proof.
  intros H. pose proof (cmp_sgn f f_consistent a b) as Hs.
  destruct (Z.sgn_spec (f a b)) as [[? ?]|[[? ?]|[? ?]]];
    destruct (Z.sgn_spec (f b a)) as [[? ?]|[[? ?]|[? ?]]]; lia.
Qed.

Lemma cmp_neg_pos (a b : A) : (f a b < 0)%Z -> (0 < f b a)%Z.
Proof.
  intros H. pose proof (cmp_sgn f f_consistent a b) as Hs.
  destruct (Z.sgn_spec (f a b)) as [[? ?]|[[? ?]|[? ?]]];
    destruct (Z.sgn_spec (f b a)) as [[? ?]|[[? ?]|[? ?]]]; lia.
Qed.

Lemma tieBreak_consistent : Consistent (tieBreak f rank).
Proof.
  constructor.
  - intros a b. unfold tieBreak.
    destruct (Z.eqb_spec (f a b) 0) as [E|E].
    + rewrite (cmp_zero_sym _ _ E). cbn [Z.eqb].
      rewrite <- Z.sgn_opp. f_equal. lia.
    + destruct (Z.eqb_spec (f b a) 0) as [E'|E'];
        [now apply cmp_zero_sym in E'|].
      apply (cmp_sgn f f_consistent).
  - intros a b c. unfold tieBreak.
    intros Hab Hbc.
    assert (Hab' : (f a b <= 0)%Z).
    { destruct (Z.eqb_spec (f a b) 0); lia. }
    assert (Hbc' : (f b c <= 0)%Z).
    { destruct (Z.eqb_spec (f b c) 0); lia. }
    pose proof (cmp_trans f f_consistent _ _ _ Hab' Hbc') as Hac.
    destruct (Z.eqb_spec (f a c) 0) as [E|E]; [|exact Hac].
    pose proof (cmp_zero_sym _ _ E) as Eca.
    assert (Eab : f a b = 0%Z).
    { destruct (Z.eq_dec (f a b) 0) as [|N]; [assumption|].
      assert (Hlt : (f a b < 0)%Z) by lia.
      apply cmp_neg_pos in Hlt.
      assert (Hba : (f b a <= 0)%Z).
      { apply (cmp_trans f f_consistent b c a); lia. }
      lia. }
    assert (Ebc : f b c = 0%Z).
    { destruct (Z.eq_dec (f b c) 0) as [|N]; [assumption|].
      assert (Hlt : (f b c < 0)%Z) by lia.
      apply cmp_neg_pos in Hlt.
      assert (Hcb : (f c b <= 0)%Z).
      { apply (cmp_trans f f_consistent c a b); lia. }
      lia. }
    rewrite Eab in Hab. rewrite Ebc in Hbc. cbn [Z.eqb] in Hab, Hbc. lia.
Qed.

Lemma insert_tieBreak (x : A) (l : list A) :
  Forall (fun y => rank x <= rank y) l ->
  JS.insert f x l = JS.insert (tieBreak f rank) x l.
Proof.
  induction 1 as [|y t Hy _ IH]; [reflexivity|].
  cbn [JS.insert]. rewrite IH.
  assert (E : (f x y <=? 0)%Z = (tieBreak f rank x y <=? 0)%Z).
  { unfold tieBreak. destruct (Z.eqb_spec (f x y) 0) as [E|E]; [|reflexivity].
    rewrite E. cbn. symmetry. apply Z.leb_le. lia. }
  now rewrite E.
Qed.

(** On an array that comes in increasing rank, sorting by [f] is sorting
    by [f] with ties broken by rank. *)
Lemma sort_tieBreak (l : list A) :
  StronglySorted (fun a b => rank a <= rank b) l ->
  JS.sort f l = JS.sort (tieBreak f rank) l.
Proof.
  induction 1 as [|x t Ht IH Hx]; [reflexivity|].
  cbn [JS.sort]. rewrite IH. apply insert_tieBreak.
  eapply Permutation_Forall; [apply sort_perm | exact Hx].
Qed.

Lemma sort_stable_unique (l l' : list A) :
  StronglySorted (fun a b => rank a <= rank b) l ->
  StronglySorted (fun a b => rank a <= rank b) l' ->
  Permutation l l' ->
  (forall a b, In a l -> In b l -> f a b = 0%Z -> rank a = rank b -> a = b) ->
  JS.sort f l = JS.sort f l'.
Proof.
  intros Hl Hl' Hp Huniq.
  rewrite (sort_tieBreak l Hl), (sort_tieBreak l' Hl').
  apply (sorted_perm_unique (tieBreak f rank)).
  - intros a b Ha Hb Hab Hba.
    assert (Ha' : In a l).
    { eapply Permutation_in; [symmetry; apply sort_perm | exact Ha]. }
    assert (Hb' : In b l).
    { eapply Permutation_in; [symmetry; apply sort_perm | exact Hb]. }
    unfold notAfter, tieBreak in Hab, Hba.
    destruct (Z.eqb_spec (f a b) 0) as [E|E].
    + rewrite (cmp_zero_sym _ _ E) in Hba. cbn [Z.eqb] in Hba.
      apply Huniq; [assumption..|lia].
    + destruct (Z.eqb_spec (f b a) 0) as [E'|E'];
        [now apply cmp_zero_sym in E'|].
      assert (Hlt : (f a b < 0)%Z) by lia.
      apply cmp_neg_pos in Hlt. lia.
  - apply sort_sorted, tieBreak_consistent.
  - apply sort_sorted, tieBreak_consistent.
  - rewrite <- !sort_perm. exact Hp.
Qed.

End StableSort.

(** ** The union view of [/games] *)

Lemma statChildren_in (fs : FS) (abs : string) (entries : list Dirent)
  (e : Dirent) (s : Stats) :
  In (e, s) (statChildren fs abs entries)
  <-> In e entries /\ fs_lstat fs (Path.join [abs; d_name e]) = inr s.
Proof.
  unfold statChildren. rewrite in_flat_map. split.
  - intros [e' [Hin H]].
    destruct (fs_lstat fs (Path.join [abs; d_name e'])) as [err|s'] eqn:E;
      [contradiction|].
    destruct H as [[= -> ->]|[]]. auto.
  - intros [Hin H]. exists e. split; [exact Hin|]. rewrite H. now left.
Qed.

Lemma statChildren_perm (fs : FS) (abs : string) (es es' : list Dirent) :
  Permutation es es' ->
  Permutation (statChildren fs abs es) (statChildren fs abs es').
Proof. intros H. unfold statChildren. now apply Permutation_flat_map. Qed.

Lemma statChildren_ext (fs fs' : FS) (abs : string) (es : list Dirent) :
  (forall p, fs_lstat fs' p = fs_lstat fs p) ->
  statChildren fs' abs es = statChildren fs abs es.
Proof.
  intros H. unfold statChildren. apply flat_map_ext. intros e. now rewrite H.
Qed.

Lemma unionRows_run (buckets : list Bucket) (fs : FS) :
  unionRows buckets fs
  = (unionListing fs buckets, flat_map (bucketCalls fs) buckets).
Proof.
  induction buckets as [|b more IH]; [reflexivity|].
  cbn [unionRows unionListing flat_map].
  unfold bind, readdir, ret, bucketListing, bucketCalls.
  fold (unionListing fs more).
  destruct (fs_readdir fs (dir b)) as [err|entries].
  - rewrite IH. reflexivity.
  - rewrite bucketRows_run, IH. cbn. now rewrite app_nil_r.
Qed.

Lemma bucketListing_in (fs : FS) (b : Bucket) (r : Row) :
  In r (bucketListing fs b)
  <-> exists entries e s,
        fs_readdir fs (dir b) = inr entries
        /\ In e entries /\ d_kind e = KFile
        /\ fs_lstat fs (Path.join [dir b; d_name e]) = inr s
        /\ r = bucketRow b e s.
Proof.
  unfold bucketListing.
  destruct (fs_readdir fs (dir b)) as [err|entries].
  - split; [contradiction|]. intros [? [? [? [H _]]]]. discriminate H.
  - rewrite in_map_iff. split.
    + intros [[e s] [<- Hin]]. apply statChildren_in in Hin as [Hin Hs].
      apply filter_In in Hin as [Hin Hk].
      exists entries, e, s. repeat split; try assumption.
      now destruct (d_kind e).
    + intros [entries' [e [s [[= <-] [Hin [Hk [Hs ->]]]]]]].
      exists (e, s). split; [reflexivity|].
      apply statChildren_in. split; [|exact Hs].
      apply filter_In. split; [exact Hin | now rewrite Hk].
Qed.

Lemma StronglySorted_app {A} (R : A -> A -> Prop) (l1 l2 : list A) :
  StronglySorted R l1 -> StronglySorted R l2 ->
  (forall a b, In a l1 -> In b l2 -> R a b) ->
  StronglySorted R (l1 ++ l2).
Proof.
  induction 1 as [|x t Ht IH Hx]; intros H2 Hcross; [exact H2|].
  cbn [List.app]. constructor.
  - apply IH; [exact H2|]. intros a b Ha Hb. apply Hcross; [now right | exact Hb].
  - apply Forall_app. split; [exact Hx|].
    apply Forall_forall. intros b Hb. apply Hcross; [now left | exact Hb].
Qed.

Lemma StronglySorted_const {A} (rank : A -> nat) (n : nat) (l : list A) :
  Forall (fun a => rank a = n) l ->
  StronglySorted (fun a b => rank a <= rank b) l.
Proof.
  induction 1 as [|x t Hx Ht IH]; constructor; [exact IH|].
  eapply Forall_impl; [|exact Ht]. intros a Ha. cbn beta in Ha |- *. lia.
Qed.

Section UnionView.
Variables cwd dirname : string.
Variable localeCompare : string -> string -> Z.
Hypothesis collation : Consistent localeCompare.

Local Abbreviation buckets' := (GAMES_BUCKETS cwd dirname).
Local Abbreviation soloDir' := (Path.join [ROOT cwd dirname; "games"; "solo"]).
Local Abbreviation multiDir' := (Path.join [ROOT cwd dirname; "games"; "multi"]).
Local Abbreviation solo' := (mkBucket "solo" soloDir' "solo").
Local Abbreviation multi' := (mkBucket "multi" multiDir' "coop").
Local Abbreviation gamesRoot' := (Path.join [ROOT cwd dirname; "games"]).

Lemma compareNames_consistent : Consistent (compareNames localeCompare).
Proof.
  constructor; unfold compareNames.
  - intros a b. apply (cmp_sgn _ collation).
  - intros a b c. apply (cmp_trans _ collation).
Qed.

Lemma unionListing_games (fs : FS) :
  unionListing fs buckets'
  = (bucketListing fs solo' ++ bucketListing fs multi')%list.
Proof. cbn [unionListing GAMES_BUCKETS flat_map]. now rewrite app_nil_r. Qed.

Lemma bucketListing_rank (fs : FS) (b : Bucket) :
  Forall (fun r => bucketRank r
                   = if String.eqb (bmode b) "solo" then 0 else 1)
    (bucketListing fs b).
Proof.
  apply Forall_forall. intros r Hr.
  apply bucketListing_in in Hr as [? [e [s [_ [_ [_ [_ ->]]]]]]].
  reflexivity.
Qed.

Lemma unionListing_ranked (fs : FS) :
  StronglySorted (fun a b => bucketRank a <= bucketRank b)
    (unionListing fs buckets').
Proof.
  rewrite unionListing_games.
  pose proof (bucketListing_rank fs solo') as Hs.
  pose proof (bucketListing_rank fs multi') as Hm.
  cbn [bmode String.eqb Ascii.eqb Bool.eqb] in Hs, Hm.
  apply StronglySorted_app.
  - now apply (StronglySorted_const bucketRank 0).
  - now apply (StronglySorted_const bucketRank 1).
  - intros a b Ha Hb. rewrite Forall_forall in Hs, Hm.
    rewrite (Hs a Ha), (Hm b Hb). lia.
Qed.

Lemma bucketListing_perm (fs fs' : FS) (b : Bucket) :
  (forall p, fs_lstat fs' p = fs_lstat fs p) ->
  match fs_readdir fs (dir b), fs_readdir fs' (dir b) with
  | inr es, inr es' => Permutation es es'
  | inl _, inl _ => True
  | _, _ => False
  end ->
  Permutation (bucketListing fs b) (bucketListing fs' b).
Proof.
  intros Hstat Hdir. unfold bucketListing.
  destruct (fs_readdir fs (dir b)) as [?|es],
           (fs_readdir fs' (dir b)) as [?|es']; try contradiction;
    [constructor|].
  rewrite (statChildren_ext fs fs' _ _ Hstat).
  apply Permutation_map, statChildren_perm.
  (* filtering respects rearrangement *)
  clear -Hdir. induction Hdir as [| x l l' _ IH | x y l | l l' l'' _ IH1 _ IH2].
  - constructor.
  - cbn [filter]. destruct (isFile (d_kind x)); [now constructor | exact IH].
  - cbn [filter]. destruct (isFile (d_kind x)), (isFile (d_kind y));
      try reflexivity. apply perm_swap.
  - now transitivity (filter (fun e => isFile (d_kind e)) l').
Qed.

Lemma bucketListing_unique (fs : FS) (b : Bucket) (r1 r2 : Row) :
  (forall es e1 e2,
     fs_readdir fs (dir b) = inr es -> In e1 es -> In e2 es ->
     localeCompare (d_name e1) (d_name e2) = 0%Z -> e1 = e2) ->
  In r1 (bucketListing fs b) -> In r2 (bucketListing fs b) ->
  localeCompare (name r1) (name r2) = 0%Z -> r1 = r2.
Proof.
  intros Hdistinct H1 H2 Hz.
  apply bucketListing_in in H1 as [es [e1 [s1 [Hes [Hin1 [_ [Hs1 ->]]]]]]].
  apply bucketListing_in in H2 as [es' [e2 [s2 [Hes' [Hin2 [_ [Hs2 ->]]]]]]].
  rewrite Hes in Hes'. injection Hes' as <-.
  cbn [name bucketRow] in Hz.
  assert (e1 = e2) as <- by (eapply Hdistinct; eassumption).
  rewrite Hs1 in Hs2. now injection Hs2 as <-.
Qed.

Lemma unionListing_deterministic (fs fs' : FS) :
  (forall p, fs_lstat fs' p = fs_lstat fs p) ->
  (forall b, In b buckets' ->
     match fs_readdir fs (dir b), fs_readdir fs' (dir b) with
     | inr es, inr es' => Permutation es es'
     | inl _, inl _ => True
     | _, _ => False
     end) ->
  (forall b es e1 e2,
     In b buckets' -> fs_readdir fs (dir b) = inr es ->
     In e1 es -> In e2 es ->
     localeCompare (d_name e1) (d_name e2) = 0%Z -> e1 = e2) ->
  JS.sort (compareNames localeCompare) (unionListing fs' buckets')
  = JS.sort (compareNames localeCompare) (unionListing fs buckets').
Proof.
  intros Hstat Hdir Hdistinct. symmetry.
  assert (Hsolo : In solo' buckets') by now left.
  assert (Hmulti : In multi' buckets') by now right; left.
  apply (sort_stable_unique _ bucketRank compareNames_consistent).
  - apply unionListing_ranked.
  - apply unionListing_ranked.
  - rewrite !unionListing_games.
    apply Permutation_app; apply bucketListing_perm;
      solve [exact Hstat | now apply Hdir].
  - intros a b Ha Hb Hz Hrank. unfold compareNames in Hz.
    rewrite unionListing_games in Ha, Hb.
    pose proof (bucketListing_rank fs solo') as Rs.
    pose proof (bucketListing_rank fs multi') as Rm.
    cbn [bmode String.eqb Ascii.eqb Bool.eqb] in Rs, Rm.
    rewrite Forall_forall in Rs, Rm.
    apply in_app_or in Ha, Hb.
    destruct Ha as [Ha|Ha], Hb as [Hb|Hb].
    + eapply (bucketListing_unique fs solo'); eauto.
    + rewrite (Rs a Ha), (Rm b Hb) in Hrank. discriminate Hrank.
    + rewrite (Rm a Ha), (Rs b Hb) in Hrank. discriminate Hrank.
    + eapply (bucketListing_unique fs multi'); eauto.
Qed.

(** C5 (as amended). The union view at the [/games] root always answers
    200, and the whole middleware chain answers with it unless
    [files/games] exists and is not a directory (the download handler then
    takes the request).  Its rows
    are exactly the entries of the bucket directories that could be read,
    that are regular files and that could be [lstat]ed, each tagged with
    its bucket's tag and never a directory; a bucket whose directory cannot
    be read contributes nothing.  The rows are in the order of
    [localeCompare] on names, and that order does not depend on the order
    in which the directories enumerate their entries, as long as no two
    entries of one bucket collate equal.  With [solo = {b.zip, a.zip}] and
    [multi = {c.zip}] the rows are [a.zip] (solo), [b.zip] (solo), [c.zip]
    (multi). *)
Theorem union_listing_sorted_and_tagged (req : Request) (fs : FS) :
  matchSection cwd dirname (req_path req) = Some "/games" ->
  relOf "/games" req = "/" ->
  let listing := rows (unionPage localeCompare (unionListing fs buckets')) in
  indexHandler cwd dirname localeCompare req fs
  = (Respond 200 (Html (unionPage localeCompare (unionListing fs buckets'))),
     flat_map (bucketCalls fs) buckets')
  /\ (Path.isAbsolute dirname = true ->
      (forall s, fs_lstat fs gamesRoot' = inr s ->
                 isDirectory (st_kind s) = true) ->
      app cwd dirname localeCompare req fs
      = (Respond 200 (Html (unionPage localeCompare (unionListing fs buckets'))),
         OpLstat gamesRoot' :: flat_map (bucketCalls fs) buckets'))
  /\ (forall r,
        In r listing
        <-> exists b entries e s,
              In b buckets'
              /\ fs_readdir fs (dir b) = inr entries
              /\ In e entries /\ d_kind e = KFile
              /\ fs_lstat fs (Path.join [dir b; d_name e]) = inr s
              /\ r = bucketRow b e s)
  /\ (forall r, In r listing ->
        isDir r = false
        /\ exists b, In b buckets' /\ mode r = Some (bmode b))
  /\ (forall b err, fs_readdir fs (dir b) = inl err -> bucketListing fs b = [])
  /\ StronglySorted (byName localeCompare) listing
  /\ (forall fs',
        (forall p, fs_lstat fs' p = fs_lstat fs p) ->
        (forall b, In b buckets' ->
           match fs_readdir fs (dir b), fs_readdir fs' (dir b) with
           | inr es, inr es' => Permutation es es'
           | inl _, inl _ => True
           | _, _ => False
           end) ->
        (forall b es e1 e2,
           In b buckets' -> fs_readdir fs (dir b) = inr es ->
           In e1 es -> In e2 es ->
           localeCompare (d_name e1) (d_name e2) = 0%Z -> e1 = e2) ->
        rows (unionPage localeCompare (unionListing fs' buckets')) = listing)
  /\ (forall es sa sb sc,
        let a := mkDirent "a.zip" KFile in
        let b := mkDirent "b.zip" KFile in
        let c := mkDirent "c.zip" KFile in
        Permutation es [b; a] ->
        fs_readdir fs soloDir' = inr es ->
        fs_readdir fs multiDir' = inr [c] ->
        fs_lstat fs (Path.join [soloDir'; "a.zip"]) = inr sa ->
        fs_lstat fs (Path.join [soloDir'; "b.zip"]) = inr sb ->
        fs_lstat fs (Path.join [multiDir'; "c.zip"]) = inr sc ->
        (localeCompare "a.zip" "b.zip" < 0)%Z ->
        (localeCompare "b.zip" "c.zip" < 0)%Z ->
        listing = [bucketRow solo' a sa; bucketRow solo' b sb;
                   bucketRow multi' c sc]).
Proof.
  intros Hm Hrel listing.
  assert (Hin : forall r,
             In r listing
             <-> exists b entries e s,
                   In b buckets'
                   /\ fs_readdir fs (dir b) = inr entries
                   /\ In e entries /\ d_kind e = KFile
                   /\ fs_lstat fs (Path.join [dir b; d_name e]) = inr s
                   /\ r = bucketRow b e s).
  { intros r. unfold listing, unionPage. cbn [rows]. split.
    - intros H.
      apply (Permutation_in _ (Permutation_sym (sort_perm _ _))) in H.
      unfold unionListing in H. apply in_flat_map in H as [b [Hb H]].
      apply bucketListing_in in H as [es [e [s H]]].
      exists b, es, e, s. tauto.
    - intros [b [es [e [s [Hb H]]]]].
      apply (Permutation_in _ (sort_perm _ _)).
      unfold unionListing. apply in_flat_map. exists b. split; [exact Hb|].
      apply bucketListing_in. exists es, e, s. exact H. }
  assert (Hidx : indexHandler cwd dirname localeCompare req fs
                 = (Respond 200
                      (Html (unionPage localeCompare (unionListing fs buckets'))),
                    flat_map (bucketCalls fs) buckets')).
  { rewrite (indexHandler_eq _ _ _ req fs _ _ Hm (lookupSection_games _ _)).
    cbv zeta. rewrite Hrel, unionRows_run. reflexivity. }
  split; [exact Hidx|].
  split; [|split; [exact Hin|split; [|split; [|split; [|split]]]]].
  - intros Habs Hdir.
    rewrite (app_eq _ _ _ req fs (matched_not_home _ _ _ _ Hm)).
    rewrite (downloadHandler_eq _ _ req fs _ _ Hm (lookupSection_games _ _)).
    rewrite Hrel, Hidx.
    rewrite (resolve_section_root cwd dirname Habs "/games" _
               (lookupSection_games _ _)).
    change (String.eqb "/games" "/games" && negb (isAllowedGamesRel "/"))
      with false. cbv iota.
    destruct (fs_lstat fs gamesRoot') as [err|s] eqn:E; [reflexivity|].
    now rewrite (Hdir s eq_refl).
  - intros r Hr. apply Hin in Hr as [b [es [e [s [Hb [_ [_ [_ [_ ->]]]]]]]]].
    split; [reflexivity|]. exists b. now split.
  - intros b err H. unfold bucketListing. now rewrite H.
  - apply (sort_sorted (compareNames localeCompare) compareNames_consistent).
  - intros fs' Hstat Hdir Hdistinct. unfold listing, unionPage. cbn [rows].
    now apply unionListing_deterministic.
  - intros es sa sb sc a b c Hp Hsolo Hmulti Ha Hb Hc Hab Hbc.
    subst a b c.
    assert (Hac : (localeCompare "a.zip" "c.zip" <= 0)%Z).
    { apply (cmp_trans _ collation _ "b.zip"); lia. }
    assert (Hba : (localeCompare "b.zip" "a.zip" <=? 0)%Z = false).
    { apply Z.leb_gt. now apply (cmp_neg_pos _ collation). }
    apply Z.leb_le in Hac.
    assert (Hab' : (localeCompare "a.zip" "b.zip" <=? 0)%Z = true)
      by (apply Z.leb_le; lia).
    assert (Hbc' : (localeCompare "b.zip" "c.zip" <=? 0)%Z = true)
      by (apply Z.leb_le; lia).
    unfold listing, unionPage. cbn [rows].
    rewrite unionListing_games. unfold bucketListing.
    cbn [dir]. rewrite Hsolo, Hmulti.
    apply Permutation_sym, Permutation_length_2_inv in Hp.
    destruct Hp as [-> | ->];
      cbn [filter d_kind isFile statChildren flat_map d_name];
      rewrite Ha, Hb, Hc;
      unfold compareNames, bucketRow;
      cbn [map List.app fst snd JS.sort JS.insert name d_name];
      rewrite ?Hbc', ?Hac;
      cbn [JS.insert name d_name];
      rewrite ?Hab', ?Hba;
      cbn [JS.insert name d_name];
      now rewrite ?Hbc'.
Qed.

End UnionView.

Lemma canonicalCompare_consistent : Consistent canonicalCompare.
Proof.
  split; unfold canonicalCompare.
  - intros a b. apply (cmp_sgn _ ordinalCompare_consistent).
  - intros a b c. apply (cmp_trans _ ordinalCompare_consistent).
Qed.

(** C5, counterexample.  The [solo] directory holds one name in its two
    spellings, which [localeCompare] does not tell apart.  The sort is
    stable, so the two rows stay in the order in which [readdir] gave
    them: the same directory enumerated in the other order gives the
    listing in the other order. *)
Lemma union_listing_order_follows_enumeration :
  let buckets := GAMES_BUCKETS "/" "/app" in
  let one := mkDirent composedName KFile in
  let two := mkDirent decomposedName KFile in
  let fs := soloFS [one; two] in
  let fs' := soloFS [two; one] in
  let req := mkRequest "GET" "/games/" in
  composedName <> decomposedName
  /\ canonicalCompare composedName decomposedName = 0%Z
  /\ Consistent canonicalCompare
  /\ (forall p, fs_lstat fs' p = fs_lstat fs p)
  /\ Permutation [one; two] [two; one]
  /\ (exists log,
        app "/" "/app" canonicalCompare req fs
        = (Respond 200 (Html (unionPage canonicalCompare (unionListing fs buckets))),
           log))
  /\ (exists log,
        app "/" "/app" canonicalCompare req fs'
        = (Respond 200 (Html (unionPage canonicalCompare (unionListing fs' buckets))),
           log))
  /\ map name (rows (unionPage canonicalCompare (unionListing fs buckets)))
     = [composedName; decomposedName]
  /\ map name (rows (unionPage canonicalCompare (unionListing fs' buckets)))
     = [decomposedName; composedName]
  /\ ~ (forall localeCompare fs1 fs2,
          Consistent localeCompare ->
          (forall p, fs_lstat fs2 p = fs_lstat fs1 p) ->
          (forall b, In b buckets ->
             match fs_readdir fs1 (dir b), fs_readdir fs2 (dir b) with
             | inr es, inr es' => Permutation es es'
             | inl _, inl _ => True
             | _, _ => False
             end) ->
          rows (unionPage localeCompare (unionListing fs1 buckets))
          = rows (unionPage localeCompare (unionListing fs2 buckets))).
Proof.
  intros buckets one two fs fs' req.
  split; [discriminate|]. split; [reflexivity|].
  split; [exact canonicalCompare_consistent|].
  split; [reflexivity|]. split; [apply perm_swap|].
  split; [eexists; reflexivity|]. split; [eexists; reflexivity|].
  split; [reflexivity|]. split; [reflexivity|].
  intros H.
  specialize (H canonicalCompare fs fs' canonicalCompare_consistent
                (fun _ => eq_refl)).
  assert (Hp : forall b, In b buckets ->
             match fs_readdir fs (dir b), fs_readdir fs' (dir b) with
             | inr es, inr es' => Permutation es es'
             | inl _, inl _ => True
             | _, _ => False
             end).
  { intros b [<-|[<-|[]]]; [apply perm_swap|exact I]. }
  specialize (H Hp). discriminate H.
Qed.

Lemma union_listing_sorted_and_tagged_witness :
  let fs := exampleFS in
  let buckets := GAMES_BUCKETS "/" "/app" in
  app "/" "/app" ordinalCompare (mkRequest "GET" "/games/") fs
  = (Respond 200 (Html (unionPage ordinalCompare (unionListing fs buckets))),
     OpLstat "/app/files/games" :: flat_map (bucketCalls fs) buckets)
  /\ rows (unionPage ordinalCompare (unionListing fs buckets))
     = [ mkRow "a.zip" "/games/solo/a.zip" false (Some 10%N) 0 (Some "solo");
         mkRow "b.zip" "/games/solo/b.zip" false (Some 10%N) 0 (Some "solo");
         mkRow "c.zip" "/games/multi/c.zip" false (Some 10%N) 0 (Some "coop") ].
Proof.
  intros fs buckets. split; [|reflexivity].
  refine (proj1 (proj2
    (union_listing_sorted_and_tagged "/" "/app" ordinalCompare
       ordinalCompare_consistent (mkRequest "GET" "/games/")
       exampleFS eq_refl eq_refl)) eq_refl _).
  intros s [= <-]. reflexivity.
Defined.

(** ** A child that cannot be [lstat]ed *)

Lemma bind_lstat {B} (p : string) (k : Errno + Stats -> IO B) (fs : FS) :
  (st <- lstat p ;; k st) fs
  = let '(b, t) := k (fs_lstat fs p) fs in (b, OpLstat p :: t).
Proof. unfold bind, lstat. now destruct (k (fs_lstat fs p) fs). Qed.

Lemma bind_readdir {B} (p : string) (k : Errno + list Dirent -> IO B) (fs : FS) :
  (l <- readdir p ;; k l) fs
  = let '(b, t) := k (fs_readdir fs p) fs in (b, OpReaddir p :: t).
Proof. unfold bind, readdir. now destruct (k (fs_readdir fs p) fs). Qed.

Lemma relOf_nonempty (key : string) (req : Request) : relOf key req <> "".
Proof.
  unfold relOf, JS.or_else.
  destruct (String.eqb_spec (JS.slice (String.length key) (req_path req)) "");
    [discriminate | assumption].
Qed.

Section ChildFailure.
Variables cwd dirname : string.
Variable localeCompare : string -> string -> Z.

(** C6. In the section index a child whose [lstat] fails is left out and
    the listing of the others is answered with 200: of three children with
    the second one failing, exactly the first and the third are listed.  In
    the single-root server of [src/server.js] the same failure leaves the
    child loop by exception and the request is answered 500. *)
Theorem child_stat_failure
  (req : Request) (fs : FS) (abs : string) (s : Stats) (entries : list Dirent) :
  fs_lstat fs abs = inr s ->
  isDirectory (st_kind s) = true ->
  fs_readdir fs abs = inr entries ->
  (forall key root,
     matchSection cwd dirname (req_path req) = Some key ->
     lookupSection (SECTIONS cwd dirname) key = Some root ->
     (key = "/games" ->
      isAllowedGamesRel (relOf key req) = true /\ relOf key req <> "/") ->
     resolvePathSafe cwd root (relOf key req) = Some abs ->
     let listed :=
       map (fun es => plainRow req key (relOf key req) (fst es) (snd es))
         (statChildren fs abs entries) in
     indexHandler cwd dirname localeCompare req fs
     = (Respond 200 (Html (plainPage localeCompare req listed)),
        OpLstat abs :: OpReaddir abs :: statCalls abs entries)
     /\ app cwd dirname localeCompare req fs
        = (Respond 200 (Html (plainPage localeCompare req listed)),
           OpLstat abs :: OpLstat abs :: OpReaddir abs :: statCalls abs entries)
     /\ (forall e1 e2 e3 s1 s3 err,
           entries = [e1; e2; e3] ->
           fs_lstat fs (Path.join [abs; d_name e1]) = inr s1 ->
           fs_lstat fs (Path.join [abs; d_name e2]) = inl err ->
           fs_lstat fs (Path.join [abs; d_name e3]) = inr s3 ->
           listed = [plainRow req key (relOf key req) e1 s1;
                     plainRow req key (relOf key req) e3 s3]))
  /\ (isGetOrHead (req_method req) = true ->
      Legacy.resolvePathSafe cwd (Legacy.ROOT cwd dirname) (req_path req)
      = inr (Some abs) ->
      (exists e err, In e entries
                     /\ fs_lstat fs (Path.join [abs; d_name e]) = inl err) ->
      (exists err, fst (Legacy.indexHandler cwd dirname localeCompare req fs)
                   = NextErr (FsError err))
      /\ fst (Legacy.app cwd dirname localeCompare req fs)
         = Respond 500 (Text "Erreur interne. Consulte la console du serveur.")).
Proof.
  intros Hstat Hdir Hread. split.
  - intros key root Hm Hl Hgames Hres listed.
    assert (Hgate : String.eqb key "/games"
                    && negb (isAllowedGamesRel (relOf key req)) = false).
    { destruct (String.eqb_spec key "/games") as [E|_]; [|reflexivity].
      destruct (Hgames E) as [-> _]. reflexivity. }
    assert (Hunion : String.eqb key "/games"
                     && (String.eqb (relOf key req) "/"
                         || String.eqb (relOf key req) "") = false).
    { destruct (String.eqb_spec key "/games") as [E|_]; [|reflexivity].
      destruct (Hgames E) as [_ H1].
      pose proof (relOf_nonempty key req) as H2.
      apply String.eqb_neq in H1, H2. now rewrite H1, H2. }
    assert (Hi : indexHandler cwd dirname localeCompare req fs
                 = (Respond 200 (Html (plainPage localeCompare req listed)),
                    OpLstat abs :: OpReaddir abs :: statCalls abs entries)).
    { rewrite (indexHandler_eq _ _ _ req fs _ _ Hm Hl). cbv zeta.
      rewrite Hunion, Hgate, Hres, Hstat, Hdir, Hread, listRows_run.
      reflexivity. }
    split; [exact Hi|]. split.
    + rewrite (app_eq _ _ _ req fs (matched_not_home _ _ _ _ Hm)).
      rewrite (downloadHandler_eq _ _ req fs _ _ Hm Hl).
      rewrite Hgate, Hres, Hstat, Hdir, Hi. reflexivity.
    + intros e1 e2 e3 s1 s3 err -> H1 H2 H3. unfold listed.
      cbn [statChildren flat_map]. now rewrite H1, H2, H3.
  - intros Hmeth Hres Hfail.
    assert (Hi : exists err t,
               Legacy.indexHandler cwd dirname localeCompare req fs
               = (NextErr (FsError err), t)).
    { unfold Legacy.indexHandler. rewrite Hmeth, Hres. cbn [negb].
      rewrite bind_lstat, Hstat, Hdir. cbn [negb].
      rewrite bind_readdir, Hread.
      destruct (legacy_listRows_fails req abs entries fs Hfail) as [err [t Hrun]].
      unfold bind. rewrite Hrun. cbn. eauto. }
    destruct Hi as [err [t Hi]]. split.
    + exists err. now rewrite Hi.
    + unfold Legacy.app, Legacy.downloadHandler. rewrite Hres.
      unfold bind at 1. rewrite bind_lstat, Hstat, Hdir.
      unfold ret at 1. cbv beta iota zeta.
      unfold bind. rewrite Hi. reflexivity.
Qed.

End ChildFailure.

Lemma child_stat_failure_witness :
  let req := mkRequest "GET" "/docs/broken" in
  fs_lstat exampleFS "/app/files/docs/broken/y" = inl EACCES
  /\ fst (Legacy.app "/" "/app" ordinalCompare req exampleFS)
     = Respond 500 (Text "Erreur interne. Consulte la console du serveur.")
  /\ fst (app "/" "/app" ordinalCompare req exampleFS)
     = Respond 200
         (Html
            {| title := "/docs/broken";
               heading := "docs";
               breadcrumbs :=
                 [("/", "Accueil"); ("/docs/", "docs");
                  ("/docs/broken/", "broken")];
               rows :=
                 [ mkRow "x" "/docs/broken/x" false (Some 10%N) 0 None;
                   mkRow "z" "/docs/broken/z" false (Some 10%N) 0 None ];
               showMode := true;
               parentLink := true |}).
Proof.
  intros req. split; [reflexivity|]. split; [|reflexivity].
  refine (proj2 (proj2
    (child_stat_failure "/" "/app" ordinalCompare req exampleFS
       "/app/files/docs/broken" (exampleStats KDirectory)
       [mkDirent "x" KFile; mkDirent "y" KFile; mkDirent "z" KFile]
       eq_refl eq_refl eq_refl) eq_refl eq_refl _)).
  exists (mkDirent "y" KFile), EACCES. split; [now right; left | reflexivity].
Defined.

(** ** Percent-encoding round trip *)

Lemma hexval_hexdigit (d : N) :
  (d < 16)%N -> URI.hexval (URI.hexdigit d) = Some d.
Proof.
  intros H.
  assert (E : (d = 0 \/ d = 1 \/ d = 2 \/ d = 3 \/ d = 4 \/ d = 5 \/ d = 6
               \/ d = 7 \/ d = 8 \/ d = 9 \/ d = 10 \/ d = 11 \/ d = 12
               \/ d = 13 \/ d = 14 \/ d = 15)%N) by lia.
  repeat (destruct E as [->|E]; [reflexivity|]). now subst d.
Qed.

Lemma unreserved_ascii (c : ascii) :
  URI.isUnreserved c = true ->
  Ascii.eqb c "%" = false /\ (URI.code c < 128)%N.
Proof.
  destruct c as [[] [] [] [] [] [] [] []]; intros H;
    try discriminate H; split; reflexivity.
Qed.

Lemma option_map_append_nil (x : option string) :
  option_map (append "") x = x.
Proof. now destruct x. Qed.

Lemma option_map_cons_append (c : ascii) (s : string) (x : option string) :
  option_map (String c) (option_map (append s) x)
  = option_map (append (String c s)) x.
Proof. now destruct x. Qed.

Lemma decode_from_literal (c : ascii) (s : string) :
  Ascii.eqb c "%" = false ->
  URI.decode_from URI.U_start (String c s)
  = option_map (String c) (URI.decode_from URI.U_start s).
Proof. intros H. cbn [URI.decode_from]. now rewrite H. Qed.

Lemma decode_from_escape (st : URI.utf8_state) (c : ascii) (t : string) :
  URI.decode_from st (URI.escape c ++ t)
  = match URI.utf8_step st (URI.code c) with
    | Some st' => option_map (String c) (URI.decode_from st' t)
    | None => None
    end.
Proof.
  unfold URI.escape.
  change ((String "%" (String (URI.hexdigit (URI.code c / 16))
             (String (URI.hexdigit (URI.code c mod 16)) ""))) ++ t)
    with (String "%" (String (URI.hexdigit (URI.code c / 16))
             (String (URI.hexdigit (URI.code c mod 16)) t))).
  cbn [URI.decode_from]. rewrite ascii_eqb_refl.
  pose proof (N_ascii_bounded c) as Hb. fold (URI.code c) in Hb.
  rewrite !hexval_hexdigit.
  - rewrite <- N.div_mod by discriminate.
    unfold URI.code at 2. now rewrite ascii_N_embedding.
  - apply N.mod_lt. discriminate.
  - apply N.Div0.div_lt_upper_bound. exact Hb.
Qed.

Lemma utf8_step_wf (st st' : URI.utf8_state) (b : N) :
  wfState st -> URI.utf8_step st b = Some st' -> wfState st'.
Proof.
  intros Hwf. destruct st as [|k lo hi]; cbn [URI.utf8_step].
  - repeat match goal with
           | |- context [if ?x then _ else _] => destruct x
           end; intros [= <-]; cbn; lia.
  - destruct (URI.between lo hi b); [|discriminate].
    destruct k as [|[|k]]; intros [= <-]; cbn; lia.
Qed.

Lemma utf8_step_ascii (st st' : URI.utf8_state) (b : N) :
  wfState st -> (b < 128)%N -> URI.utf8_step st b = Some st' ->
  st = URI.U_start /\ st' = URI.U_start.
Proof.
  intros Hwf Hb. destruct st as [|k lo hi]; cbn [URI.utf8_step].
  - apply N.ltb_lt in Hb. rewrite Hb. now intros [= <-].
  - unfold URI.between. cbn in Hwf.
    assert (E : (lo <=? b)%N = false) by (apply N.leb_gt; lia).
    rewrite E. discriminate.
Qed.

(** Decoding undoes encoding, whatever follows. *)
Lemma decode_encode_app (s t : string) (st st' : URI.utf8_state) :
  wfState st -> URI.utf8_run st s = Some st' ->
  URI.decode_from st (URI.encodeURIComponent s ++ t)
  = option_map (append s) (URI.decode_from st' t).
Proof.
  revert st. induction s as [|c s IH]; intros st Hwf Hrun.
  - cbn in Hrun. injection Hrun as <-. cbn [URI.encodeURIComponent append].
    now rewrite option_map_append_nil.
  - cbn [URI.utf8_run] in Hrun.
    destruct (URI.utf8_step st (URI.code c)) as [st1|] eqn:Hstep; [|discriminate].
    cbn [URI.encodeURIComponent]. rewrite append_assoc.
    destruct (URI.isUnreserved c) eqn:Hu.
    + apply unreserved_ascii in Hu as [Hpct Hlt].
      destruct (utf8_step_ascii _ _ _ Hwf Hlt Hstep) as [-> ->].
      change (String c "" ++ (URI.encodeURIComponent s ++ t))
        with (String c (URI.encodeURIComponent s ++ t)).
      rewrite (decode_from_literal _ _ Hpct), (IH _ Hwf Hrun).
      apply option_map_cons_append.
    + rewrite decode_from_escape, Hstep.
      rewrite (IH _ (utf8_step_wf _ _ _ Hwf Hstep) Hrun).
      apply option_map_cons_append.
Qed.

Lemma utf8_valid_run (s : string) :
  URI.utf8_valid s = true -> URI.utf8_run URI.U_start s = Some URI.U_start.
Proof.
  unfold URI.utf8_valid.
  destruct (URI.utf8_run URI.U_start s) as [[|]|]; [reflexivity|discriminate..].
Qed.


Lemma decode_from_pct (st : URI.utf8_state) (h1 h2 : ascii) (r : string) :
  URI.decode_from st (String "%" (String h1 (String h2 r)))
  = match URI.hexval h1, URI.hexval h2 with
    | Some x, Some y =>
        match URI.utf8_step st (16 * x + y) with
        | Some st' =>
            option_map (String (ascii_of_N (16 * x + y))) (URI.decode_from st' r)
        | None => None
        end
    | _, _ => None
    end.
Proof. reflexivity. Qed.

Lemma decode_from_pct_short (st : URI.utf8_state) (r : string) :
  (String.length r < 2)%nat -> URI.decode_from st (String "%" r) = None.
Proof.
  destruct r as [|h1 [|h2 r]]; cbn [String.length]; intros H;
    [reflexivity | reflexivity | lia].
Qed.

Lemma decode_from_other (st : URI.utf8_state) (c : ascii) (r : string) :
  Ascii.eqb c "%" = false ->
  URI.decode_from st (String c r)
  = match st with
    | URI.U_start => option_map (String c) (URI.decode_from URI.U_start r)
    | URI.U_cont _ _ _ => None
    end.
Proof. intros H. cbn [URI.decode_from]. now rewrite H. Qed.

(** Decoding is compositional after a part that decodes on its own. *)
Lemma decode_from_app (a b da : string) (st : URI.utf8_state) :
  URI.decode_from st a = Some da ->
  URI.decode_from st (a ++ b)
  = option_map (append da) (URI.decode_from URI.U_start b).
Proof.
  remember (String.length a) as n eqn:Hn.
  revert a st da Hn. induction n as [n IH] using lt_wf_ind.
  intros a st da Hn Hdec.
  destruct a as [|c a].
  - cbn in Hdec. destruct st; [|discriminate]. injection Hdec as <-.
    cbn [append]. now rewrite option_map_append_nil.
  - change (String c a ++ b) with (String c (a ++ b)).
    destruct (Ascii.eqb_spec c "%") as [->|Hc].
    + destruct a as [|h1 [|h2 a']];
        [rewrite decode_from_pct_short in Hdec by (cbn; lia); discriminate..|].
      change (String h1 (String h2 a') ++ b) with (String h1 (String h2 (a' ++ b))).
      rewrite decode_from_pct in Hdec |- *.
      destruct (URI.hexval h1) as [x|]; [|discriminate].
      destruct (URI.hexval h2) as [y|]; [|discriminate].
      destruct (URI.utf8_step st (16 * x + y)) as [st'|]; [|discriminate].
      destruct (URI.decode_from st' a') as [da'|] eqn:Hda'; [|discriminate].
      injection Hdec as <-.
      rewrite (IH (String.length a') ltac:(subst n; cbn; lia) a' st' da' eq_refl Hda').
      apply option_map_cons_append.
    + apply Ascii.eqb_neq in Hc.
      rewrite (decode_from_other _ _ _ Hc) in Hdec.
      rewrite (decode_from_other _ _ _ Hc).
      destruct st; [|discriminate].
      destruct (URI.decode_from URI.U_start a) as [da'|] eqn:Hda'; [|discriminate].
      injection Hdec as <-.
      rewrite (IH (String.length a) ltac:(subst n; cbn; lia) a _ da' eq_refl Hda').
      apply option_map_cons_append.
Qed.

(** A path that decodes and ends with a slash decodes to a string that
    ends with a slash. *)
Lemma decode_from_app_slash (a d : string) (st : URI.utf8_state) :
  URI.decode_from st (a ++ "/") = Some d ->
  exists d', URI.decode_from st a = Some d' /\ d = d' ++ "/".
Proof.
  remember (String.length a) as n eqn:Hn.
  revert a st d Hn. induction n as [n IH] using lt_wf_ind.
  intros a st d Hn Hdec.
  destruct a as [|c a].
  - cbn in Hdec. destruct st; [|discriminate]. injection Hdec as <-.
    now exists "".
  - change (String c a ++ "/") with (String c (a ++ "/")) in Hdec.
    destruct (Ascii.eqb_spec c "%") as [->|Hc].
    + destruct a as [|h1 [|h2 a']].
      * discriminate Hdec.
      * change (String h1 "" ++ "/") with (String h1 (String "/" "")) in Hdec.
        rewrite decode_from_pct in Hdec.
        destruct (URI.hexval h1); discriminate.
      * change (String h1 (String h2 a') ++ "/")
          with (String h1 (String h2 (a' ++ "/"))) in Hdec.
        rewrite decode_from_pct in Hdec |- *.
        destruct (URI.hexval h1) as [x|]; [|discriminate].
        destruct (URI.hexval h2) as [y|]; [|discriminate].
        destruct (URI.utf8_step st (16 * x + y)) as [st'|]; [|discriminate].
        destruct (URI.decode_from st' (a' ++ "/")) as [da|] eqn:Hda;
          [|discriminate].
        injection Hdec as <-.
        destruct (IH (String.length a') ltac:(subst n; cbn; lia) a' st' da
                    eq_refl Hda) as [d' [Hd' ->]].
        rewrite Hd'. eexists. split; reflexivity.
    + apply Ascii.eqb_neq in Hc.
      rewrite (decode_from_other _ _ _ Hc) in Hdec.
      rewrite (decode_from_other _ _ _ Hc).
      destruct st; [|discriminate].
      destruct (URI.decode_from URI.U_start (a ++ "/")) as [da|] eqn:Hda;
        [|discriminate].
      injection Hdec as <-.
      destruct (IH (String.length a) ltac:(subst n; cbn; lia) a _ da
                  eq_refl Hda) as [d' [Hd' ->]].
      rewrite Hd'. eexists. split; reflexivity.
Qed.

Lemma decode_noPercent (s : string) :
  noPercent s = true -> URI.decodeURIComponent s = Some s.
Proof.
  unfold URI.decodeURIComponent.
  induction s as [|c s IH]; [reflexivity|].
  cbn [noPercent]. intros H. apply andb_true_iff in H as [Hc Hs].
  apply negb_true_iff in Hc.
  now rewrite (decode_from_literal _ _ Hc), (IH Hs).
Qed.

(** ** From a row back to the child it was built from *)

Lemma join_app_nonempty (l1 l2 : list string) :
  l1 <> [] -> l2 <> [] ->
  JS.join "/" (l1 ++ l2) = JS.join "/" l1 ++ "/" ++ JS.join "/" l2.
Proof.
  intros H1 H2. induction l1 as [|x t IH]; [contradiction|].
  destruct t as [|y t].
  - destruct l2 as [|z l2]; [contradiction|]. reflexivity.
  - specialize (IH ltac:(discriminate)). cbn [List.app] in IH |- *.
    rewrite (join_cons2 "/" x y (t ++ l2)), IH, (join_cons2 "/" x y t).
    now rewrite !append_assoc.
Qed.

Lemma endsWith_cons_nonempty (c : ascii) (s p : string) :
  s <> "" -> JS.endsWith (String c s) (String "/" "") = JS.endsWith s (String "/" "").
Proof.
  intros Hs. rewrite endsWith_unfold.
  destruct s as [|d s]; [contradiction|].
  change (String.eqb (String c (String d s)) "/") with (Ascii.eqb c "/" && false).
  now rewrite andb_false_r.
Qed.

Lemma endsWith_app_nonempty (k y : string) :
  y <> "" -> JS.endsWith (k ++ y) "/" = JS.endsWith y "/".
Proof.
  intros Hy. induction k as [|c k IH]; [reflexivity|].
  change (String c k ++ y) with (String c (k ++ y)).
  rewrite endsWith_cons_nonempty; [exact IH | exact "" |].
  intros E. apply append_eq_nil in E as [_ E]. contradiction.
Qed.

Section Child.
Variable cwd : string.

Lemma resolve_trailing_slash (root d : string) :
  Path.isAbsolute root = true ->
  Path.resolve cwd [root; "." ++ (d ++ "/")] = Path.resolve cwd [root; "." ++ d].
Proof.
  intros Hroot.
  destruct (dot_prefixed d) as [H1 H2]. destruct (dot_prefixed (d ++ "/")) as [H3 H4].
  rewrite !resolve_from_absolute by assumption.
  rewrite <- append_assoc. change "/" with (String "/" "") at 2.
  now rewrite split_app_sep, normalizeSegs_trailing_empty.
Qed.

(** Appending one ordinary segment to the relative path appends it to the
    resolved path, and the result stays below the root. *)
Lemma resolve_child (root d0 child : string) (trailing : bool) :
  Path.isAbsolute root = true ->
  JS.endsWith root Path.sep = false ->
  okSegment child = true ->
  let abs := Path.resolve cwd [root; "." ++ d0] in
  JS.startsWith abs (root ++ Path.sep) = true \/ abs = root ->
  let abs' :=
    Path.resolve cwd
      [root; "." ++ (d0 ++ "/" ++ child ++ (if trailing then "/" else ""))] in
  abs' = Path.join [abs; child]
  /\ JS.startsWith abs' (root ++ Path.sep) = true.
Proof.
  intros Hroot Hsep Hchild abs Hchk abs'.
  destruct (dot_prefixed d0) as [H1 H2].
  set (R0 := rev (Path.normalizeSegs false [] (JS.split "/" root))).
  set (S0 := Path.normalizeSegs false R0 (JS.split "/" ("." ++ d0))).
  assert (HokR : okSegments R0).
  { apply Forall_rev, normalizeSegs_false_ok; [constructor|].
    apply split_all_slashFree. }
  assert (HokS : okSegments S0).
  { apply normalizeSegs_false_ok; [exact HokR | apply split_all_slashFree]. }
  assert (Eabs : abs = "/" ++ JS.join "/" S0).
  { unfold abs. now rewrite resolve_from_absolute. }
  assert (Eabs' : abs' = "/" ++ JS.join "/" (S0 ++ [child])).
  { unfold abs'.
    destruct (dot_prefixed (d0 ++ "/" ++ child ++ (if trailing then "/" else "")))
      as [H3 H4].
    rewrite resolve_from_absolute by assumption. fold R0.
    rewrite <- append_assoc.
    change ("/" ++ child ++ (if trailing then "/" else ""))
      with (String "/" (child ++ (if trailing then "/" else ""))).
    rewrite split_app_sep, normalizeSegs_app. fold S0.
    assert (Hs : Path.normalizeSegs false (rev S0)
                   (JS.split "/" (child ++ (if trailing then "/" else "")))
                 = (S0 ++ [child])%list).
    { destruct trailing.
      - change (child ++ "/") with (child ++ String "/" "").
        rewrite split_app_sep, normalizeSegs_trailing_empty.
        rewrite split_slashFree_id by now apply okSegment_slashFree.
        rewrite normalizeSegs_ok by (repeat constructor; exact Hchild).
        now rewrite rev_involutive.
      - rewrite append_nil_r.
        rewrite split_slashFree_id by now apply okSegment_slashFree.
        rewrite normalizeSegs_ok by (repeat constructor; exact Hchild).
        now rewrite rev_involutive. }
    now rewrite Hs. }
  assert (Hne : S0 <> []).
  { intros E. rewrite E in Eabs. cbn in Eabs.
    apply isAbsolute_iff in Hroot as [q ->].
    destruct Hchk as [Hpre|Heq].
    - rewrite Eabs in Hpre. cbn in Hpre.
      destruct q; discriminate Hpre.
    - rewrite Eabs in Heq. injection Heq as <-. discriminate Hsep. }
  split.
  - rewrite Eabs', Eabs.
    symmetry. apply path_join_normalized;
      [exact HokS | repeat constructor; exact Hchild | discriminate].
  - rewrite Eabs', join_app_nonempty by (assumption || discriminate).
    cbn [JS.join]. rewrite <- append_assoc. fold (JS.join "/" S0).
    change ("/" ++ JS.join "/" S0) with (String "/" (JS.join "/" S0)) in Eabs.
    change (("/" ++ JS.join "/" S0) ++ "/" ++ child)
      with (String "/" (JS.join "/" S0) ++ "/" ++ child).
    rewrite <- Eabs.
    destruct Hchk as [Hpre|Heq].
    + now apply startsWith_app_l.
    + rewrite Heq, <- append_assoc. apply startsWith_app.
Qed.

(** The resolver on the relative path of a row's [href]. *)
Lemma resolvePathSafe_child
  (root rel0 d0 d abs child : string) (trailing : bool) :
  Path.isAbsolute root = true ->
  JS.endsWith root Path.sep = false ->
  okSegment child = true ->
  URI.utf8_valid child = true ->
  URI.decodeURIComponent rel0 = Some d0 ->
  d = d0 \/ d = d0 ++ "/" ->
  abs = Path.resolve cwd [root; "." ++ d] ->
  JS.startsWith abs (root ++ Path.sep) = true \/ abs = root ->
  let rel' :=
    rel0 ++ "/" ++ URI.encodeURIComponent child
         ++ (if trailing then "/" else "") in
  URI.decodeURIComponent rel'
  = Some (d0 ++ "/" ++ child ++ (if trailing then "/" else ""))
  /\ resolvePathSafe cwd root rel' = Some (Path.join [abs; child]).
Proof.
  intros Hroot Hsep Hchild Hutf Hdec Hd Habs Hchk rel'.
  assert (Habs0 : abs = Path.resolve cwd [root; "." ++ d0]).
  { destruct Hd as [-> | ->]; [exact Habs|].
    now rewrite resolve_trailing_slash in Habs. }
  assert (Hdec' : URI.decodeURIComponent rel'
                  = Some (d0 ++ "/" ++ child ++ (if trailing then "/" else ""))).
  { unfold rel', URI.decodeURIComponent.
    rewrite (decode_from_app _ _ _ _ Hdec).
    change ("/" ++ URI.encodeURIComponent child ++ (if trailing then "/" else ""))
      with (String "/" (URI.encodeURIComponent child
                          ++ (if trailing then "/" else ""))).
    rewrite decode_from_literal by reflexivity.
    rewrite (decode_encode_app child _ URI.U_start URI.U_start I
               (utf8_valid_run _ Hutf)).
    now destruct trailing. }
  split; [exact Hdec'|].
  assert (Hne : rel' <> "").
  { unfold rel'. intros E. apply append_eq_nil in E as [_ E]. discriminate E. }
  unfold resolvePathSafe. rewrite (or_else_nonempty _ _ Hne), Hdec'. cbv zeta.
  rewrite Hsep.
  rewrite Habs0 in Hchk.
  destruct (resolve_child root d0 child trailing Hroot Hsep Hchild Hchk)
    as [E Hpre].
  rewrite Hpre. cbn [negb andb]. now rewrite E, Habs0.
Qed.

End Child.

Section RoundTrip.
Variables cwd dirname : string.
Hypothesis dirname_absolute : Path.isAbsolute dirname = true.

Lemma section_key_no_trailing_slash (key : string) :
  In key (map fst (SECTIONS cwd dirname)) -> JS.endsWith key "/" = false.
Proof. intros [<-|[<-|[]]]; reflexivity. Qed.

Lemma relOf_app (key rest : string) (m : string) :
  rest <> "" -> relOf key (mkRequest m (key ++ rest)) = rest.
Proof.
  intros H. unfold relOf. cbn [req_path].
  now rewrite slice_app, or_else_nonempty.
Qed.

(** The trailing-slash-guaranteed current path is the section key, a
    relative path that decodes, and one slash. *)
Lemma base_decomposition (req : Request) (key d : string) :
  JS.endsWith key "/" = false ->
  req_path req = key
  \/ (exists t, req_path req = key ++ "/" ++ t)
  \/ (exists t, req_path req = key ++ "%2F" ++ t) ->
  URI.decodeURIComponent (relOf key req) = Some d ->
  exists rel0 d0,
    (if JS.endsWith (req_path req) "/" then req_path req
     else req_path req ++ "/") = key ++ rel0 ++ "/"
    /\ URI.decodeURIComponent rel0 = Some d0
    /\ (d = d0 \/ d = d0 ++ "/").
Proof.
  intros Hkey Hpath Hdec. destruct req as [m path]. cbn [req_path] in *.
  assert (Hy : path = key \/ exists y, y <> "" /\ path = key ++ y).
  { destruct Hpath as [H|[[t H]|[t H]]]; [now left| |];
      right; eexists; (split; [|exact H]); discriminate. }
  destruct Hy as [->|[y [Hy ->]]].
  - unfold relOf in Hdec. cbn [req_path] in Hdec. rewrite slice_all in Hdec.
    cbn in Hdec. injection Hdec as <-.
    rewrite Hkey. exists "", "". repeat split. now right.
  - rewrite (relOf_app key y m Hy) in Hdec.
    rewrite (endsWith_app_nonempty key y Hy).
    destruct (JS.endsWith y "/") eqn:Hend.
    + apply endsWith_iff in Hend as [y0 ->].
      apply decode_from_app_slash in Hdec as [d0 [Hd0 ->]].
      exists y0, d0. repeat split; [exact Hd0 | now right].
    + exists y, d. repeat split; [apply append_assoc | exact Hdec | now left].
Qed.


End RoundTrip.



(* ===================================================================== *)
(** * Further properties *)
(* ===================================================================== *)

(** ** The HTML escape *)

Lemma replaceAll_app (c : ascii) (r a b : string) :
  JS.replaceAll c r (a ++ b) = JS.replaceAll c r a ++ JS.replaceAll c r b.
Proof.
  induction a as [|x a IH]; [reflexivity|].
  cbn [JS.replaceAll append]. now rewrite IH, append_assoc.
Qed.

Lemma replaceAll_one (c a : ascii) (r : string) :
  JS.replaceAll c r (String a "")
  = if Ascii.eqb a c then r else String a "".
Proof. cbn [JS.replaceAll]. now rewrite append_nil_r. Qed.

Lemma escapeHtml_app (a b : string) :
  escapeHtml (a ++ b) = escapeHtml a ++ escapeHtml b.
Proof. unfold escapeHtml. now rewrite !replaceAll_app. Qed.

Lemma escapeHtml_one (c : ascii) : escapeHtml (String c "") = htmlEntity c.
Proof.
  unfold escapeHtml, htmlEntity. rewrite replaceAll_one.
  destruct (Ascii.eqb c "&"); [reflexivity|]. rewrite replaceAll_one.
  destruct (Ascii.eqb c "<"); [reflexivity|]. rewrite replaceAll_one.
  destruct (Ascii.eqb c ">"); [reflexivity|]. rewrite replaceAll_one.
  destruct (Ascii.eqb c dquote); [reflexivity|]. rewrite replaceAll_one.
  reflexivity.
Qed.

Lemma escapeHtml_cons (c : ascii) (s : string) :
  escapeHtml (String c s) = htmlEntity c ++ escapeHtml s.
Proof.
  change (String c s) with (String c "" ++ s).
  now rewrite escapeHtml_app, escapeHtml_one.
Qed.

(** X1. The chain of five [replaceAll] calls is a one-pass escape: each
    character is replaced by its own entity, and the ["&"] of an entity
    written by a later call is never escaped again, because ["&"] is
    replaced first. *)
Theorem escapeHtml_one_pass (s : string) :
  escapeHtml s = escapeChars s
  /\ escapeHtml "a<b&c" = "a&lt;b&amp;c"
  /\ JS.replaceAll "&" "&amp;" (JS.replaceAll "<" "&lt;" "a<b") = "a&amp;lt;b".
Proof.
  split; [|split; reflexivity].
  induction s as [|c s IH]; [reflexivity|].
  rewrite escapeHtml_cons, IH. reflexivity.
Qed.

Lemma occurs_app (c : ascii) (a b : string) :
  occurs c (a ++ b) = occurs c a || occurs c b.
Proof.
  induction a as [|x a IH]; [reflexivity|].
  cbn [occurs append]. now rewrite IH, orb_assoc.
Qed.

Lemma htmlEntity_cases (d : ascii) :
  (htmlSpecial d = false /\ htmlEntity d = String d "")
  \/ (d = "&"%char /\ htmlEntity d = "&amp;")
  \/ (d = "<"%char /\ htmlEntity d = "&lt;")
  \/ (d = ">"%char /\ htmlEntity d = "&gt;")
  \/ (d = dquote /\ htmlEntity d = "&quot;")
  \/ (d = "'"%char /\ htmlEntity d = "&#39;").
Proof.
  unfold htmlEntity, htmlSpecial.
  destruct (Ascii.eqb d "&") eqn:E1;
    [apply Ascii.eqb_eq in E1; subst d; right; left; now split|].
  destruct (Ascii.eqb d "<") eqn:E2;
    [apply Ascii.eqb_eq in E2; subst d; right; right; left; now split|].
  destruct (Ascii.eqb d ">") eqn:E3;
    [apply Ascii.eqb_eq in E3; subst d; right; right; right; left; now split|].
  destruct (Ascii.eqb d dquote) eqn:E4;
    [apply Ascii.eqb_eq in E4; subst d; right; right; right; right; left;
     now split|].
  destruct (Ascii.eqb d "'") eqn:E5;
    [apply Ascii.eqb_eq in E5; subst d; do 5 right; now split|].
  left. now split.
Qed.

Lemma htmlEntity_markup_free (c d : ascii) :
  In c ["<"; ">"; dquote; "'"]%char -> occurs c (htmlEntity d) = false.
Proof.
  intros Hc.
  assert (Hs : htmlSpecial c = true)
    by (destruct Hc as [<-|[<-|[<-|[<-|[]]]]]; reflexivity).
  destruct (htmlEntity_cases d) as [[Hd ->]|H].
  - cbn [occurs]. rewrite orb_false_r.
    destruct (Ascii.eqb d c) eqn:E; [|reflexivity].
    apply Ascii.eqb_eq in E. subst d. congruence.
  - destruct H as [[_ ->]|[[_ ->]|[[_ ->]|[[_ ->]|[_ ->]]]]];
      destruct Hc as [<-|[<-|[<-|[<-|[]]]]]; reflexivity.
Qed.

Lemma escapeHtml_markup_free (c : ascii) (s : string) :
  In c ["<"; ">"; dquote; "'"]%char -> occurs c (escapeHtml s) = false.
Proof.
  intros Hc. induction s as [|d s IH]; [reflexivity|].
  rewrite escapeHtml_cons, occurs_app, IH, orb_false_r.
  now apply htmlEntity_markup_free.
Qed.

Lemma length_append (a b : string) :
  String.length (a ++ b) = String.length a + String.length b.
Proof. induction a as [|x a IH]; [reflexivity|]. cbn. now rewrite IH. Qed.

Lemma htmlEntity_length (d : ascii) : 1 <= String.length (htmlEntity d).
Proof.
  destruct (htmlEntity_cases d)
    as [[_ ->]|[[_ ->]|[[_ ->]|[[_ ->]|[[_ ->]|[_ ->]]]]]]; cbn; lia.
Qed.

Lemma escapeHtml_length (s : string) :
  String.length s <= String.length (escapeHtml s).
Proof.
  induction s as [|d s IH]; [cbn; lia|].
  rewrite escapeHtml_cons, length_append.
  pose proof (htmlEntity_length d). cbn [String.length]. lia.
Qed.

Lemma escapeHtml_plain (s : string) :
  escapeHtml s = s <-> plainText s = true.
Proof.
  induction s as [|d s IH]; [now split|].
  rewrite escapeHtml_cons. cbn [plainText].
  destruct (htmlEntity_cases d) as [[Hd ->]|H].
  - rewrite Hd. cbn [negb andb append]. rewrite <- IH.
    split; [now intros [= ->]|now intros ->].
  - assert (Hs : htmlSpecial d = true /\ 2 <= String.length (htmlEntity d)).
    { destruct H as [[-> ->]|[[-> ->]|[[-> ->]|[[-> ->]|[-> ->]]]]];
        split; try reflexivity; cbn; lia. }
    destruct Hs as [Hs Hl]. rewrite Hs. cbn [negb andb].
    split; [|discriminate].
    intros E. apply (f_equal String.length) in E.
    rewrite length_append in E. cbn [String.length] in E.
    pose proof (escapeHtml_length s). lia.
Qed.

(** X2. Escaped text holds no ["<"], [">"], double quote or apostrophe,
    whatever the input: it cannot open a tag or close an attribute value.
    Text is left unchanged exactly when it holds none of the five escaped
    characters. *)
Theorem escapeHtml_no_markup (s : string) :
  occurs "<" (escapeHtml s) = false
  /\ occurs ">" (escapeHtml s) = false
  /\ occurs dquote (escapeHtml s) = false
  /\ occurs "'" (escapeHtml s) = false
  /\ (escapeHtml s = s <-> plainText s = true).
Proof.
  repeat split; try (apply escapeHtml_markup_free; cbn; tauto);
    apply escapeHtml_plain.
Qed.

Lemma htmlEntity_prefix_free (c d : ascii) (x y : string) :
  htmlEntity c ++ x = htmlEntity d ++ y -> c = d /\ x = y.
Proof.
  destruct (htmlEntity_cases c) as [[Hc ->]|Hc];
    destruct (htmlEntity_cases d) as [[Hd ->]|Hd].
  - cbn [append]. now intros [= -> ->].
  - destruct Hd as [[-> ->]|[[-> ->]|[[-> ->]|[[-> ->]|[-> ->]]]]];
      cbn [append]; intros [= -> _]; discriminate Hc.
  - destruct Hc as [[-> ->]|[[-> ->]|[[-> ->]|[[-> ->]|[-> ->]]]]];
      cbn [append]; intros [= <- _]; discriminate Hd.
  - destruct Hc as [[-> ->]|[[-> ->]|[[-> ->]|[[-> ->]|[-> ->]]]]];
      destruct Hd as [[-> ->]|[[-> ->]|[[-> ->]|[[-> ->]|[-> ->]]]]];
      cbn [append]; intros E; try discriminate E;
      injection E as ->; now split.
Qed.

(** X3. [escapeHtml] loses nothing: two texts with the same escaped form
    are the same text. *)
Theorem escapeHtml_injective (s t : string) :
  escapeHtml s = escapeHtml t -> s = t.
Proof.
  revert t. induction s as [|c s IH]; intros [|d t].
  - reflexivity.
  - rewrite escapeHtml_cons. intros E. apply (f_equal String.length) in E.
    rewrite length_append in E. pose proof (htmlEntity_length d).
    cbn [escapeHtml JS.replaceAll String.length] in E. lia.
  - rewrite escapeHtml_cons. intros E. apply (f_equal String.length) in E.
    rewrite length_append in E. pose proof (htmlEntity_length c).
    cbn [escapeHtml JS.replaceAll String.length] in E. lia.
  - rewrite !escapeHtml_cons. intros E.
    apply htmlEntity_prefix_free in E. destruct E as [-> E].
    now rewrite (IH t E).
Qed.

Lemma escapeHtml_injective_witness :
  escapeHtml "a<b" = escapeHtml "a<b" /\ "a<b" = "a<b".
Proof.
  split; [reflexivity|].
  apply (escapeHtml_injective "a<b" "a<b"). reflexivity.
Defined.

(** ** Row names and their labels *)

Lemma sliceButLast_snoc (s : string) (c : ascii) :
  JS.sliceButLast (s ++ String c "") = s.
Proof.
  induction s as [|a s IH]; [reflexivity|].
  cbn [append JS.sliceButLast]. fold (s ++ String c "")%string.
  destruct s as [|b s']; [reflexivity|].
  cbn [append] in IH |- *. now rewrite IH.
Qed.

Lemma slashFree_not_endsWith (s : string) :
  slashFree s = true -> JS.endsWith s "/" = false.
Proof.
  induction s as [|a s IH]; [reflexivity|].
  cbn [slashFree]. intros H. apply andb_prop in H. destruct H as [Ha Hs].
  rewrite endsWith_unfold, (IH Hs), orb_false_r.
  rewrite string_eqb_cons. apply negb_true_iff in Ha. now rewrite Ha.
Qed.

Lemma stripSlash_slash (s : string) : stripSlash (s ++ "/") = s.
Proof.
  unfold stripSlash. rewrite endsWith_app. apply sliceButLast_snoc.
Qed.

Lemma stripSlash_slashFree (s : string) :
  slashFree s = true -> stripSlash s = s.
Proof.
  intros H. unfold stripSlash. now rewrite slashFree_not_endsWith.
Qed.

(** X4. [stripSlash] undoes the ["/"] that a listing appends to the name
    of a directory: applied to the name of a row, of a file or of a
    directory, of the plain listing or of the union view, it gives the name
    of the directory entry the row was built from. *)
Theorem stripSlash_row_name
  (req : Request) (key rel : string) (b : Bucket) (e : Dirent) (s : Stats) :
  slashFree (d_name e) = true ->
  stripSlash (name (plainRow req key rel e s)) = d_name e
  /\ stripSlash (name (Legacy.plainRow req e s)) = d_name e
  /\ stripSlash (name (bucketRow b e s)) = d_name e
  /\ (isDirectory (d_kind e) = true ->
      name (plainRow req key rel e s) <> d_name e).
Proof.
  intros H. cbn [name plainRow Legacy.plainRow bucketRow].
  rewrite (stripSlash_slashFree _ H).
  destruct (isDirectory (d_kind e)).
  - rewrite !stripSlash_slash. refine (conj eq_refl (conj eq_refl (conj eq_refl _))).
    intros _ E. apply (f_equal String.length) in E.
    rewrite length_append in E. cbn in E. lia.
  - rewrite !append_nil_r, !stripSlash_slashFree by exact H.
    refine (conj eq_refl (conj eq_refl (conj eq_refl _))). discriminate.
Qed.

Lemma stripSlash_row_name_witness :
  stripSlash
    (name (plainRow (mkRequest "GET" "/docs") "/docs" "/"
             (mkDirent "a b&c" KDirectory) (exampleStats KDirectory)))
  = "a b&c".
Proof.
  exact (proj1 (stripSlash_row_name (mkRequest "GET" "/docs") "/docs" "/"
                  (mkBucket "solo" "/app/files/games/solo" "solo")
                  (mkDirent "a b&c" KDirectory) (exampleStats KDirectory)
                  eq_refl)).
Defined.

(** ** The mode tag of a listing under [/games] *)

Lemma first_segment_test (sl rel : string) :
  slashFree sl = true ->
  String.eqb rel ("/" ++ sl) || JS.startsWith rel ("/" ++ sl ++ "/") = true
  <-> exists rest, JS.split "/" rel = "" :: sl :: rest.
Proof.
  intros Hsl. destruct rel as [|c s].
  - split; [discriminate|]. intros [rest E]. discriminate E.
  - cbn [append]. rewrite string_eqb_cons, startsWith_cons, split_unfold.
    rewrite (ascii_eqb_sym "/" c).
    destruct (Ascii.eqb c "/") eqn:Ec.
    + cbn [andb]. rewrite orb_true_iff, String.eqb_eq.
      rewrite <- (split_first_segment sl s Hsl).
      split.
      * intros [rest E]. exists rest. now rewrite E.
      * intros [rest [= E]]. now exists rest.
    + cbn [andb orb]. split; [discriminate|].
      intros [rest E]. destruct (JS.split "/" s); discriminate E.
Qed.

Lemma inferModeFromRel_eq (rel : string) :
  inferModeFromRel rel
  = if String.eqb rel "/solo" || JS.startsWith rel "/solo/" then Some "solo"
    else if String.eqb rel "/multi" || JS.startsWith rel "/multi/"
         then Some "coop"
         else None.
Proof.
  unfold inferModeFromRel. destruct rel; reflexivity.
Qed.

Lemma allSlashes_split (rel : string) :
  allSlashes rel = true -> Forall (fun seg => seg = "") (JS.split "/" rel).
Proof.
  induction rel as [|c s IH]; [repeat constructor|].
  cbn [allSlashes]. intros H. apply andb_prop in H. destruct H as [Hc Hs].
  rewrite split_unfold, Hc. constructor; [reflexivity|exact (IH Hs)].
Qed.

Lemma first_segment_not_root (rel sl : string) (rest : list string) :
  JS.split "/" rel = "" :: sl :: rest -> sl <> "" -> allSlashes rel = false.
Proof.
  intros E Hsl. destruct (allSlashes rel) eqn:Ha; [|reflexivity].
  apply allSlashes_split in Ha. rewrite E in Ha.
  inversion Ha as [|? ? _ Ht]. inversion Ht as [|? ? Hx _]. congruence.
Qed.

(** X5. Under [/games] a listing carries a mode tag exactly on the paths
    the access filter allows other than the section root: [inferModeFromRel]
    answers a mode for [rel] if and only if [isAllowedGamesRel rel] holds
    and [rel] is not made of slashes only. *)
Theorem inferModeFromRel_iff_allowed (rel : string) :
  inferModeFromRel rel <> None
  <-> isAllowedGamesRel rel = true /\ allSlashes rel = false.
Proof.
  rewrite inferModeFromRel_eq, isAllowedGamesRel_iff.
  pose proof (first_segment_test "solo" rel eq_refl) as Hs.
  pose proof (first_segment_test "multi" rel eq_refl) as Hm.
  cbn [append] in Hs, Hm.
  split.
  - intros H.
    destruct (String.eqb rel "/solo" || JS.startsWith rel "/solo/").
    + destruct (proj1 Hs eq_refl) as [rest E]. split.
      * right. exists "solo", rest. split; [now left|exact E].
      * apply (first_segment_not_root rel "solo" rest E). discriminate.
    + destruct (String.eqb rel "/multi" || JS.startsWith rel "/multi/").
      * destruct (proj1 Hm eq_refl) as [rest E]. split.
        -- right. exists "multi", rest. split; [right; now left|exact E].
        -- apply (first_segment_not_root rel "multi" rest E). discriminate.
      * now contradiction H.
  - intros [[Ha|[sl [rest [Hin E]]]] Hn]; [congruence|].
    destruct Hin as [<-|[<-|[]]].
    + rewrite (proj2 Hs (ex_intro _ rest E)). discriminate.
    + rewrite (proj2 Hm (ex_intro _ rest E)).
      destruct (String.eqb rel "/solo" || JS.startsWith rel "/solo/");
        discriminate.
Qed.

(** X6. The tag agrees with the bucket table: on a path whose first
    segment is the slug of a bucket of [GAMES_BUCKETS], [inferModeFromRel]
    answers the [mode] of that bucket, so that a file row of the listing of
    a bucket carries the tag the union view gives to the files of the same
    bucket, and a directory row carries none. *)
Theorem inferModeFromRel_bucket_tag
  (cwd dirname : string) (req : Request) (rel : string) (b : Bucket)
  (rest : list string) (e : Dirent) (s : Stats) :
  In b (GAMES_BUCKETS cwd dirname) ->
  JS.split "/" rel = "" :: slug b :: rest ->
  inferModeFromRel rel = Some (bmode b)
  /\ mode (plainRow req "/games" rel e s)
     = (if isDirectory (d_kind e) then None else mode (bucketRow b e s)).
Proof.
  intros Hb E.
  assert (Hm : inferModeFromRel rel = Some (bmode b)).
  { rewrite inferModeFromRel_eq.
    pose proof (first_segment_test "solo" rel eq_refl) as Hs.
    pose proof (first_segment_test "multi" rel eq_refl) as Hm.
    cbn [append] in Hs, Hm.
    destruct Hb as [<-|[<-|[]]]; cbn [slug bmode] in E |- *.
    - now rewrite (proj2 Hs (ex_intro _ rest E)).
    - rewrite (proj2 Hm (ex_intro _ rest E)).
      destruct (String.eqb rel "/solo" || JS.startsWith rel "/solo/") eqn:T;
        [|reflexivity].
      destruct (proj1 Hs eq_refl) as [rest' E']. rewrite E in E'.
      discriminate E'. }
  split; [exact Hm|].
  cbn [mode plainRow bucketRow]. rewrite Hm. reflexivity.
Qed.

Lemma inferModeFromRel_bucket_tag_witness :
  inferModeFromRel "/multi/x" = Some "coop"
  /\ mode (plainRow (mkRequest "GET" "/games/multi/x") "/games" "/multi/x"
             (mkDirent "c.zip" KFile) (exampleStats KFile))
     = Some "coop".
Proof.
  exact (inferModeFromRel_bucket_tag "/" "/app"
           (mkRequest "GET" "/games/multi/x") "/multi/x"
           (mkBucket "multi" (Path.join [ROOT "/" "/app"; "games"; "multi"]) "coop")
           ["x"] (mkDirent "c.zip" KFile) (exampleStats KFile)
           (or_intror (or_introl eq_refl)) eq_refl).
Defined.

(** ** Links of the union view *)

Lemma basename_normalized (segs : list string) :
  okSegments segs -> segs <> [] ->
  Path.basename ("/" ++ JS.join "/" segs) = last segs "".
Proof.
  intros Hok Hne. unfold Path.basename.
  rewrite split_normalized by exact Hok.
  destruct segs as [|x segs']; [contradiction|].
  change (JS.filterBoolean ("" :: x :: segs'))
    with (JS.filterBoolean (x :: segs')).
  rewrite filterBoolean_id; [reflexivity|].
  eapply Forall_impl; [|exact Hok]. intros a Ha. now apply okSegment_nonempty.
Qed.

Lemma join_child (segs : list string) (child : string) :
  okSegments segs -> segs <> [] -> okSegment child = true ->
  Path.join ["/" ++ JS.join "/" segs; child]
  = ("/" ++ JS.join "/" segs) ++ "/" ++ child
  /\ Path.join ["/" ++ JS.join "/" segs; child]
     = "/" ++ JS.join "/" (segs ++ [child])
  /\ Path.basename (Path.join ["/" ++ JS.join "/" segs; child]) = child.
Proof.
  intros Hok Hne Hc.
  assert (Hc' : okSegments [child]) by (repeat constructor; exact Hc).
  assert (E : Path.join ["/" ++ JS.join "/" segs; child]
              = "/" ++ JS.join "/" (segs ++ [child])).
  { apply path_join_normalized; [exact Hok|exact Hc'|discriminate]. }
  split; [|split; [exact E|]].
  - rewrite E, join_app_nonempty by (exact Hne || discriminate).
    cbn [JS.join]. now rewrite append_assoc.
  - rewrite E, basename_normalized.
    + now rewrite last_app_nonempty by discriminate.
    + now apply okSegments_app.
    + intros H. apply app_eq_nil in H as [_ H]. discriminate H.
Qed.

Section Buckets.
Variables cwd dirname : string.
Variable localeCompare : string -> string -> Z.
Hypothesis dirname_absolute : Path.isAbsolute dirname = true.

Local Abbreviation gamesRoot' := (Path.join [ROOT cwd dirname; "games"]).
Local Abbreviation buckets' := (GAMES_BUCKETS cwd dirname).

Lemma gamesRoot_normalized :
  exists rsegs,
    okSegments rsegs /\ rsegs <> [] /\ gamesRoot' = "/" ++ JS.join "/" rsegs.
Proof.
  apply (section_root_normalized cwd dirname dirname_absolute "/games").
  apply lookupSection_games.
Qed.

(** The directory of a bucket is the child of the [/games] root named by
    its slug. *)
Lemma bucket_dir (b : Bucket) :
  In b buckets' ->
  In (slug b) ["solo"; "multi"]
  /\ dir b = Path.join [gamesRoot'; slug b]
  /\ dir b = gamesRoot' ++ "/" ++ slug b.
Proof.
  intros Hb.
  destruct (ROOT_normalized cwd dirname dirname_absolute) as [dsegs [Hd ER]].
  assert (Hf : okSegments (dsegs ++ ["files"])).
  { apply okSegments_app; [exact Hd | repeat constructor]. }
  assert (Hg : okSegments ((dsegs ++ ["files"]) ++ ["games"])).
  { apply okSegments_app; [exact Hf | repeat constructor]. }
  assert (EG : gamesRoot' = "/" ++ JS.join "/" ((dsegs ++ ["files"]) ++ ["games"])).
  { rewrite ER. apply path_join_normalized;
      [exact Hf | repeat constructor | discriminate]. }
  assert (Hne : ((dsegs ++ ["files"]) ++ ["games"])%list <> []).
  { intros H. apply app_eq_nil in H as [_ H]. discriminate H. }
  assert (K : forall sl, okSegment sl = true ->
                Path.join [ROOT cwd dirname; "games"; sl]
                = Path.join [gamesRoot'; sl]
                /\ Path.join [gamesRoot'; sl] = gamesRoot' ++ "/" ++ sl).
  { intros sl Hsl. rewrite EG.
    destruct (join_child _ sl Hg Hne Hsl) as [E1 [E2 _]].
    split; [|exact E1]. rewrite E2, ER.
    rewrite path_join_normalized;
      [|exact Hf | repeat constructor; exact Hsl | discriminate].
    now rewrite <- (app_assoc (dsegs ++ ["files"]) ["games"] [sl]). }
  destruct Hb as [<-|[<-|[]]]; cbn [slug dir].
  - destruct (K "solo" eq_refl) as [E1 E2].
    split; [now left|]. split; [exact E1|now rewrite E1].
  - destruct (K "multi" eq_refl) as [E1 E2].
    split; [right; now left|]. split; [exact E1|now rewrite E1].
Qed.

Lemma resolve_root_itself :
  Path.resolve cwd [gamesRoot'; "./"] = gamesRoot'.
Proof.
  pose proof (resolve_section_root cwd dirname dirname_absolute "/games" _
                (lookupSection_games cwd dirname)) as H.
  apply resolvePathSafe_Some_inv in H. destruct H as [d [Hd [Ha _]]].
  change (URI.decodeURIComponent (JS.or_else "/" "/")) with (Some "/") in Hd.
  injection Hd as <-. exact (eq_sym Ha).
Qed.

Lemma gamesRoot_canonical :
  Path.isAbsolute gamesRoot' = true /\ JS.endsWith gamesRoot' Path.sep = false.
Proof.
  apply (section_root_canonical cwd dirname dirname_absolute "/games").
  apply lookupSection_games.
Qed.

Lemma resolve_bucket_file (sl child : string) :
  In sl ["solo"; "multi"] ->
  okSegment child = true -> URI.utf8_valid child = true ->
  resolvePathSafe cwd gamesRoot'
    ("/" ++ sl ++ "/" ++ URI.encodeURIComponent child)
  = Some (Path.join [Path.join [gamesRoot'; sl]; child]).
Proof.
  intros Hsl Hc Hu. destruct gamesRoot_canonical as [Habs Hsep].
  assert (Hsl' : okSegment sl = true /\ URI.utf8_valid sl = true
                 /\ URI.encodeURIComponent sl = sl).
  { destruct Hsl as [<-|[<-|[]]]; repeat split. }
  destruct Hsl' as [Hok [Hutf Henc]].
  destruct (resolvePathSafe_child cwd gamesRoot' "" "" "/" gamesRoot' sl false
              Habs Hsep Hok Hutf eq_refl (or_intror eq_refl)
              (eq_sym resolve_root_itself) (or_intror eq_refl))
    as [Hd1 Hr1].
  rewrite Henc, append_nil_r in Hd1, Hr1. cbn [append] in Hd1, Hr1.
  pose proof (resolvePathSafe_Some_inv _ _ _ _ Hr1) as [d [Hd [Ha Hchk]]].
  rewrite or_else_nonempty in Hd by discriminate.
  rewrite Hd1 in Hd. injection Hd as <-.
  rewrite Hsep in Hchk.
  destruct (resolvePathSafe_child cwd gamesRoot' ("/" ++ sl) ("/" ++ sl)
              ("/" ++ sl) _ child false
              Habs Hsep Hc Hu Hd1 (or_introl eq_refl) Ha Hchk)
    as [_ Hr2].
  rewrite append_nil_r in Hr2. exact Hr2.
Qed.

End Buckets.

Section UnionLinks.
Variables cwd dirname : string.
Variable localeCompare : string -> string -> Z.
Hypothesis dirname_absolute : Path.isAbsolute dirname = true.

Local Abbreviation gamesRoot' := (Path.join [ROOT cwd dirname; "games"]).
Local Abbreviation buckets' := (GAMES_BUCKETS cwd dirname).

Lemma bucket_child (b : Bucket) (child : string) :
  In b buckets' -> okSegment child = true ->
  normalizedAbsolute (dir b)
  /\ normalizedAbsolute (Path.join [dir b; child])
  /\ Path.join [dir b; child] = dir b ++ "/" ++ child
  /\ Path.basename (Path.join [dir b; child]) = child.
Proof.
  intros Hb Hc.
  destruct (bucket_dir cwd dirname dirname_absolute b Hb) as [Hsl [Ed _]].
  destruct (gamesRoot_normalized cwd dirname dirname_absolute)
    as [rsegs [Hok [Hne Eg]]].
  assert (Hs : okSegment (slug b) = true)
    by (destruct Hsl as [<-|[<-|[]]]; reflexivity).
  rewrite Ed, Eg.
  destruct (join_child rsegs (slug b) Hok Hne Hs) as [_ [E2 _]].
  rewrite E2.
  assert (Hok' : okSegments (rsegs ++ [slug b])).
  { apply okSegments_app; [exact Hok | repeat constructor; exact Hs]. }
  assert (Hne' : (rsegs ++ [slug b])%list <> []).
  { intros H. apply app_eq_nil in H as [_ H]. discriminate H. }
  destruct (join_child _ child Hok' Hne' Hc) as [E3 [E4 E5]].
  split; [now exists (rsegs ++ [slug b])%list|].
  split; [|split; [exact E3|exact E5]].
  rewrite E4. exists ((rsegs ++ [slug b]) ++ [child])%list.
  split; [|reflexivity].
  apply okSegments_app; [exact Hok' | repeat constructor; exact Hc].
Qed.

(** X7. Every link of the union view leads to the file it lists: the
    [href] of the row built for entry [e] of bucket [b] matches the
    [/games] section, passes the access filter and resolves to
    [path.join(b.dir, e.name)].  A request for it, with any method, when
    [lstat] shows something other than a directory there, hands that file
    to [send] under the name of the entry, provided the
    [Content-Disposition] header can be set for that name and [send]
    accepts the path; otherwise (a name with a character above U+00FF, an
    entry or a directory of the path beginning with a dot) the answer is
    the 500 of the error handler, and the file is not opened. *)
Theorem union_link_downloads
  (b : Bucket) (e : Dirent) (s : Stats) (method : string) :
  In b buckets' ->
  okSegment (d_name e) = true ->
  URI.utf8_valid (d_name e) = true ->
  let row := bucketRow b e s in
  let req := mkRequest method (href row) in
  let file := Path.join [dir b; d_name e] in
  matchSection cwd dirname (href row) = Some "/games"
  /\ isAllowedGamesRel (relOf "/games" req) = true
  /\ resolvePathSafe cwd gamesRoot' (relOf "/games" req) = Some file
  /\ (forall fs st,
        fs_lstat fs file = inr st -> isDirectory (st_kind st) = false ->
        app cwd dirname localeCompare req fs
        = if deliverable file
          then (Download file (d_name e) "public, max-age=86400, immutable",
                [OpLstat file; OpSendFile file])
          else (Respond 500
                  (Text "Erreur interne. Consulte la console du serveur."),
                [OpLstat file])).
Proof.
  intros Hb Hok Hutf row req file.
  destruct (bucket_dir cwd dirname dirname_absolute b Hb) as [Hsl [Ed _]].
  destruct (bucket_child b (d_name e) Hb Hok) as [_ [_ [_ Hbase]]].
  set (enc := URI.encodeURIComponent (d_name e)).
  assert (Hrel : relOf "/games" req = "/" ++ slug b ++ "/" ++ enc).
  { apply (relOf_app "/games" ("/" ++ slug b ++ "/" ++ enc) method).
    discriminate. }
  assert (Hm : matchSection cwd dirname (href row) = Some "/games").
  { apply matchSection_iff. split; [right; now left|].
    right; left. exists (slug b ++ "/" ++ enc). reflexivity. }
  assert (Hall : isAllowedGamesRel (relOf "/games" req) = true).
  { rewrite Hrel. apply isAllowedGamesRel_iff. right.
    exists (slug b), (JS.split "/" enc). split; [exact Hsl|].
    change ("/" ++ slug b ++ "/" ++ enc)
      with (String "/" (slug b ++ String "/" enc)).
    rewrite split_unfold. cbn [Ascii.eqb Bool.eqb].
    rewrite split_app_sep, split_slashFree_id; [reflexivity|].
    destruct Hsl as [<-|[<-|[]]]; reflexivity. }
  assert (Hres : resolvePathSafe cwd gamesRoot' (relOf "/games" req) = Some file).
  { rewrite Hrel. unfold file. rewrite Ed.
    now apply resolve_bucket_file. }
  split; [exact Hm|]. split; [exact Hall|]. split; [exact Hres|].
  intros fs st Hst Hdir.
  rewrite (app_not_directory _ _ _ req fs _ _ file st
             Hm (lookupSection_games _ _)); try assumption.
  - unfold file in Hbase |- *. now rewrite Hbase.
  - rewrite Hall. reflexivity.
Qed.

End UnionLinks.

Lemma union_link_downloads_witness :
  app "/" "/app" ordinalCompare (mkRequest "GET" "/games/solo/a.zip") exampleFS
  = (Download "/app/files/games/solo/a.zip" "a.zip"
       "public, max-age=86400, immutable",
     [OpLstat "/app/files/games/solo/a.zip";
      OpSendFile "/app/files/games/solo/a.zip"]).
Proof.
  exact (proj2 (proj2 (proj2
    (union_link_downloads "/" "/app" ordinalCompare eq_refl
       (mkBucket "solo" (Path.join [ROOT "/" "/app"; "games"; "solo"]) "solo")
       (mkDirent "a.zip" KFile) (exampleStats KFile) "GET"
       (or_introl eq_refl) eq_refl eq_refl)))
    exampleFS (exampleStats KFile) eq_refl eq_refl).
Defined.

(** The link of an entry whose name cannot be put in a header. *)
Example union_link_header_failure :
  href (bucketRow
          (mkBucket "solo" (Path.join [ROOT "/" "/app"; "games"; "solo"]) "solo")
          (mkDirent euroZip KFile) (exampleStats KFile))
  = "/games/solo/%E2%82%AC.zip"
  /\ app "/" "/app" ordinalCompare
       (mkRequest "GET" "/games/solo/%E2%82%AC.zip") anyFile
     = (Respond 500 (Text "Erreur interne. Consulte la console du serveur."),
        [OpLstat ("/app/files/games/solo/" ++ euroZip)]).
Proof. split; reflexivity. Qed.

(** The link of a dot file of a bucket: [send] refuses it. *)
Example union_link_dot_file :
  href (bucketRow
          (mkBucket "solo" (Path.join [ROOT "/" "/app"; "games"; "solo"]) "solo")
          (mkDirent ".hidden" KFile) (exampleStats KFile))
  = "/games/solo/.hidden"
  /\ app "/" "/app" ordinalCompare
       (mkRequest "GET" "/games/solo/.hidden") anyFile
     = (Respond 500 (Text "Erreur interne. Consulte la console du serveur."),
        [OpLstat "/app/files/games/solo/.hidden"]).
Proof. split; reflexivity. Qed.

(** ** What the access filter lets through *)

Section Bypass.
Variables cwd dirname : string.
Variable localeCompare : string -> string -> Z.
Hypothesis dirname_absolute : Path.isAbsolute dirname = true.

Local Abbreviation gamesRoot' := (Path.join [ROOT cwd dirname; "games"]).

Lemma resolve_through_bucket (segs : list string) :
  okSegments segs -> segs <> [] ->
  noPercent (JS.join "/" segs) = true ->
  resolvePathSafe cwd gamesRoot' ("/solo/../" ++ JS.join "/" segs)
  = Some (gamesRoot' ++ "/" ++ JS.join "/" segs)
  /\ Path.basename (gamesRoot' ++ "/" ++ JS.join "/" segs) = last segs "".
Proof.
  intros Hok Hne Hnp.
  destruct (gamesRoot_normalized cwd dirname dirname_absolute)
    as [rsegs [Hr [Hrne Eg]]].
  assert (Et : gamesRoot' ++ "/" ++ JS.join "/" segs
               = "/" ++ JS.join "/" (rsegs ++ segs)).
  { rewrite Eg, join_app_nonempty by assumption. now rewrite append_assoc. }
  split.
  - unfold resolvePathSafe. rewrite or_else_nonempty by discriminate.
    rewrite decode_noPercent by exact Hnp. cbv beta iota zeta.
    rewrite Et, Eg. rewrite resolve_on_normalized by exact Hr.
    change ("." ++ "/solo/../" ++ JS.join "/" segs)
      with ("./solo/.." ++ String "/" (JS.join "/" segs)).
    rewrite split_app_sep, split_join by assumption.
    change (JS.split "/" "./solo/..") with ["."; "solo"; ".."].
    cbn [List.app Path.normalizeSegs String.eqb Ascii.eqb Bool.eqb orb].
    rewrite normalizeSegs_ok, rev_involutive by exact Hok.
    rewrite normalized_no_trailing_sep by assumption.
    rewrite join_app_nonempty by assumption.
    replace ("/" ++ JS.join "/" rsegs ++ "/" ++ JS.join "/" segs)
      with ((("/" ++ JS.join "/" rsegs) ++ Path.sep) ++ JS.join "/" segs)
      by (unfold Path.sep; now rewrite !append_assoc).
    now rewrite startsWith_app.
  - rewrite Et, basename_normalized.
    + now apply last_app_nonempty.
    + now apply okSegments_app.
    + intros H. apply app_eq_nil in H as [_ H]. contradiction.
Qed.

(** X8. The access filter of [/games] looks at the first segment only and
    the resolver normalises afterwards: a path that enters a bucket and
    leaves it again, [/games/solo/../p], is allowed and resolves to
    [p] below the [/games] root, whatever directory [p] names.  When
    [lstat] shows something other than a directory there, the request,
    with any method, hands that path to [send], also when it lies in
    neither bucket directory, provided the [Content-Disposition] header
    can be set for its last segment and [send] accepts the path; otherwise
    (as for [/games/solo/../.hidden]) the answer is the 500 of the error
    handler. *)
Theorem first_segment_filter_reaches_games_root
  (segs : list string) (method : string) :
  okSegments segs -> segs <> [] ->
  noPercent (JS.join "/" segs) = true ->
  let rel := "/solo/../" ++ JS.join "/" segs in
  let req := mkRequest method ("/games" ++ rel) in
  let target := gamesRoot' ++ "/" ++ JS.join "/" segs in
  isAllowedGamesRel rel = true
  /\ resolvePathSafe cwd gamesRoot' rel = Some target
  /\ (forall fs st,
        fs_lstat fs target = inr st -> isDirectory (st_kind st) = false ->
        app cwd dirname localeCompare req fs
        = if deliverable target
          then (Download target (last segs "")
                  "public, max-age=86400, immutable",
                [OpLstat target; OpSendFile target])
          else (Respond 500
                  (Text "Erreur interne. Consulte la console du serveur."),
                [OpLstat target])).
Proof.
  intros Hok Hne Hnp rel req target. subst rel target.
  set (rel := "/solo/../" ++ JS.join "/" segs) in *.
  set (target := gamesRoot' ++ "/" ++ JS.join "/" segs) in *.
  destruct (resolve_through_bucket segs Hok Hne Hnp) as [Hres Hbase].
  fold rel target in Hres, Hbase.
  assert (Hall : isAllowedGamesRel rel = true).
  { apply isAllowedGamesRel_iff. right. exists "solo", (".." :: segs).
    split; [now left|]. unfold rel.
    change ("/solo/../" ++ JS.join "/" segs)
      with ("/solo/.." ++ String "/" (JS.join "/" segs)).
    now rewrite split_app_sep, split_join. }
  split; [exact Hall|]. split; [exact Hres|].
  intros fs st Hst Hdir.
  assert (Hm : matchSection cwd dirname (req_path req) = Some "/games").
  { apply matchSection_iff. split; [right; now left|].
    right; left. exists ("solo/../" ++ JS.join "/" segs). reflexivity. }
  assert (Hrel : relOf "/games" req = rel).
  { apply (relOf_app "/games" rel method). discriminate. }
  rewrite (app_not_directory _ _ _ req fs _ _ target st
             Hm (lookupSection_games _ _)); try assumption.
  - now rewrite Hbase.
  - rewrite Hrel, Hall. reflexivity.
Qed.

End Bypass.

Lemma first_segment_filter_reaches_games_root_witness :
  isAllowedGamesRel "/solo/../other/x.zip" = true
  /\ resolvePathSafe "/" "/app/files/games" "/solo/../other/x.zip"
     = Some "/app/files/games/other/x.zip"
  /\ app "/" "/app" ordinalCompare
       (mkRequest "GET" "/games/solo/../other/x.zip") anyFile
     = (Download "/app/files/games/other/x.zip" "x.zip"
          "public, max-age=86400, immutable",
        [OpLstat "/app/files/games/other/x.zip";
         OpSendFile "/app/files/games/other/x.zip"]).
Proof.
  refine (let H := first_segment_filter_reaches_games_root "/" "/app"
                     ordinalCompare eq_refl ["other"; "x.zip"] "GET" _ _ eq_refl
          in conj (proj1 H) (conj (proj1 (proj2 H))
               (proj2 (proj2 H) anyFile (exampleStats KFile) eq_refl eq_refl)));
    [repeat constructor | discriminate].
Defined.

(** The same path with a dot file at its end: [send] refuses it. *)
Example first_segment_filter_dot_file :
  app "/" "/app" ordinalCompare
    (mkRequest "GET" "/games/solo/../.hidden") anyFile
  = (Respond 500 (Text "Erreur interne. Consulte la console du serveur."),
     [OpLstat "/app/files/games/.hidden"]).
Proof. reflexivity. Qed.

(** ** The server stays inside its section roots *)

Lemma within_child (root abs child : string) (rsegs : list string) :
  okSegments rsegs -> rsegs <> [] -> root = "/" ++ JS.join "/" rsegs ->
  normalizedAbsolute abs -> within root abs -> okSegment child = true ->
  normalizedAbsolute (Path.join [abs; child])
  /\ within root (Path.join [abs; child]).
Proof.
  intros Hr Hrne Er [segs [Hs Ea]] Hw Hc.
  assert (Hne : segs <> []).
  { intros ->. cbn in Ea. subst abs root.
    destruct Hw as [E|[rest [_ [E _]]]].
    - injection E as E. symmetry in E.
      now apply (join_ok_nonempty rsegs Hr Hrne).
    - cbn [append] in E. injection E as E. symmetry in E.
      apply append_eq_nil in E as [_ E]. discriminate E. }
  subst abs. destruct (join_child segs child Hs Hne Hc) as [E1 [E2 _]].
  split.
  - rewrite E2. exists (segs ++ [child])%list. split; [|reflexivity].
    apply okSegments_app; [exact Hs | repeat constructor; exact Hc].
  - rewrite E1. right. destruct Hw as [->|[rest [Hrest [-> Hok]]]].
    + exists child. split; [now apply okSegment_nonempty|].
      split; [reflexivity|].
      rewrite split_slashFree_id by now apply okSegment_slashFree.
      repeat constructor. exact Hc.
    + exists (rest ++ "/" ++ child). split.
      * intros E. apply append_eq_nil in E as [_ E]. discriminate E.
      * split; [unfold Path.sep; now rewrite !append_assoc|].
        change (rest ++ "/" ++ child) with (rest ++ String "/" child).
        rewrite split_app_sep. apply okSegments_app; [exact Hok|].
        rewrite split_slashFree_id by now apply okSegment_slashFree.
        repeat constructor. exact Hc.
Qed.

Lemma statCalls_within (root abs : string) (rsegs : list string)
  (entries : list Dirent) (op : FsOp) :
  okSegments rsegs -> rsegs <> [] -> root = "/" ++ JS.join "/" rsegs ->
  normalizedAbsolute abs -> within root abs ->
  Forall (fun e => okSegment (d_name e) = true) entries ->
  In op (statCalls abs entries) -> within root (opPath op).
Proof.
  intros Hr Hrne Er Hn Hw Hall Hin. unfold statCalls in Hin.
  apply in_map_iff in Hin. destruct Hin as [e [<- He]]. cbn [opPath].
  rewrite Forall_forall in Hall.
  exact (proj2 (within_child root abs (d_name e) rsegs Hr Hrne Er Hn Hw
                  (Hall e He))).
Qed.

Section Confinement.
Variables cwd dirname : string.
Variable localeCompare : string -> string -> Z.
Hypothesis dirname_absolute : Path.isAbsolute dirname = true.

Local Abbreviation gamesRoot' := (Path.join [ROOT cwd dirname; "games"]).
Local Abbreviation buckets' := (GAMES_BUCKETS cwd dirname).

Lemma bucketCalls_within (fs : FS) (b : Bucket) (op : FsOp) :
  wellNamed fs -> In b buckets' ->
  In op (bucketCalls fs b) -> within gamesRoot' (opPath op).
Proof.
  intros Hfs Hb Hin.
  destruct (gamesRoot_normalized cwd dirname dirname_absolute)
    as [rsegs [Hr [Hrne Eg]]].
  destruct (bucket_dir cwd dirname dirname_absolute b Hb) as [Hsl [_ Ed]].
  destruct (bucket_child cwd dirname dirname_absolute b "x" Hb eq_refl)
    as [Hn _].
  assert (Hs : okSegment (slug b) = true)
    by (destruct Hsl as [<-|[<-|[]]]; reflexivity).
  assert (Hw : within gamesRoot' (dir b)).
  { right. exists (slug b). split; [now apply okSegment_nonempty|].
    split; [exact Ed|].
    rewrite split_slashFree_id by now apply okSegment_slashFree.
    repeat constructor. exact Hs. }
  unfold bucketCalls in Hin. destruct Hin as [<-|Hin]; [exact Hw|].
  destruct (fs_readdir fs (dir b)) as [err|entries] eqn:E; [destruct Hin|].
  refine (statCalls_within gamesRoot' (dir b) rsegs _ op Hr Hrne Eg Hn Hw
            _ Hin).
  pose proof (Hfs _ _ E) as Hall. rewrite Forall_forall in Hall |- *.
  intros e He. apply filter_In in He. now apply Hall.
Qed.

Lemma handlers_unmatched (req : Request) (fs : FS) :
  matchSection cwd dirname (req_path req) = None ->
  downloadHandler cwd dirname req fs = (Next, [])
  /\ indexHandler cwd dirname localeCompare req fs = (Next, []).
Proof.
  intros H. unfold downloadHandler, indexHandler. now rewrite H.
Qed.

Lemma downloadHandler_log (req : Request) (fs : FS) (key root : string)
  (op : FsOp) :
  matchSection cwd dirname (req_path req) = Some key ->
  lookupSection (SECTIONS cwd dirname) key = Some root ->
  In op (snd (downloadHandler cwd dirname req fs)) ->
  resolvePathSafe cwd root (relOf key req) = Some (opPath op).
Proof.
  intros Hm Hl. rewrite (downloadHandler_eq _ _ req fs _ _ Hm Hl).
  destruct (String.eqb key "/games" && negb (isAllowedGamesRel (relOf key req)));
    [intros []|].
  destruct (resolvePathSafe cwd root (relOf key req)) as [abs|]; [|intros []].
  destruct (fs_lstat fs abs) as [err|s].
  - intros [<-|[]]. reflexivity.
  - destruct (isDirectory (st_kind s)).
    + intros [<-|[]]. reflexivity.
    + pose proof (handOver_log abs op) as Hh.
      destruct (handOver abs) as [o t]. cbn [snd] in Hh |- *.
      intros [<-|H]; [reflexivity|]. rewrite (Hh H). reflexivity.
Qed.

Lemma indexHandler_log (req : Request) (fs : FS) (key root : string)
  (op : FsOp) :
  matchSection cwd dirname (req_path req) = Some key ->
  lookupSection (SECTIONS cwd dirname) key = Some root ->
  In op (snd (indexHandler cwd dirname localeCompare req fs)) ->
  (key = "/games" /\ In op (flat_map (bucketCalls fs) buckets'))
  \/ exists abs,
       resolvePathSafe cwd root (relOf key req) = Some abs
       /\ (opPath op = abs
           \/ exists entries,
                fs_readdir fs abs = inr entries
                /\ In op (statCalls abs entries)).
Proof.
  intros Hm Hl. rewrite (indexHandler_eq _ _ _ req fs _ _ Hm Hl). cbv zeta.
  destruct (String.eqb key "/games") eqn:Ek; cbn [andb].
  - apply String.eqb_eq in Ek.
    destruct (String.eqb (relOf key req) "/" || String.eqb (relOf key req) "").
    + rewrite unionRows_run. cbn [snd]. intros H. left. now split.
    + destruct (negb (isAllowedGamesRel (relOf key req))); [intros []|].
      destruct (resolvePathSafe cwd root (relOf key req)) as [abs|];
        [|intros []].
      intros H. right. exists abs. split; [reflexivity|].
      destruct (fs_lstat fs abs) as [err|s]; [destruct H as [<-|[]]; now left|].
      destruct (negb (isDirectory (st_kind s)));
        [destruct H as [<-|[]]; now left|].
      destruct (fs_readdir fs abs) as [err|entries];
        [destruct H as [<-|[<-|[]]]; now left|].
      rewrite listRows_run in H. destruct H as [<-|[<-|H]]; try now left.
      right. now exists entries.
  - destruct (resolvePathSafe cwd root (relOf key req)) as [abs|];
      [|intros []].
    intros H. right. exists abs. split; [reflexivity|].
    destruct (fs_lstat fs abs) as [err|s]; [destruct H as [<-|[]]; now left|].
    destruct (negb (isDirectory (st_kind s)));
      [destruct H as [<-|[]]; now left|].
    destruct (fs_readdir fs abs) as [err|entries];
      [destruct H as [<-|[<-|[]]]; now left|].
    rewrite listRows_run in H. destruct H as [<-|[<-|H]]; try now left.
    right. now exists entries.
Qed.

Lemma app_log (req : Request) (fs : FS) (op : FsOp) :
  In op (snd (app cwd dirname localeCompare req fs)) ->
  In op (snd (downloadHandler cwd dirname req fs))
  \/ In op (snd (indexHandler cwd dirname localeCompare req fs)).
Proof.
  unfold app. destruct (homeRoute req); [intros []|].
  unfold bind at 1.
  destruct (downloadHandler cwd dirname req fs) as [o t1].
  destruct o; cbn [ret snd List.app]; rewrite ?app_nil_r; try tauto.
  unfold bind.
  destruct (indexHandler cwd dirname localeCompare req fs) as [o' t2].
  destruct o'; cbn [ret snd List.app]; rewrite ?app_nil_r;
    intros H; apply in_app_or in H; tauto.
Qed.

(** X9. A bound on the path strings the middleware chain works on: every
    path it passes to [lstat], [readdir] or [res.sendFile] is the physical
    root of the section that the request path matches, or that root
    followed by a slash and ordinary segments (none empty, [.] or [..]);
    in particular a request that matches no section performs no file
    system operation.  The bound is on the names, not on what the disk
    holds under them: a symbolic link below the root is followed by
    [readdir] and by [send] wherever it points.  ([readdir] is assumed to
    return entry names.) *)
Theorem app_confined (req : Request) (fs : FS) (op : FsOp) :
  wellNamed fs ->
  In op (snd (app cwd dirname localeCompare req fs)) ->
  exists key root,
    matchSection cwd dirname (req_path req) = Some key
    /\ lookupSection (SECTIONS cwd dirname) key = Some root
    /\ within root (opPath op).
Proof.
  intros Hfs Hin. apply app_log in Hin.
  destruct (matchSection cwd dirname (req_path req)) as [key|] eqn:Hm.
  2:{ destruct (handlers_unmatched req fs Hm) as [E1 E2].
      rewrite E1, E2 in Hin. destruct Hin as [[]|[]]. }
  destruct (lookupSection_matched _ _ _ _ Hm) as [root Hl].
  exists key, root. split; [reflexivity|]. split; [exact Hl|].
  destruct (section_root_canonical cwd dirname dirname_absolute _ _ Hl)
    as [Habs Hsep].
  destruct (section_root_normalized cwd dirname dirname_absolute _ _ Hl)
    as [rsegs [Hr [Hrne Er]]].
  destruct Hin as [Hin|Hin].
  - apply (downloadHandler_log req fs key root op Hm Hl) in Hin.
    exact (proj2 (resolvePathSafe_contained cwd _ _ _ Habs Hsep Hin)).
  - apply (indexHandler_log req fs key root op Hm Hl) in Hin.
    destruct Hin as [[-> Hin]|[abs [Hres Hin]]].
    + rewrite lookupSection_games in Hl. injection Hl as <-.
      apply in_flat_map in Hin. destruct Hin as [b [Hb Hin]].
      now apply (bucketCalls_within fs b).
    + destruct (resolvePathSafe_contained cwd _ _ _ Habs Hsep Hres)
        as [Hn Hw].
      destruct Hin as [->|[entries [Hrd Hin]]]; [exact Hw|].
      exact (statCalls_within root abs rsegs entries op Hr Hrne Er Hn Hw
               (Hfs _ _ Hrd) Hin).
Qed.

End Confinement.

Lemma exampleFS_wellNamed : wellNamed exampleFS.
Proof.
  intros p entries. cbn [exampleFS fs_readdir].
  repeat (destruct (String.eqb p _);
          [intros [= <-]; repeat constructor|]).
  discriminate.
Qed.

Lemma app_confined_witness :
  exists key root,
    matchSection "/" "/app" "/docs/broken" = Some key
    /\ lookupSection (SECTIONS "/" "/app") key = Some root
    /\ within root "/app/files/docs/broken/y".
Proof.
  refine (app_confined "/" "/app" ordinalCompare eq_refl
            (mkRequest "GET" "/docs/broken") exampleFS
            (OpLstat "/app/files/docs/broken/y") exampleFS_wellNamed _).
  vm_compute. tauto.
Defined.

(** ** Methods *)

Section Methods.
Variables cwd dirname : string.
Variable localeCompare : string -> string -> Z.

(** X10. Outside the two paths of the home route, [/] and [//], the
    handlers of the current server never read the method of the request:
    two requests for the same path are answered alike, with the same file
    system operations.  A [POST] to a directory is answered with its
    listing and a [DELETE] to a file is answered like a [GET] of it. *)
Theorem app_ignores_method (m1 m2 path : string) (fs : FS) :
  path <> "/" -> path <> "//" ->
  app cwd dirname localeCompare (mkRequest m1 path) fs
  = app cwd dirname localeCompare (mkRequest m2 path) fs.
Proof.
  intros Hp1 Hp2. apply String.eqb_neq in Hp1, Hp2.
  assert (Hp : forall m, isHomePath (req_path (mkRequest m path)) = false)
    by (intros m; unfold isHomePath; cbn [req_path]; now rewrite Hp1, Hp2).
  rewrite !app_eq by apply Hp.
  assert (Ed : downloadHandler cwd dirname (mkRequest m1 path) fs
               = downloadHandler cwd dirname (mkRequest m2 path) fs)
    by reflexivity.
  assert (Ei : indexHandler cwd dirname localeCompare (mkRequest m1 path) fs
               = indexHandler cwd dirname localeCompare (mkRequest m2 path) fs).
  { destruct (matchSection cwd dirname path) as [key|] eqn:Hm.
    2:{ unfold indexHandler. cbn [req_path]. now rewrite Hm. }
    destruct (lookupSection_matched _ _ _ _ Hm) as [root Hl].
    rewrite (indexHandler_eq cwd dirname localeCompare (mkRequest m1 path)
               fs key root Hm Hl).
    rewrite (indexHandler_eq cwd dirname localeCompare (mkRequest m2 path)
               fs key root Hm Hl).
    cbv zeta.
    change (relOf key (mkRequest m2 path)) with (relOf key (mkRequest m1 path)).
    destruct (String.eqb key "/games"
              && (String.eqb (relOf key (mkRequest m1 path)) "/"
                  || String.eqb (relOf key (mkRequest m1 path)) ""));
      [reflexivity|].
    destruct (String.eqb key "/games"
              && negb (isAllowedGamesRel (relOf key (mkRequest m1 path))));
      [reflexivity|].
    destruct (resolvePathSafe cwd root (relOf key (mkRequest m1 path)))
      as [abs|]; [|reflexivity].
    destruct (fs_lstat fs abs) as [err|s]; [reflexivity|].
    destruct (negb (isDirectory (st_kind s))); [reflexivity|].
    destruct (fs_readdir fs abs) as [err|entries]; [reflexivity|].
    rewrite !listRows_run. reflexivity. }
  now rewrite Ed, Ei.
Qed.

End Methods.

Lemma app_ignores_method_witness :
  app "/" "/app" ordinalCompare (mkRequest "POST" "/docs/broken") exampleFS
  = app "/" "/app" ordinalCompare (mkRequest "GET" "/docs/broken") exampleFS.
Proof.
  apply (app_ignores_method "/" "/app" ordinalCompare
           "POST" "GET" "/docs/broken" exampleFS); discriminate.
Defined.

(** ** Internal errors *)

Section InternalError.
Variables cwd dirname : string.
Variable localeCompare : string -> string -> Z.

Lemma app_unmatched (req : Request) (fs : FS) :
  matchSection cwd dirname (req_path req) = None ->
  app cwd dirname localeCompare req fs
  = (if homeRoute req then Respond 200 HomePage else Next, []).
Proof.
  intros Hm. unfold app. destruct (homeRoute req); [reflexivity|].
  destruct (handlers_unmatched cwd dirname localeCompare req fs Hm) as [E1 E2].
  unfold bind at 1. rewrite E1. unfold bind. now rewrite E2.
Qed.

(** On a path that matches a section the chain always answers; it hands
    a file over only where [lstat] shows something other than a directory. *)
Lemma app_answers_unless_file (req : Request) (fs : FS) (key root : string) :
  matchSection cwd dirname (req_path req) = Some key ->
  lookupSection (SECTIONS cwd dirname) key = Some root ->
  (String.eqb key "/games" && negb (isAllowedGamesRel (relOf key req)) = false
   /\ exists abs s,
        resolvePathSafe cwd root (relOf key req) = Some abs
        /\ fs_lstat fs abs = inr s
        /\ isDirectory (st_kind s) = false)
  \/ exists status body log,
       app cwd dirname localeCompare req fs = (Respond status body, log).
Proof.
  intros Hm Hl.
  rewrite (app_eq _ _ _ req fs (matched_not_home _ _ _ _ Hm)).
  rewrite (downloadHandler_eq _ _ req fs _ _ Hm Hl).
  rewrite (indexHandler_eq _ _ _ req fs _ _ Hm Hl). cbv zeta.
  destruct (String.eqb key "/games"
            && negb (isAllowedGamesRel (relOf key req))) eqn:Hg.
  { right.
    destruct (String.eqb key "/games" && (_ || _));
      [destruct (unionRows _ fs)|]; do 3 eexists; reflexivity. }
  destruct (resolvePathSafe cwd root (relOf key req)) as [abs|] eqn:Hres.
  2:{ right. do 3 eexists. reflexivity. }
  destruct (fs_lstat fs abs) as [err|s] eqn:Hst.
  { right.
    destruct (String.eqb key "/games" && (_ || _));
      [destruct (unionRows _ fs)|]; do 3 eexists; reflexivity. }
  destruct (isDirectory (st_kind s)) eqn:Hd.
  { right. cbn [negb].
    destruct (String.eqb key "/games" && (_ || _));
      [destruct (unionRows _ fs); do 3 eexists; reflexivity|].
    destruct (fs_readdir fs abs) as [e|entries];
      [|destruct (listRows req key (relOf key req) abs entries fs)];
      do 3 eexists; reflexivity. }
  left. split; [reflexivity|]. exists abs, s. now repeat split.
Qed.


End InternalError.

(** ** The two older servers *)

Section Older.
Variables cwd dirname : string.
Variable localeCompare : string -> string -> Z.

Lemma sectioned_resolvePathSafe_eq (root p : string) :
  Sectioned.resolvePathSafe cwd root p
  = match URI.decodeURIComponent (JS.or_else p "/") with
    | None => inl URIError
    | Some _ => inr (resolvePathSafe cwd root p)
    end.
Proof.
  unfold Sectioned.resolvePathSafe, resolvePathSafe.
  destruct (URI.decodeURIComponent (JS.or_else p "/")); [|reflexivity].
  cbv zeta.
  now destruct (negb (JS.startsWith _ _) && negb (String.eqb _ root)).
Qed.

Lemma sectioned_matched (urlPath key : string) :
  Sectioned.matchSection cwd dirname urlPath = Some key ->
  isHomePath urlPath = false
  /\ exists root,
       lookupSection (Sectioned.SECTIONS cwd dirname) key = Some root.
Proof.
  unfold Sectioned.matchSection, Sectioned.SECTIONS.
  cbn [map fst matchSectionIn lookupSection]. intros H. split.
  - unfold isHomePath.
    destruct (String.eqb_spec urlPath "/") as [->|]; [discriminate H|].
    destruct (String.eqb_spec urlPath "//") as [->|]; [discriminate H|].
    reflexivity.
  - destruct (String.eqb urlPath "/games" || _ || _) in H.
    + injection H as <-. eexists. reflexivity.
    + destruct (String.eqb urlPath "/docs" || _ || _) in H; [|discriminate H].
      injection H as <-. eexists. reflexivity.
Qed.

Lemma legacy_app_eq (req : Request) (fs : FS) :
  Legacy.app cwd dirname localeCompare req fs =
  let '(o, t1) := Legacy.downloadHandler cwd dirname req fs in
  match o with
  | Next =>
      let '(o', t2) := Legacy.indexHandler cwd dirname localeCompare req fs in
      (match o' with NextErr e => errorHandler e | _ => o' end, (t1 ++ t2)%list)
  | NextErr e => (errorHandler e, t1)
  | _ => (o, t1)
  end.
Proof.
  unfold Legacy.app, bind.
  destruct (Legacy.downloadHandler cwd dirname req fs) as [o t1].
  destruct o; cbn [ret]; rewrite ?app_nil_r; try reflexivity.
  destruct (Legacy.indexHandler cwd dirname localeCompare req fs) as [o' t2].
  destruct o'; cbn [ret]; now rewrite ?app_nil_r.
Qed.

Lemma sectioned_app_eq (req : Request) (fs : FS) :
  homeRoute req = false ->
  Sectioned.app cwd dirname localeCompare req fs =
  let '(o, t1) := Sectioned.downloadHandler cwd dirname req fs in
  match o with
  | Next =>
      let '(o', t2) := Sectioned.indexHandler cwd dirname localeCompare req fs in
      (match o' with NextErr e => errorHandler e | _ => o' end, (t1 ++ t2)%list)
  | NextErr e => (errorHandler e, t1)
  | _ => (o, t1)
  end.
Proof.
  intros Hp. unfold Sectioned.app, bind. rewrite Hp.
  destruct (Sectioned.downloadHandler cwd dirname req fs) as [o t1].
  destruct o; cbn [ret]; rewrite ?app_nil_r; try reflexivity.
  destruct (Sectioned.indexHandler cwd dirname localeCompare req fs) as [o' t2].
  destruct o'; cbn [ret]; now rewrite ?app_nil_r.
Qed.

(** X12. In the two older servers a malformed percent-escape is not a
    client error: [decodeURIComponent] is called without [try], the
    [URIError] reaches the error handler and the request is answered 500,
    before any file system access.  (The current server answers 400.) *)
Theorem malformed_escape_is_internal_error (req : Request) (fs : FS) :
  (URI.decodeURIComponent (JS.or_else (req_path req) "/") = None ->
   Legacy.app cwd dirname localeCompare req fs
   = (Respond 500 (Text "Erreur interne. Consulte la console du serveur."), []))
  /\ (forall key,
        Sectioned.matchSection cwd dirname (req_path req) = Some key ->
        URI.decodeURIComponent (relOf key req) = None ->
        Sectioned.app cwd dirname localeCompare req fs
        = (Respond 500 (Text "Erreur interne. Consulte la console du serveur."),
           []))
  /\ Legacy.app cwd dirname localeCompare (mkRequest "GET" "/%zz") fs
     = (Respond 500 (Text "Erreur interne. Consulte la console du serveur."), [])
  /\ Sectioned.app cwd dirname localeCompare (mkRequest "GET" "/docs/%zz") fs
     = (Respond 500 (Text "Erreur interne. Consulte la console du serveur."), []).
Proof.
  assert (HL : forall r, URI.decodeURIComponent (JS.or_else (req_path r) "/") = None ->
      Legacy.app cwd dirname localeCompare r fs
      = (Respond 500 (Text "Erreur interne. Consulte la console du serveur."), [])).
  { intros r H. rewrite legacy_app_eq. unfold Legacy.downloadHandler.
    rewrite legacy_resolvePathSafe_eq, H. reflexivity. }
  assert (HS : forall r key,
      Sectioned.matchSection cwd dirname (req_path r) = Some key ->
      URI.decodeURIComponent (relOf key r) = None ->
      Sectioned.app cwd dirname localeCompare r fs
      = (Respond 500 (Text "Erreur interne. Consulte la console du serveur."), [])).
  { intros r key Hm H. destruct (sectioned_matched _ _ Hm) as [Hp [root Hl]].
    rewrite (sectioned_app_eq r fs (homeRoute_not_home r Hp)).
    unfold Sectioned.downloadHandler.
    rewrite Hm, Hl, sectioned_resolvePathSafe_eq.
    rewrite (or_else_nonempty _ _ (relOf_nonempty key r)), H. reflexivity. }
  split; [apply HL|]. split; [apply HS|]. split.
  - now apply HL.
  - now apply (HS _ "/docs").
Qed.

End Older.

Section OlderListings.
Variables cwd dirname : string.
Variable localeCompare : string -> string -> Z.

Lemma sectioned_downloadHandler_eq (req : Request) (fs : FS) (key root : string) :
  Sectioned.matchSection cwd dirname (req_path req) = Some key ->
  lookupSection (Sectioned.SECTIONS cwd dirname) key = Some root ->
  Sectioned.downloadHandler cwd dirname req fs =
  match Sectioned.resolvePathSafe cwd root (relOf key req) with
  | inl e => (NextErr e, [])
  | inr None => (Respond 400 (Text "Chemin invalide"), [])
  | inr (Some abs) =>
      match fs_lstat fs abs with
      | inl _ => (Next, [OpLstat abs])
      | inr s =>
          if isDirectory (st_kind s) then (Next, [OpLstat abs])
          else let '(o, t) := handOver abs in (o, OpLstat abs :: t)
      end
  end.
Proof.
  intros Hm Hl. unfold Sectioned.downloadHandler. rewrite Hm, Hl.
  destruct (Sectioned.resolvePathSafe cwd root (relOf key req)) as [e|[abs|]];
    try reflexivity.
  rewrite bind_lstat. destruct (fs_lstat fs abs) as [e|s]; [reflexivity|].
  destruct (isDirectory (st_kind s)); [reflexivity|].
  rewrite handOver_run. destruct (handOver abs); reflexivity.
Qed.

Lemma legacy_downloadHandler_eq (req : Request) (fs : FS) :
  Legacy.downloadHandler cwd dirname req fs =
  match Legacy.resolvePathSafe cwd (Legacy.ROOT cwd dirname) (req_path req) with
  | inl e => (NextErr e, [])
  | inr None => (Respond 400 (Text "Chemin invalide"), [])
  | inr (Some abs) =>
      match fs_lstat fs abs with
      | inl _ => (Next, [OpLstat abs])
      | inr s =>
          if isDirectory (st_kind s) then (Next, [OpLstat abs])
          else let '(o, t) := handOver abs in (o, OpLstat abs :: t)
      end
  end.
Proof.
  unfold Legacy.downloadHandler.
  destruct (Legacy.resolvePathSafe cwd (Legacy.ROOT cwd dirname) (req_path req))
    as [e|[abs|]]; try reflexivity.
  rewrite bind_lstat. destruct (fs_lstat fs abs) as [e|s]; [reflexivity|].
  destruct (isDirectory (st_kind s)); [reflexivity|].
  rewrite handOver_run. destruct (handOver abs); reflexivity.
Qed.

(** X13. The server with sections and without buckets has the unguarded
    child [lstat] of [src/server.js]: when one entry of a listed directory
    cannot be [lstat]ed the loop is left by the exception and the whole
    request is answered 500, whatever the other entries are. *)
Theorem sectioned_child_failure_is_internal_error
  (req : Request) (fs : FS) (key root abs : string) (s : Stats)
  (entries : list Dirent) :
  isGetOrHead (req_method req) = true ->
  Sectioned.matchSection cwd dirname (req_path req) = Some key ->
  lookupSection (Sectioned.SECTIONS cwd dirname) key = Some root ->
  Sectioned.resolvePathSafe cwd root (relOf key req) = inr (Some abs) ->
  fs_lstat fs abs = inr s ->
  isDirectory (st_kind s) = true ->
  fs_readdir fs abs = inr entries ->
  (exists e err, In e entries
                 /\ fs_lstat fs (Path.join [abs; d_name e]) = inl err) ->
  fst (Sectioned.app cwd dirname localeCompare req fs)
  = Respond 500 (Text "Erreur interne. Consulte la console du serveur.").
Proof.
  intros Hget Hm Hl Hres Hst Hd Hrd Hfail.
  destruct (sectioned_matched _ _ _ _ Hm) as [Hp _].
  rewrite (sectioned_app_eq _ _ _ req fs (homeRoute_not_home req Hp)).
  rewrite (sectioned_downloadHandler_eq req fs key root Hm Hl).
  rewrite Hres, Hst, Hd.
  unfold Sectioned.indexHandler. rewrite Hget, Hm, Hl, Hres. cbn [negb].
  rewrite bind_lstat, Hst, Hd. cbn [negb]. rewrite bind_readdir, Hrd.
  destruct (legacy_listRows_fails req abs entries fs Hfail) as [err [t E]].
  unfold bind. rewrite E. reflexivity.
Qed.

End OlderListings.

Lemma sectioned_child_failure_is_internal_error_witness :
  fst (Sectioned.app "/" "/app" ordinalCompare
         (mkRequest "GET" "/docs/broken") exampleFS)
  = Respond 500 (Text "Erreur interne. Consulte la console du serveur.").
Proof.
  apply (sectioned_child_failure_is_internal_error "/" "/app" ordinalCompare
           (mkRequest "GET" "/docs/broken") exampleFS "/docs" "/app/files/docs"
           "/app/files/docs/broken" (exampleStats KDirectory)
           [mkDirent "x" KFile; mkDirent "y" KFile; mkDirent "z" KFile]);
    try reflexivity.
  exists (mkDirent "y" KFile), EACCES. split; [cbn; tauto|reflexivity].
Defined.

Section OlderMethods.
Variables cwd dirname : string.
Variable localeCompare : string -> string -> Z.

(** X14. The two older servers build a listing for [GET] and [HEAD] only:
    with any other method the index middleware passes, the request is
    answered by the download middleware alone, and a request for a
    directory falls through the whole chain (Express's own 404), after one
    [lstat].  Files are sent whatever the method. *)
Theorem older_servers_list_for_get_and_head_only (req : Request) (fs : FS) :
  isGetOrHead (req_method req) = false ->
  Legacy.app cwd dirname localeCompare req fs
  = (let '(o, t) := Legacy.downloadHandler cwd dirname req fs in
     (match o with NextErr e => errorHandler e | _ => o end, t))
  /\ (String.eqb (req_path req) "/" = false ->
      Sectioned.app cwd dirname localeCompare req fs
      = (let '(o, t) := Sectioned.downloadHandler cwd dirname req fs in
         (match o with NextErr e => errorHandler e | _ => o end, t)))
  /\ (forall abs s,
        Legacy.resolvePathSafe cwd (Legacy.ROOT cwd dirname) (req_path req)
        = inr (Some abs) ->
        fs_lstat fs abs = inr s -> isDirectory (st_kind s) = true ->
        Legacy.app cwd dirname localeCompare req fs = (Next, [OpLstat abs])).
Proof.
  intros Hm.
  assert (E1 : Legacy.app cwd dirname localeCompare req fs
               = (let '(o, t) := Legacy.downloadHandler cwd dirname req fs in
                  (match o with NextErr e => errorHandler e | _ => o end, t))).
  { rewrite legacy_app_eq. unfold Legacy.indexHandler. rewrite Hm. cbn [negb ret].
    destruct (Legacy.downloadHandler cwd dirname req fs) as [o t].
    destruct o; rewrite ?app_nil_r; reflexivity. }
  split; [exact E1|]. split.
  - intros _.
    assert (Hh : homeRoute req = false) by (unfold homeRoute; now rewrite Hm).
    rewrite (sectioned_app_eq _ _ _ req fs Hh).
    unfold Sectioned.indexHandler. rewrite Hm. cbn [negb ret].
    destruct (Sectioned.downloadHandler cwd dirname req fs) as [o t].
    destruct o; rewrite ?app_nil_r; reflexivity.
  - intros abs s Hres Hst Hd. rewrite E1, legacy_downloadHandler_eq.
    now rewrite Hres, Hst, Hd.
Qed.

End OlderMethods.

Lemma older_servers_list_for_get_and_head_only_witness :
  Legacy.app "/" "/app" ordinalCompare (mkRequest "POST" "/docs") exampleFS
  = (Next, [OpLstat "/app/files/docs"]).
Proof.
  exact (proj2 (proj2
    (older_servers_list_for_get_and_head_only "/" "/app" ordinalCompare
       (mkRequest "POST" "/docs") exampleFS eq_refl))
    "/app/files/docs" (exampleStats KDirectory) eq_refl eq_refl eq_refl).
Defined.

(** ** Breadcrumbs *)

Lemma join_empty_cons (x : string) (l : list string) :
  JS.join "" (x :: l) = x ++ JS.join "" l.
Proof.
  destruct l as [|y l]; [cbn; now rewrite append_nil_r|].
  now rewrite join_cons2.
Qed.

Lemma crumbsFrom_labels (step : string -> string) (acc : string)
  (parts : list string) :
  map snd (crumbsFrom step acc parts) = parts.
Proof.
  revert acc. induction parts as [|p more IH]; intros acc; [reflexivity|].
  cbn [crumbsFrom map snd]. now rewrite IH.
Qed.

Lemma crumbsFrom_nth (step : string -> string) (acc : string)
  (parts : list string) (k : nat) (p : string) :
  nth_error parts k = Some p ->
  nth_error (crumbsFrom step acc parts) k
  = Some (acc ++ JS.join "" (map step (firstn (S k) parts)) ++ "/", p).
Proof.
  revert acc k. induction parts as [|p0 more IH]; intros acc k H.
  - destruct k; discriminate H.
  - destruct k as [|k].
    + injection H as <-. cbn [crumbsFrom nth_error firstn map JS.join].
      now rewrite append_assoc.
    + cbn [nth_error] in H. cbn [crumbsFrom nth_error].
      rewrite (IH _ _ H).
      change (firstn (S (S k)) (p0 :: more)) with (p0 :: firstn (S k) more).
      cbn [map]. now rewrite join_empty_cons, !append_assoc.
Qed.

Lemma join_slash_prefixed (l : list string) :
  l <> [] ->
  JS.join "" (map (fun p => "/" ++ p) l) = "/" ++ JS.join "/" l.
Proof.
  induction l as [|x l IH]; [contradiction|]. intros _.
  cbn [map]. rewrite join_empty_cons.
  destruct l as [|y l]; [cbn; now rewrite append_nil_r|].
  rewrite IH by discriminate. rewrite join_cons2.
  cbn [append]. reflexivity.
Qed.

Lemma firstn_S_nonempty {A} (k : nat) (l : list A) (x : A) :
  nth_error l k = Some x -> firstn (S k) l <> [].
Proof. destruct l; [destruct k|]; discriminate. Qed.

Lemma decode_crumb (l : list string) :
  Forall (fun p => URI.utf8_valid p = true) l ->
  URI.decodeURIComponent
    (JS.join "" (map (fun p => "/" ++ URI.encodeURIComponent p) l) ++ "/")
  = Some (JS.join "" (map (fun p => "/" ++ p) l) ++ "/").
Proof.
  induction 1 as [|a l Ha _ IH]; [reflexivity|].
  cbn [map]. rewrite !join_empty_cons.
  unfold URI.decodeURIComponent in *.
  rewrite !append_assoc. cbn [append] in IH |- *.
  rewrite decode_from_literal by reflexivity.
  rewrite (decode_encode_app a _ URI.U_start URI.U_start I
             (utf8_valid_run _ Ha)).
  rewrite IH. reflexivity.
Qed.

Section Crumbs.
Variables cwd dirname : string.
Variable localeCompare : string -> string -> Z.

(** X15. The breadcrumbs of a listing of the current server are the home
    link followed by one link per non-empty segment of the decoded request
    path, labelled with the segment; the link of the [k]-th segment is the
    first [k] segments of the decoded path, joined by slashes, between
    slashes, written without percent-encoding.  A segment holding ["%"]
    therefore gives a link that does not decode: the listing of
    [/docs/100%25] links to [/docs/100%/], which is answered 400. *)
Theorem breadcrumbs_are_decoded_prefixes
  (req : Request) (built : list Row) (fs : FS) :
  let parts :=
    JS.filterBoolean
      (JS.split "/" (safeDecodePath (JS.or_else (req_path req) "/"))) in
  let page := plainPage localeCompare req built in
  map snd (breadcrumbs page) = "Accueil" :: parts
  /\ (forall k p,
        nth_error parts k = Some p ->
        nth_error (breadcrumbs page) (S k)
        = Some ("/" ++ JS.join "/" (firstn (S k) parts) ++ "/", p))
  /\ breadcrumbs (plainPage localeCompare (mkRequest "GET" "/docs/100%25") built)
     = [("/", "Accueil"); ("/docs/", "docs"); ("/docs/100%/", "100%")]
  /\ app cwd dirname localeCompare (mkRequest "GET" "/docs/100%/") fs
     = (Respond 400 (Text "Chemin invalide"), []).
Proof.
  intros parts page. split; [|split; [|split; reflexivity]].
  - cbn [page plainPage breadcrumbs map snd]. now rewrite crumbsFrom_labels.
  - intros k p H. cbn [page plainPage breadcrumbs nth_error].
    fold parts. rewrite (crumbsFrom_nth _ _ _ _ _ H).
    rewrite join_slash_prefixed by exact (firstn_S_nonempty _ _ _ H).
    reflexivity.
Qed.

(** X16. In the two older servers each breadcrumb link is percent-encoded
    segment by segment, and decodes back to the path it stands for: the
    link of the [k]-th segment decodes to the first [k] segments of the
    decoded request path, joined by slashes, between slashes. *)
Theorem older_breadcrumbs_round_trip
  (req : Request) (built : list Row) (d : string) (k : nat) (p : string) :
  let parts := JS.filterBoolean (JS.split "/" d) in
  URI.decodeURIComponent (JS.or_else (req_path req) "/") = Some d ->
  Forall (fun q => URI.utf8_valid q = true) parts ->
  nth_error parts k = Some p ->
  forall page,
    Legacy.indexPage localeCompare req built = inr page
    \/ Sectioned.indexPage localeCompare req built = inr page ->
    exists h,
      nth_error (breadcrumbs page) (S k) = Some (h, p)
      /\ URI.decodeURIComponent h
         = Some ("/" ++ JS.join "/" (firstn (S k) parts) ++ "/").
Proof.
  intros parts Hd Hutf Hk page Hpage.
  assert (Hc : exists home,
               breadcrumbs page
               = home :: crumbsFrom (fun q => "/" ++ URI.encodeURIComponent q)
                           "" parts).
  { destruct Hpage as [H|H];
      unfold Legacy.indexPage, Sectioned.indexPage in H;
      rewrite Hd in H; injection H as <-; eexists; reflexivity. }
  destruct Hc as [home ->]. cbn [nth_error].
  rewrite (crumbsFrom_nth _ _ _ _ _ Hk). eexists. split; [reflexivity|].
  cbn [append]. rewrite decode_crumb.
  - now rewrite join_slash_prefixed by exact (firstn_S_nonempty _ _ _ Hk).
  - rewrite Forall_forall in Hutf |- *. intros q Hq. apply Hutf.
    rewrite <- (firstn_skipn (S k) parts). apply in_or_app. now left.
Qed.

End Crumbs.

Lemma older_breadcrumbs_round_trip_witness :
  exists h,
    nth_error
      (breadcrumbs
         (match Legacy.indexPage ordinalCompare
                  (mkRequest "GET" "/docs/a%20b%26c") [] with
          | inr page => page
          | inl _ => mkPage "" "" [] [] false false
          end)) 2
    = Some (h, "a b&c")
    /\ URI.decodeURIComponent h = Some "/docs/a b&c/".
Proof.
  refine (older_breadcrumbs_round_trip ordinalCompare
            (mkRequest "GET" "/docs/a%20b%26c") [] "/docs/a b&c" 1 "a b&c"
            eq_refl _ eq_refl _ (or_introl eq_refl)).
  repeat constructor.
Defined.

(** ** The parent link *)

Lemma single_segment_parts (seg : string) :
  slashFree seg = true -> seg <> "" ->
  JS.filterBoolean (JS.split "/" ("/" ++ seg)) = [seg]
  /\ JS.filterBoolean (JS.split "/" ("/" ++ seg ++ "/")) = [seg].
Proof.
  intros Hs Hne. apply String.eqb_neq in Hne.
  change ("/" ++ seg ++ "/") with (String "/" (seg ++ String "/" "")).
  change ("/" ++ seg) with (String "/" seg).
  rewrite !split_unfold. cbn [Ascii.eqb Bool.eqb].
  rewrite split_app_sep, split_slashFree_id by exact Hs.
  unfold JS.filterBoolean. cbn [JS.split List.app filter String.eqb negb].
  now rewrite Hne.
Qed.

Lemma parent_link_test (d : string) :
  let part0 := hd "undefined" (JS.filterBoolean (JS.split "/" d)) in
  negb (String.eqb d ("/" ++ part0 ++ "/")) && negb (String.eqb d ("/" ++ part0))
  = false
  <-> exists seg,
        slashFree seg = true /\ seg <> ""
        /\ (d = "/" ++ seg \/ d = "/" ++ seg ++ "/").
Proof.
  intros part0. split.
  - intros H.
    assert (Hd : d = "/" ++ part0 ++ "/" \/ d = "/" ++ part0).
    { destruct (String.eqb d ("/" ++ part0 ++ "/")) eqn:E1;
        [left; now apply String.eqb_eq|].
      destruct (String.eqb d ("/" ++ part0)) eqn:E2;
        [right; now apply String.eqb_eq|discriminate H]. }
    exists part0. split; [|split; [|tauto]].
    + unfold part0.
      destruct (JS.filterBoolean (JS.split "/" d)) as [|p l] eqn:E;
        [reflexivity|].
      assert (Hin : In p (JS.filterBoolean (JS.split "/" d)))
        by (rewrite E; now left).
      apply filter_In in Hin. destruct Hin as [Hin _].
      pose proof (split_all_slashFree d) as Hall.
      rewrite Forall_forall in Hall. now apply Hall.
    + unfold part0.
      destruct (JS.filterBoolean (JS.split "/" d)) as [|p l] eqn:E;
        [discriminate|].
      assert (Hin : In p (JS.filterBoolean (JS.split "/" d)))
        by (rewrite E; now left).
      apply filter_In in Hin. destruct Hin as [_ Hp].
      apply negb_true_iff in Hp. now apply String.eqb_neq.
  - intros [seg [Hs [Hne Hd]]].
    destruct (single_segment_parts seg Hs Hne) as [E1 E2].
    destruct Hd as [-> | ->]; subst part0.
    + rewrite E1. cbn [hd]. rewrite (string_eqb_refl ("/" ++ seg)).
      now rewrite andb_false_r.
    + rewrite E2. cbn [hd]. now rewrite (string_eqb_refl ("/" ++ seg ++ "/")).
Qed.

Section ParentLink.
Variable localeCompare : string -> string -> Z.

(** X17. A listing of the current server, and of the server with sections
    and without buckets, offers the link to the parent directory except
    when the decoded request path is one segment between a leading slash
    and at most one trailing slash, that is at a section root written
    [/docs] or [/docs/]; a root written [/docs//] does get the link.  The
    single-root server omits it exactly when the decoded path is ["/"] or
    empty. *)
Theorem parent_link_except_at_root (req : Request) (built : list Row) :
  (parentLink (plainPage localeCompare req built) = false
   <-> exists seg,
         slashFree seg = true /\ seg <> ""
         /\ (safeDecodePath (JS.or_else (req_path req) "/") = "/" ++ seg
             \/ safeDecodePath (JS.or_else (req_path req) "/")
                = "/" ++ seg ++ "/"))
  /\ (forall page d,
        Sectioned.indexPage localeCompare req built = inr page ->
        URI.decodeURIComponent (JS.or_else (req_path req) "/") = Some d ->
        (parentLink page = false
         <-> exists seg,
               slashFree seg = true /\ seg <> ""
               /\ (d = "/" ++ seg \/ d = "/" ++ seg ++ "/")))
  /\ (forall page d,
        Legacy.indexPage localeCompare req built = inr page ->
        URI.decodeURIComponent (JS.or_else (req_path req) "/") = Some d ->
        (parentLink page = false <-> d = "/" \/ d = ""))
  /\ map (fun p => parentLink
                     (plainPage localeCompare (mkRequest "GET" p) built))
       ["/docs"; "/docs/"; "/docs%2F"; "/docs//"; "/docs/sub"; "/games/solo"]
     = [false; false; false; true; true; true].
Proof.
  split; [|split; [|split; [|reflexivity]]].
  - apply parent_link_test.
  - intros page d H Hd. unfold Sectioned.indexPage in H. rewrite Hd in H.
    injection H as <-. apply parent_link_test.
  - intros page d H Hd. unfold Legacy.indexPage in H. rewrite Hd in H.
    injection H as <-. cbn [parentLink].
    destruct (String.eqb d "/") eqn:E1.
    + apply String.eqb_eq in E1. now split; [left|].
    + destruct (String.eqb d "") eqn:E2.
      * apply String.eqb_eq in E2. now split; [right|].
      * apply String.eqb_neq in E1, E2. split; [discriminate|tauto].
Qed.

End ParentLink.

(** ** Sizes *)

Section SizeFormat.
Variables nf1 nf0 nf : QArith_base.Q -> string.

Lemma ten_times_test (bytes : N) (value : positive) :
  QArith_base.Qle_bool (QArith_base.inject_Z 10)
    (QArith_base.Qmake (Z.of_N bytes) value)
  = (10 * Npos value <=? bytes)%N.
Proof.
  unfold QArith_base.Qle_bool. cbn [QArith_base.Qnum QArith_base.Qden
                                     QArith_base.inject_Z].
  destruct (10 * Npos value <=? bytes)%N eqn:E.
  - apply N.leb_le in E. apply Z.leb_le. lia.
  - apply N.leb_gt in E. apply Z.leb_gt. lia.
Qed.

(** X18. [formatSizeFR] writes a size in the largest of the units Go, Mo,
    Ko that it reaches, and in octets, unscaled, below 1024.  The number
    handed to the formatter is the size divided by the unit: at least 1,
    and below 1024 except in Go; it is written without fraction digit from
    10 on and with at most one below. *)
Theorem formatSizeFR_unit (bytes : N) :
  ((bytes < 1024)%N ->
   formatSizeFR nf1 nf0 nf bytes
   = nf (QArith_base.inject_Z (Z.of_N bytes)) ++ " o")
  /\ ((1024 <= bytes)%N ->
      exists unit value,
        In (unit, value) UNITS
        /\ (Npos value <= bytes)%N
        /\ (unit <> "Go" -> (bytes < 1024 * Npos value)%N)
        /\ formatSizeFR nf1 nf0 nf bytes
           = (if (10 * Npos value <=? bytes)%N then nf0 else nf1)
               (QArith_base.Qmake (Z.of_N bytes) value)
             ++ " " ++ unit).
Proof.
  unfold formatSizeFR, UNITS. cbn [formatUnits]. rewrite !ten_times_test.
  change (1024 ^ 3)%positive with 1073741824%positive.
  change (1024 ^ 2)%positive with 1048576%positive.
  destruct (1073741824 <=? bytes)%N eqn:E3;
    [apply N.leb_le in E3|apply N.leb_gt in E3].
  { split; [lia|]. intros _. exists "Go", 1073741824%positive.
    split; [now left|]. split; [exact E3|]. split; [congruence|].
    now destruct (10 * 1073741824 <=? bytes)%N. }
  destruct (1048576 <=? bytes)%N eqn:E2;
    [apply N.leb_le in E2|apply N.leb_gt in E2].
  { split; [lia|]. intros _. exists "Mo", 1048576%positive.
    split; [right; now left|]. split; [exact E2|]. split; [lia|].
    now destruct (10 * 1048576 <=? bytes)%N. }
  destruct (1024 <=? bytes)%N eqn:E1;
    [apply N.leb_le in E1|apply N.leb_gt in E1].
  { split; [lia|]. intros _. exists "Ko", 1024%positive.
    split; [right; right; now left|]. split; [exact E1|]. split; [lia|].
    now destruct (10 * 1024 <=? bytes)%N. }
  split; [reflexivity|lia].
Qed.

End SizeFormat.

(** ** The older servers stay inside their roots *)

Lemma legacy_listRows_log (req : Request) (abs : string)
  (entries : list Dirent) (fs : FS) (op : FsOp) :
  In op (snd (Legacy.listRows req abs entries fs)) ->
  In op (statCalls abs entries).
Proof.
  induction entries as [|e more IH]; [intros []|].
  cbn [Legacy.listRows statCalls map]. rewrite bind_lstat.
  destruct (fs_lstat fs (Path.join [abs; d_name e])) as [err|s].
  - cbn [ret snd]. intros [<-|[]]. now left.
  - unfold bind.
    destruct (Legacy.listRows req abs more fs) as [[err|rows] t];
      cbn [ret snd] in IH |- *; rewrite app_nil_r;
      (intros [<-|H]; [now left|right; now apply IH]).
Qed.

Section OlderConfinement.
Variables cwd dirname : string.
Variable localeCompare : string -> string -> Z.
Hypothesis dirname_absolute : Path.isAbsolute dirname = true.

Lemma older_resolved_within (root p abs : string) (rsegs : list string) :
  okSegments rsegs -> rsegs <> [] -> root = "/" ++ JS.join "/" rsegs ->
  Legacy.resolvePathSafe cwd root p = inr (Some abs) ->
  normalizedAbsolute abs /\ within root abs.
Proof.
  intros Hr Hne Er H. rewrite legacy_resolvePathSafe_eq in H.
  destruct (URI.decodeURIComponent (JS.or_else p "/")); [|discriminate H].
  injection H as H.
  apply (resolvePathSafe_contained cwd root p abs); [| |exact H].
  - now rewrite Er.
  - rewrite Er. now apply normalized_no_trailing_sep.
Qed.

Lemma older_listing_log (req : Request) (fs : FS) (root abs : string)
  (rsegs : list string) (op : FsOp) (k : Exn + list Row -> IO Outcome) :
  wellNamed fs ->
  okSegments rsegs -> rsegs <> [] -> root = "/" ++ JS.join "/" rsegs ->
  normalizedAbsolute abs -> within root abs ->
  (forall r, snd (k r fs) = []) ->
  In op
    (snd ((st <- lstat abs ;;
           match st with
           | inl _ => ret (Respond 404 (Text "Introuvable"))
           | inr s =>
               if negb (isDirectory (st_kind s)) then ret Next
               else
                 l <- readdir abs ;;
                 match l with
                 | inl e => ret (NextErr (FsError e))
                 | inr entries => r <- Legacy.listRows req abs entries ;; k r
                 end
           end) fs)) ->
  within root (opPath op).
Proof.
  intros Hfs Hr Hne Er Hn Hw Hk. rewrite bind_lstat.
  destruct (fs_lstat fs abs) as [err|s]; [intros [<-|[]]; exact Hw|].
  destruct (negb (isDirectory (st_kind s))); [intros [<-|[]]; exact Hw|].
  rewrite bind_readdir.
  destruct (fs_readdir fs abs) as [err|entries] eqn:Hrd;
    [intros [<-|[<-|[]]]; exact Hw|].
  unfold bind.
  destruct (Legacy.listRows req abs entries fs) as [r t] eqn:El.
  specialize (Hk r). destruct (k r fs) as [o t']. cbn [snd] in Hk |- *.
  subst t'. rewrite app_nil_r.
  intros [<-|[<-|H]]; try exact Hw.
  apply (statCalls_within root abs rsegs entries op Hr Hne Er Hn Hw
           (Hfs _ _ Hrd)).
  apply (legacy_listRows_log req abs entries fs). now rewrite El.
Qed.

(** X19. The same bound on path strings for the two older servers: every
    path that [src/server.js] passes to [lstat], [readdir] or
    [res.sendFile] is [ROOT], or [ROOT] followed by a slash and ordinary
    segments (none empty, [.] or [..]); every path that the server with
    sections passes to them is, in the same sense, the root of the section
    the request matches or a path below it.  As for the current server the
    bound is on the names: a symbolic link below the root is followed
    wherever it points.  ([readdir] is assumed to return entry names.) *)
Theorem older_servers_confined (req : Request) (fs : FS) (op : FsOp) :
  wellNamed fs ->
  (In op (snd (Legacy.app cwd dirname localeCompare req fs)) ->
   within (Legacy.ROOT cwd dirname) (opPath op))
  /\ (In op (snd (Sectioned.app cwd dirname localeCompare req fs)) ->
      exists key root,
        Sectioned.matchSection cwd dirname (req_path req) = Some key
        /\ lookupSection (Sectioned.SECTIONS cwd dirname) key = Some root
        /\ within root (opPath op)).
Proof.
  intros Hfs. split.
  - destruct (ROOT_normalized cwd dirname dirname_absolute) as [dsegs [Hd ER]].
    change (ROOT cwd dirname) with (Legacy.ROOT cwd dirname) in ER.
    assert (Hr : okSegments (dsegs ++ ["files"]))
      by (apply okSegments_app; [exact Hd | repeat constructor]).
    assert (Hne : (dsegs ++ ["files"])%list <> [])
      by (intros H; apply app_eq_nil in H as [_ H]; discriminate H).
    intros Hin.
    assert (Hin' : In op (snd (Legacy.downloadHandler cwd dirname req fs))
                   \/ In op (snd (Legacy.indexHandler cwd dirname localeCompare
                                    req fs))).
    { rewrite legacy_app_eq in Hin.
      destruct (Legacy.downloadHandler cwd dirname req fs) as [o t1].
      destruct (Legacy.indexHandler cwd dirname localeCompare req fs)
        as [o' t2].
      cbn [snd] in Hin |- *. destruct o; try tauto.
      cbn [snd] in Hin. apply in_app_or in Hin. tauto. }
    destruct Hin' as [H|H].
    + rewrite legacy_downloadHandler_eq in H.
      destruct (Legacy.resolvePathSafe cwd (Legacy.ROOT cwd dirname)
                  (req_path req)) as [e|[abs|]] eqn:Hres;
        try (destruct H as []).
      destruct (older_resolved_within _ _ _ _ Hr Hne ER Hres) as [_ Hw].
      destruct (fs_lstat fs abs) as [err|s]; [destruct H as [<-|[]]; exact Hw|].
      destruct (isDirectory (st_kind s)); [destruct H as [<-|[]]; exact Hw|].
      pose proof (handOver_log abs op) as Hh.
      destruct (handOver abs) as [o t]. cbn [snd] in Hh, H.
      destruct H as [<-|H]; [exact Hw|]. rewrite (Hh H). exact Hw.
    + unfold Legacy.indexHandler in H.
      destruct (negb (isGetOrHead (req_method req))); [destruct H as []|].
      destruct (Legacy.resolvePathSafe cwd (Legacy.ROOT cwd dirname)
                  (req_path req)) as [e|[abs|]] eqn:Hres;
        try (destruct H as []).
      destruct (older_resolved_within _ _ _ _ Hr Hne ER Hres) as [Hn Hw].
      refine (older_listing_log req fs _ abs _ op _ Hfs Hr Hne ER Hn Hw _ H).
      intros [e|rows]; [reflexivity|].
      now destruct (Legacy.indexPage localeCompare req rows).
  - intros Hin.
    destruct (Sectioned.matchSection cwd dirname (req_path req)) as [key|]
      eqn:Hm.
    2:{ unfold Sectioned.app, Sectioned.downloadHandler,
          Sectioned.indexHandler in Hin. rewrite Hm in Hin.
        destruct (homeRoute req); [destruct Hin|].
        destruct (isGetOrHead (req_method req)); cbn [negb] in Hin;
          destruct Hin. }
    destruct (sectioned_matched _ _ _ _ Hm) as [Hp [root Hl]].
    exists key, root. split; [reflexivity|]. split; [exact Hl|].
    assert (Hroot : exists rsegs,
               okSegments rsegs /\ rsegs <> []
               /\ root = "/" ++ JS.join "/" rsegs).
    { unfold Sectioned.SECTIONS in Hl. cbn [lookupSection] in Hl.
      change (Sectioned.ROOT cwd dirname) with (ROOT cwd dirname) in Hl.
      destruct (String.eqb "/games" key).
      - injection Hl as <-.
        apply (under_ROOT_normalized cwd dirname dirname_absolute);
          [repeat constructor|discriminate].
      - destruct (String.eqb "/docs" key); [|discriminate Hl].
        injection Hl as <-.
        apply (under_ROOT_normalized cwd dirname dirname_absolute);
          [repeat constructor|discriminate]. }
    destruct Hroot as [rsegs [Hr [Hne Er]]].
    assert (Hin' : In op (snd (Sectioned.downloadHandler cwd dirname req fs))
                   \/ In op (snd (Sectioned.indexHandler cwd dirname
                                    localeCompare req fs))).
    { rewrite (sectioned_app_eq _ _ _ req fs (homeRoute_not_home req Hp)) in Hin.
      destruct (Sectioned.downloadHandler cwd dirname req fs) as [o t1].
      destruct (Sectioned.indexHandler cwd dirname localeCompare req fs)
        as [o' t2].
      cbn [snd] in Hin |- *. destruct o; try tauto.
      cbn [snd] in Hin. apply in_app_or in Hin. tauto. }
    destruct Hin' as [H|H].
    + rewrite (sectioned_downloadHandler_eq _ _ req fs key root Hm Hl) in H.
      destruct (Sectioned.resolvePathSafe cwd root (relOf key req))
        as [e|[abs|]] eqn:Hres; try (destruct H as []).
      destruct (older_resolved_within _ _ _ _ Hr Hne Er Hres) as [_ Hw].
      destruct (fs_lstat fs abs) as [err|s]; [destruct H as [<-|[]]; exact Hw|].
      destruct (isDirectory (st_kind s)); [destruct H as [<-|[]]; exact Hw|].
      pose proof (handOver_log abs op) as Hh.
      destruct (handOver abs) as [o t]. cbn [snd] in Hh, H.
      destruct H as [<-|H]; [exact Hw|]. rewrite (Hh H). exact Hw.
    + unfold Sectioned.indexHandler in H. rewrite Hm, Hl in H.
      destruct (negb (isGetOrHead (req_method req))); [destruct H as []|].
      destruct (Sectioned.resolvePathSafe cwd root (relOf key req))
        as [e|[abs|]] eqn:Hres; try (destruct H as []).
      destruct (older_resolved_within _ _ _ _ Hr Hne Er Hres) as [Hn Hw].
      refine (older_listing_log req fs _ abs _ op _ Hfs Hr Hne Er Hn Hw _ H).
      intros [e|rows]; [reflexivity|].
      now destruct (Sectioned.indexPage localeCompare req rows).
Qed.

End OlderConfinement.

Lemma older_servers_confined_witness :
  within (Legacy.ROOT "/" "/app") "/app/files/docs/broken/x".
Proof.
  refine (proj1 (older_servers_confined "/" "/app" ordinalCompare eq_refl
                   (mkRequest "GET" "/docs/broken") exampleFS
                   (OpLstat "/app/files/docs/broken/x") exampleFS_wellNamed) _).
  vm_compute. tauto.
Defined.

(** ** When a file is sent, and when nothing answers *)

Section Outcomes.
Variables cwd dirname : string.
Variable localeCompare : string -> string -> Z.

Lemma games_key_test (key : string) :
  (key = "/games" -> String.eqb key "/games" = true)
  /\ (String.eqb key "/games" = true -> key = "/games").
Proof.
  split; [intros ->; reflexivity|apply String.eqb_eq].
Qed.

(** X20. The current server hands a file to [send] in exactly one
    situation: the request path matches a section, passes the [/games]
    filter, resolves inside the section root, [lstat] there reports
    anything but a directory (a regular file, but also a symbolic link,
    which [lstat] does not follow), the [Content-Disposition] header can
    be set for the last segment of the resolved path and [send] accepts
    the path (no segment of it begins with a dot).  The download is then
    named by that last segment and the log is the [lstat] and the
    [sendFile]. *)
Theorem file_sent_iff
  (req : Request) (fs : FS) (abs fname cc : string) (log : list FsOp) :
  app cwd dirname localeCompare req fs = (Download abs fname cc, log)
  <-> exists key root s,
        matchSection cwd dirname (req_path req) = Some key
        /\ lookupSection (SECTIONS cwd dirname) key = Some root
        /\ (key = "/games" -> isAllowedGamesRel (relOf key req) = true)
        /\ resolvePathSafe cwd root (relOf key req) = Some abs
        /\ fs_lstat fs abs = inr s
        /\ isDirectory (st_kind s) = false
        /\ deliverable abs = true
        /\ fname = Path.basename abs
        /\ cc = "public, max-age=86400, immutable"
        /\ log = [OpLstat abs; OpSendFile abs].
Proof.
  split.
  - intros H.
    destruct (matchSection cwd dirname (req_path req)) as [key|] eqn:Hm.
    2:{ rewrite (app_unmatched _ _ _ req fs Hm) in H.
        destruct (homeRoute req); discriminate H. }
    destruct (lookupSection_matched _ _ _ _ Hm) as [root Hl].
    destruct (app_answers_unless_file cwd dirname localeCompare req fs key root
                Hm Hl)
      as [[Hg [a [s [Hres [Hst Hd]]]]]|[status [body [log' E]]]].
    2:{ rewrite E in H. discriminate H. }
    rewrite (app_not_directory _ _ _ req fs _ _ a s Hm Hl Hg Hres Hst Hd) in H.
    destruct (deliverable a) eqn:D; [|discriminate H].
    injection H as <- <- <- <-.
    exists key, root, s.
    refine (conj eq_refl (conj Hl (conj _ (conj Hres (conj Hst
              (conj Hd (conj D (conj eq_refl (conj eq_refl eq_refl))))))))).
    intros ->. cbn [String.eqb Ascii.eqb Bool.eqb andb] in Hg.
    now apply negb_false_iff in Hg.
  - intros [key [root [s [Hm [Hl [Hf [Hres [Hst [Hd [D [-> [-> ->]]]]]]]]]]]].
    assert (Hc : String.eqb key "/games"
                 && negb (isAllowedGamesRel (relOf key req)) = false).
    { destruct (String.eqb key "/games") eqn:Ek; [|reflexivity].
      apply String.eqb_eq in Ek. now rewrite (Hf Ek). }
    now rewrite (app_not_directory _ _ _ req fs _ _ abs s Hm Hl Hc Hres Hst Hd), D.
Qed.

(** X21. Every handler of the current server passes, so that the request
    is left to the framework (Express's final handler), exactly for the
    paths that match no section, the home route apart ([GET] and [HEAD] of [/]
    and of [//]): under [/docs] and [/games] every request is answered by
    one of the handlers, with a response or a file.  (The disk is taken
    not to change between the two [lstat] calls of one request.) *)
Theorem falls_through_iff_unmatched (req : Request) (fs : FS) :
  fst (app cwd dirname localeCompare req fs) = Next
  <-> matchSection cwd dirname (req_path req) = None
      /\ homeRoute req = false.
Proof.
  split.
  - intros H.
    destruct (matchSection cwd dirname (req_path req)) as [key|] eqn:Hm.
    2:{ rewrite (app_unmatched _ _ _ req fs Hm) in H. split; [reflexivity|].
        destruct (homeRoute req); [discriminate H|reflexivity]. }
    exfalso.
    destruct (lookupSection_matched _ _ _ _ Hm) as [root Hl].
    destruct (app_answers_unless_file cwd dirname localeCompare req fs key root
                Hm Hl)
      as [[Hg [a [s [Hres [Hst Hd]]]]]|[status [body [log' E]]]].
    2:{ rewrite E in H. discriminate H. }
    rewrite (app_not_directory _ _ _ req fs _ _ a s Hm Hl Hg Hres Hst Hd) in H.
    destruct (deliverable a); discriminate H.
  - intros [Hm Hh]. rewrite (app_unmatched _ _ _ req fs Hm), Hh. reflexivity.
Qed.

(** The home route on its second path, and a path it does not match. *)
Example home_route_double_slash (fs : FS) :
  app cwd dirname localeCompare (mkRequest "GET" "//") fs
  = (Respond 200 HomePage, [])
  /\ app cwd dirname localeCompare (mkRequest "POST" "//") fs = (Next, []).
Proof. split; reflexivity. Qed.

End Outcomes.

(** ** Links of the older listings *)

Lemma href_resolves
  (cwd root key : string) (req : Request) (abs d : string) (e : Dirent) :
  Path.isAbsolute root = true ->
  JS.endsWith root Path.sep = false ->
  JS.endsWith key "/" = false ->
  req_path req = key
  \/ (exists t, req_path req = key ++ "/" ++ t)
  \/ (exists t, req_path req = key ++ "%2F" ++ t) ->
  URI.decodeURIComponent (relOf key req) = Some d ->
  abs = Path.resolve cwd [root; "." ++ d] ->
  JS.startsWith abs (root ++ Path.sep) = true \/ abs = root ->
  okSegment (d_name e) = true ->
  URI.utf8_valid (d_name e) = true ->
  exists rel',
    (if JS.endsWith (req_path req) "/" then req_path req
     else req_path req ++ "/")
      ++ URI.encodeURIComponent (d_name e)
      ++ (if isDirectory (d_kind e) then "/" else "")
    = key ++ rel'
    /\ rel' <> ""
    /\ (exists t, rel' = "/" ++ t \/ rel' = "%2F" ++ t)
    /\ (exists dd, URI.decodeURIComponent rel' = Some dd)
    /\ resolvePathSafe cwd root rel' = Some (Path.join [abs; d_name e]).
Proof.
  intros Hroot Hsep Hkeysep Hpath Hdec Habs Hchk Hok Hutf.
  destruct (base_decomposition req key d Hkeysep Hpath Hdec)
    as [rel0 [d0 [Hbase [Hdec0 Hd]]]].
  set (trailing := isDirectory (d_kind e)).
  destruct (resolvePathSafe_child cwd root rel0 d0 d abs (d_name e) trailing
              Hroot Hsep Hok Hutf Hdec0 Hd Habs Hchk) as [Hdec' Hres'].
  eexists. split; [rewrite Hbase, !append_assoc; reflexivity|].
  split; [intros E; apply append_eq_nil in E as [_ E]; discriminate E|].
  split; [|split; [eexists; exact Hdec'|exact Hres']].
  destruct Hpath as [Hp|[[t Hp]|[t Hp]]]; rewrite Hp in Hbase.
  - rewrite Hkeysep in Hbase.
    apply append_inv_head in Hbase.
    destruct rel0 as [|c r]; [eexists; left; reflexivity|].
    cbn [append] in Hbase. injection Hbase as _ Hb. symmetry in Hb.
    apply append_eq_nil in Hb as [_ Hb]. discriminate Hb.
  - assert (E : exists u, key ++ rel0 ++ "/" = key ++ "/" ++ u).
    { rewrite <- Hbase. destruct (JS.endsWith (key ++ "/" ++ t) "/");
        eexists; rewrite ?append_assoc; reflexivity. }
    destruct E as [u E]. apply append_inv_head in E.
    destruct rel0 as [|c r]; [eexists; left; reflexivity|].
    cbn [append] in E. injection E as -> _. eexists. left. reflexivity.
  - assert (E : exists u, key ++ rel0 ++ "/" = key ++ "%2F" ++ u).
    { rewrite <- Hbase. destruct (JS.endsWith (key ++ "%2F" ++ t) "/");
        eexists; rewrite ?append_assoc; reflexivity. }
    destruct E as [u E]. apply append_inv_head in E.
    destruct rel0 as [|c0 [|c1 [|c2 r]]]; try discriminate E.
    cbn [append] in E. injection E as -> -> -> _.
    eexists. right. reflexivity.
Qed.

Section SectionTable.
Variables cwd dirname : string.

(** The two section keys exclude each other, so that the order of the
    table does not matter. *)
Lemma sectioned_matchSection_eq (urlPath : string) :
  Sectioned.matchSection cwd dirname urlPath = matchSection cwd dirname urlPath.
Proof.
  unfold Sectioned.matchSection, matchSection, Sectioned.SECTIONS, SECTIONS.
  cbn [map fst matchSectionIn].
  destruct (String.eqb urlPath "/games" || _ || _) eqn:Eg;
    destruct (String.eqb urlPath "/docs" || _ || _) eqn:Ed; try reflexivity.
  apply section_test_iff in Eg, Ed. exfalso.
  destruct Eg as [->|[[t ->]|[t ->]]];
    destruct Ed as [E|[[u E]|[u E]]]; discriminate E.
Qed.

Lemma sectioned_lookup_eq (key : string) :
  lookupSection (Sectioned.SECTIONS cwd dirname) key
  = lookupSection (SECTIONS cwd dirname) key.
Proof.
  unfold Sectioned.SECTIONS, SECTIONS. cbn [lookupSection].
  destruct (String.eqb "/games" key) eqn:Eg;
    destruct (String.eqb "/docs" key) eqn:Ed; try reflexivity.
  apply String.eqb_eq in Eg, Ed. congruence.
Qed.

End SectionTable.

Section OlderLinks.
Variables cwd dirname : string.
Hypothesis dirname_absolute : Path.isAbsolute dirname = true.

(** X22. The links of the listings of the two older servers lead to the
    entries they list: for an entry name that is an ordinary segment, the
    [href] of its row, requested again, is resolved to
    [path.join(abs, name)], where [abs] is the directory being listed (and,
    in the server with sections, matches the same section). *)
Theorem older_href_round_trip
  (req : Request) (abs : string) (e : Dirent) (s : Stats) (method : string) :
  okSegment (d_name e) = true ->
  URI.utf8_valid (d_name e) = true ->
  let row := Legacy.plainRow req e s in
  let again := mkRequest method (href row) in
  (Path.isAbsolute (req_path req) = true ->
   Legacy.resolvePathSafe cwd (Legacy.ROOT cwd dirname) (req_path req)
   = inr (Some abs) ->
   Legacy.resolvePathSafe cwd (Legacy.ROOT cwd dirname) (req_path again)
   = inr (Some (Path.join [abs; d_name e])))
  /\ (forall key root,
        Sectioned.matchSection cwd dirname (req_path req) = Some key ->
        lookupSection (Sectioned.SECTIONS cwd dirname) key = Some root ->
        Sectioned.resolvePathSafe cwd root (relOf key req) = inr (Some abs) ->
        Sectioned.matchSection cwd dirname (req_path again) = Some key
        /\ Sectioned.resolvePathSafe cwd root (relOf key again)
           = inr (Some (Path.join [abs; d_name e]))).
Proof.
  intros Hok Hutf row again. split.
  - intros Hp Hres.
    destruct (ROOT_normalized cwd dirname dirname_absolute) as [dsegs [Hd ER]].
    change (ROOT cwd dirname) with (Legacy.ROOT cwd dirname) in ER.
    assert (Hr : okSegments (dsegs ++ ["files"]))
      by (apply okSegments_app; [exact Hd | repeat constructor]).
    assert (Hne : (dsegs ++ ["files"])%list <> [])
      by (intros H; apply app_eq_nil in H as [_ H]; discriminate H).
    assert (Hroot : Path.isAbsolute (Legacy.ROOT cwd dirname) = true)
      by now rewrite ER.
    assert (Hsep : JS.endsWith (Legacy.ROOT cwd dirname) Path.sep = false)
      by (rewrite ER; now apply normalized_no_trailing_sep).
    rewrite legacy_resolvePathSafe_eq in Hres.
    destruct (URI.decodeURIComponent (JS.or_else (req_path req) "/"))
      as [d|] eqn:Hdec; [|discriminate Hres].
    injection Hres as Hres.
    apply resolvePathSafe_Some_inv in Hres as [d' [Hdec' [Habs Hchk]]].
    rewrite Hdec in Hdec'. injection Hdec' as <-. rewrite Hsep in Hchk.
    apply isAbsolute_iff in Hp as [q Hq].
    destruct (href_resolves cwd (Legacy.ROOT cwd dirname) "" req abs d e
                Hroot Hsep eq_refl
                (or_intror (or_introl (ex_intro _ q Hq)))
                Hdec Habs Hchk Hok Hutf)
      as [rel' [Hh [Hrne [_ [[dd Hdd] Hres']]]]].
    cbn [append] in Hh.
    assert (Ea : req_path again = rel') by exact Hh.
    rewrite Ea, legacy_resolvePathSafe_eq.
    now rewrite (or_else_nonempty _ _ Hrne), Hdd, Hres'.
  - intros key root Hm Hl Hres.
    rewrite sectioned_matchSection_eq in Hm |- *.
    rewrite sectioned_lookup_eq in Hl.
    destruct (section_root_canonical cwd dirname dirname_absolute _ _ Hl)
      as [Hroot Hsep].
    pose proof Hm as Hm'. apply matchSection_iff in Hm' as [Hkey Hpath].
    pose proof (section_key_no_trailing_slash cwd dirname key Hkey) as Hks.
    rewrite sectioned_resolvePathSafe_eq in Hres.
    rewrite (or_else_nonempty _ _ (relOf_nonempty key req)) in Hres.
    destruct (URI.decodeURIComponent (relOf key req)) as [d|] eqn:Hdec;
      [|discriminate Hres].
    injection Hres as Hres.
    apply resolvePathSafe_Some_inv in Hres as [d' [Hdec' [Habs Hchk]]].
    rewrite (or_else_nonempty _ _ (relOf_nonempty key req)), Hdec in Hdec'.
    injection Hdec' as <-. rewrite Hsep in Hchk.
    destruct (href_resolves cwd root key req abs d e
                Hroot Hsep Hks Hpath Hdec Habs Hchk Hok Hutf)
      as [rel' [Hh [Hrne [[t Ht] [[dd Hdd] Hres']]]]].
    assert (Ea : req_path again = key ++ rel') by exact Hh.
    assert (Hrel : relOf key again = rel').
    { unfold again. change (href row) with (req_path again). rewrite Ea.
      now apply relOf_app. }
    split.
    + rewrite Ea. apply matchSection_iff. split; [exact Hkey|].
      destruct Ht as [-> | ->]; [right; left|right; right]; now exists t.
    + rewrite Hrel, sectioned_resolvePathSafe_eq.
      now rewrite (or_else_nonempty _ _ Hrne), Hdd, Hres'.
Qed.

End OlderLinks.

Lemma older_href_round_trip_witness :
  Legacy.resolvePathSafe "/" (Legacy.ROOT "/" "/app") "/docs/a%20b%26c/"
  = inr (Some "/app/files/docs/a b&c").
Proof.
  exact (proj1
    (older_href_round_trip "/" "/app" eq_refl (mkRequest "GET" "/docs")
       "/app/files/docs" (mkDirent "a b&c" KDirectory)
       (exampleStats KDirectory) "GET" eq_refl eq_refl)
    eq_refl eq_refl).
Defined.

(** ** Title and heading of a listing *)

Lemma decode_separator (rest : string) :
  (exists t, rest = "/" ++ t) \/ (exists t, rest = "%2F" ++ t) ->
  forall d, URI.decodeURIComponent rest = Some d -> exists d', d = "/" ++ d'.
Proof.
  unfold URI.decodeURIComponent.
  intros [[t ->]|[t ->]] d H.
  - cbn [append] in H. rewrite decode_from_literal in H by reflexivity.
    destruct (URI.decode_from URI.U_start t) as [d'|]; [|discriminate H].
    injection H as <-. now exists d'.
  - cbn [append] in H. rewrite decode_from_pct in H.
    change (URI.hexval "2") with (Some 2%N) in H.
    change (URI.hexval "F") with (Some 15%N) in H.
    cbv beta iota in H.
    change (URI.utf8_step URI.U_start (16 * 2 + 15)) with (Some URI.U_start) in H.
    cbv beta iota in H.
    destruct (URI.decode_from URI.U_start t) as [d'|]; [|discriminate H].
    injection H as <-. now exists d'.
Qed.

Section Titles.
Variables cwd dirname : string.
Variable localeCompare : string -> string -> Z.

(** X23. Whenever the relative path of a section request decodes, as it
    does for every listing that is built, the whole request path decodes
    too and [safeDecodePath] never falls back on the raw path: the title of
    the page is the section key followed by the decoded relative path, and
    its heading is the name of the section, [docs] or [games]. *)
Theorem listing_title_and_heading
  (req : Request) (built : list Row) (key d : string) :
  matchSection cwd dirname (req_path req) = Some key ->
  URI.decodeURIComponent (relOf key req) = Some d ->
  let page := plainPage localeCompare req built in
  URI.decodeURIComponent (req_path req)
  = Some (if String.eqb (req_path req) key then key else key ++ d)
  /\ title page = (if String.eqb (req_path req) key then key else key ++ d)
  /\ heading page = JS.slice 1 key.
Proof.
  intros Hm Hdec page.
  apply matchSection_iff in Hm. destruct Hm as [Hkey Hpath].
  assert (Hk : key = "/docs" \/ key = "/games").
  { destruct Hkey as [<-|[<-|[]]]; tauto. }
  assert (Hkd : forall rest,
             URI.decodeURIComponent (key ++ rest)
             = option_map (append key) (URI.decodeURIComponent rest)).
  { intros rest. apply decode_from_app.
    destruct Hk as [-> | ->]; reflexivity. }
  assert (Hy : req_path req = key
               \/ exists rest,
                    ((exists t, rest = "/" ++ t) \/ (exists t, rest = "%2F" ++ t))
                    /\ req_path req = key ++ rest).
  { destruct Hpath as [H|[[t H]|[t H]]]; [now left| |];
      right; eexists; (split; [|exact H]); [left|right]; now exists t. }
  unfold page, plainPage. cbn [title heading]. unfold safeDecodePath.
  destruct req as [m path]. cbn [req_path] in *.
  destruct Hy as [->|[rest [Hrest ->]]].
  - rewrite string_eqb_refl.
    destruct Hk as [-> | ->]; repeat split.
  - assert (Hne : rest <> "")
      by (destruct Hrest as [[t ->]|[t ->]]; discriminate).
    rewrite (relOf_app key rest m Hne) in Hdec.
    destruct (decode_separator rest Hrest d Hdec) as [d' ->].
    assert (Hneq : String.eqb (key ++ rest) key = false).
    { apply String.eqb_neq. intros E.
      rewrite <- (append_nil_r key) in E at 2.
      apply append_inv_head in E. contradiction. }
    assert (Hne' : key ++ rest <> "")
      by (destruct Hk as [-> | ->]; discriminate).
    rewrite Hneq, (or_else_nonempty _ _ Hne'), Hkd, Hdec.
    cbn [option_map]. split; [reflexivity|]. split; [reflexivity|].
    change (key ++ "/" ++ d') with (key ++ String "/" d').
    rewrite split_app_sep.
    destruct Hk as [-> | ->]; reflexivity.
Qed.

End Titles.

Lemma listing_title_and_heading_witness :
  let page :=
    plainPage ordinalCompare (mkRequest "GET" "/docs%2Fa%20b%26c/") [] in
  title page = "/docs/a b&c/" /\ heading page = "docs".
Proof.
  exact (proj2
    (listing_title_and_heading "/" "/app" ordinalCompare
       (mkRequest "GET" "/docs%2Fa%20b%26c/") [] "/docs" "/a b&c/"
       eq_refl eq_refl)).
Defined.

(** ** The section table *)

Section Disjoint.
Variables cwd dirname : string.

(** X24. The sections exclude each other: no request path passes the
    test of [matchSection] for both keys, so that the answer does not
    depend on the order in which the table is enumerated, and the server
    with sections and the current server, whose tables are in opposite
    orders, match every path to the same section and the same physical
    root. *)
Theorem sections_are_disjoint (urlPath : string) :
  ~ (matchSectionIn ["/docs"] urlPath = Some "/docs"
     /\ matchSectionIn ["/games"] urlPath = Some "/games")
  /\ matchSectionIn ["/games"; "/docs"] urlPath
     = matchSectionIn ["/docs"; "/games"] urlPath
  /\ Sectioned.matchSection cwd dirname urlPath = matchSection cwd dirname urlPath
  /\ (forall key,
        lookupSection (Sectioned.SECTIONS cwd dirname) key
        = lookupSection (SECTIONS cwd dirname) key).
Proof.
  split; [|split; [|split]].
  - cbn [matchSectionIn]. intros [Hd Hg].
    destruct (String.eqb urlPath "/docs" || _ || _) eqn:Ed; [|discriminate Hd].
    destruct (String.eqb urlPath "/games" || _ || _) eqn:Eg; [|discriminate Hg].
    apply section_test_iff in Eg, Ed.
    destruct Eg as [->|[[t ->]|[t ->]]];
      destruct Ed as [E|[[u E]|[u E]]]; discriminate E.
  - exact (sectioned_matchSection_eq cwd dirname urlPath).
  - apply sectioned_matchSection_eq.
  - apply sectioned_lookup_eq.
Qed.

End Disjoint.

(** ** The spellings of the [/games] root *)

Section GamesRootSpellings.
Variables cwd dirname : string.
Variable localeCompare : string -> string -> Z.
Hypothesis dirname_absolute : Path.isAbsolute dirname = true.

Local Abbreviation gamesRoot' := (Path.join [ROOT cwd dirname; "games"]).

Lemma resolve_double_slash :
  resolvePathSafe cwd gamesRoot' "//" = Some gamesRoot'.
Proof.
  destruct (gamesRoot_normalized cwd dirname dirname_absolute)
    as [rsegs [Hok [_ E]]].
  rewrite E. unfold resolvePathSafe.
  change (URI.decodeURIComponent (JS.or_else "//" "/")) with (Some "//").
  cbv beta iota zeta. rewrite resolve_on_normalized by exact Hok.
  change (JS.split "/" ("." ++ "//")) with ["."; ""; ""].
  cbn [Path.normalizeSegs String.eqb Ascii.eqb Bool.eqb orb].
  rewrite rev_involutive, string_eqb_refl. cbn [negb].
  now rewrite andb_false_r.
Qed.

(** X25. The union view answers two spellings of the [/games] root only,
    [/games] and [/games/].  The other spellings are treated as ordinary
    paths: [/games%2F] is refused by the access filter (404, no file
    system access), although [/docs%2F] lists the [/docs] root; and
    [/games//] passes the filter, resolves to the root and is answered by
    the plain listing of everything the root holds. *)
Theorem union_view_spellings
  (req : Request) (fs : FS) (s : Stats) (entries : list Dirent) :
  (matchSection cwd dirname (req_path req) = Some "/games"
   /\ (relOf "/games" req = "/" \/ relOf "/games" req = "")
   <-> req_path req = "/games" \/ req_path req = "/games/")
  /\ app cwd dirname localeCompare (mkRequest "GET" "/games%2F") fs
     = (Respond 404 (Text "Introuvable"), [])
  /\ resolvePathSafe cwd (Path.join [ROOT cwd dirname; "docs"])
       (relOf "/docs" (mkRequest "GET" "/docs%2F"))
     = Some (Path.join [ROOT cwd dirname; "docs"])
  /\ (fs_lstat fs gamesRoot' = inr s ->
      isDirectory (st_kind s) = true ->
      fs_readdir fs gamesRoot' = inr entries ->
      let again := mkRequest "GET" "/games//" in
      app cwd dirname localeCompare again fs
      = (Respond 200
           (Html (plainPage localeCompare again
                    (map (fun es => plainRow again "/games" "//" (fst es) (snd es))
                       (statChildren fs gamesRoot' entries)))),
         OpLstat gamesRoot' :: OpLstat gamesRoot' :: OpReaddir gamesRoot'
           :: statCalls gamesRoot' entries)).
Proof.
  split; [|split; [reflexivity|split]].
  2:{ exact (resolve_section_root cwd dirname dirname_absolute "/docs" _
               (lookupSection_docs cwd dirname)). }
  - destruct req as [m path]. cbn [req_path]. split.
    + intros [Hm Hrel]. apply matchSection_iff in Hm. destruct Hm as [_ Hp].
      destruct Hrel as [Hrel|Hrel];
        [|now apply relOf_nonempty in Hrel].
      destruct Hp as [->|[[t ->]|[t ->]]]; [now left| |].
      * rewrite relOf_app in Hrel by discriminate.
        injection Hrel as ->. now right.
      * rewrite relOf_app in Hrel by discriminate. discriminate Hrel.
    + intros [-> | ->]; split; try reflexivity; now left.
  - intros Hst Hd Hrd again.
    assert (Hm : matchSection cwd dirname (req_path again) = Some "/games")
      by reflexivity.
    rewrite (app_eq _ _ _ again fs (matched_not_home _ _ _ _ Hm)).
    rewrite (downloadHandler_eq _ _ again fs _ _ Hm (lookupSection_games _ _)).
    rewrite (indexHandler_eq _ _ _ again fs _ _ Hm (lookupSection_games _ _)).
    change (relOf "/games" again) with "//". cbv zeta.
    change (isAllowedGamesRel "//") with true.
    cbn [String.eqb Ascii.eqb Bool.eqb negb andb orb].
    rewrite resolve_double_slash, Hst, Hd. cbn [negb].
    rewrite Hrd, listRows_run. reflexivity.
Qed.

End GamesRootSpellings.

Lemma union_view_spellings_witness :
  fst (app "/" "/app" ordinalCompare (mkRequest "GET" "/games//") exampleFS)
  = Respond 200
      (Html
         {| title := "/games//";
            heading := "games";
            breadcrumbs := [("/", "Accueil"); ("/games/", "games")];
            rows :=
              [ mkRow "multi/" "/games//multi/" true None 0 None;
                mkRow "other/" "/games//other/" true None 0 None;
                mkRow "solo/" "/games//solo/" true None 0 None ];
            showMode := true;
            parentLink := true |}).
Proof.
  pose proof (proj2 (proj2 (proj2
    (union_view_spellings "/" "/app" ordinalCompare eq_refl
       (mkRequest "GET" "/games//") exampleFS (exampleStats KDirectory)
       [mkDirent "solo" KDirectory; mkDirent "other" KDirectory;
        mkDirent "multi" KDirectory])))
    eq_refl eq_refl eq_refl) as H.
  cbv zeta in H. rewrite H. reflexivity.
Defined.

(** ** The download handler across the versions *)

Section DownloadAcrossVersions.
Variables cwd dirname : string.

(** X26. The download handler of the current server differs from the one
    of the server with sections in two places only, the [/games] filter and
    the guard around [decodeURIComponent]: on a request that matches a
    section, whose relative path decodes and, under [/games], passes the
    filter, the two handlers have the same outcome and touch the disk
    alike. *)
Theorem download_handlers_agree (req : Request) (fs : FS) (key : string) :
  matchSection cwd dirname (req_path req) = Some key ->
  URI.decodeURIComponent (relOf key req) <> None ->
  (key = "/games" -> isAllowedGamesRel (relOf key req) = true) ->
  Sectioned.downloadHandler cwd dirname req fs
  = downloadHandler cwd dirname req fs.
Proof.
  intros Hm Hdec Hf.
  destruct (lookupSection_matched _ _ _ _ Hm) as [root Hl].
  rewrite (downloadHandler_eq _ _ req fs _ _ Hm Hl).
  rewrite (sectioned_downloadHandler_eq cwd dirname req fs key root);
    [|now rewrite sectioned_matchSection_eq|now rewrite sectioned_lookup_eq].
  rewrite sectioned_resolvePathSafe_eq.
  rewrite (or_else_nonempty _ _ (relOf_nonempty key req)).
  destruct (URI.decodeURIComponent (relOf key req)); [|contradiction].
  assert (Hc : String.eqb key "/games"
               && negb (isAllowedGamesRel (relOf key req)) = false).
  { destruct (String.eqb key "/games") eqn:Ek; [|reflexivity].
    apply String.eqb_eq in Ek. now rewrite (Hf Ek). }
  rewrite Hc. now destruct (resolvePathSafe cwd root (relOf key req)).
Qed.

End DownloadAcrossVersions.

Lemma download_handlers_agree_witness :
  Sectioned.downloadHandler "/" "/app"
    (mkRequest "GET" "/games/solo/a.zip") exampleFS
  = downloadHandler "/" "/app" (mkRequest "GET" "/games/solo/a.zip") exampleFS.
Proof.
  apply (download_handlers_agree "/" "/app"
           (mkRequest "GET" "/games/solo/a.zip") exampleFS "/games");
    [reflexivity|discriminate|reflexivity].
Defined.

(** ** Links and markup *)

Lemma hexdigit_not (c : ascii) (n : N) :
  (n < 16)%N -> URI.hexval c = None -> Ascii.eqb (URI.hexdigit n) c = false.
Proof.
  intros Hn Hc. destruct (Ascii.eqb (URI.hexdigit n) c) eqn:E; [|reflexivity].
  apply Ascii.eqb_eq in E. subst c. rewrite hexval_hexdigit in Hc by exact Hn.
  discriminate Hc.
Qed.

Lemma code_bound (a : ascii) : (URI.code a < 256)%N.
Proof. unfold URI.code. apply N_ascii_bounded. Qed.

Lemma encodeURIComponent_alphabet (c : ascii) (s : string) :
  URI.isUnreserved c = false -> Ascii.eqb c "%" = false ->
  URI.hexval c = None ->
  occurs c (URI.encodeURIComponent s) = false.
Proof.
  intros Hu Hp Hh. induction s as [|a s IH]; [reflexivity|].
  cbn [URI.encodeURIComponent]. rewrite occurs_app, IH, orb_false_r.
  destruct (URI.isUnreserved a) eqn:Ea.
  - cbn [occurs]. rewrite orb_false_r.
    destruct (Ascii.eqb a c) eqn:E; [|reflexivity].
    apply Ascii.eqb_eq in E. congruence.
  - unfold URI.escape. cbn [occurs]. rewrite orb_false_r.
    pose proof (code_bound a) as Hb.
    rewrite (ascii_eqb_sym "%" c), Hp.
    rewrite !hexdigit_not; try reflexivity; try exact Hh.
    + apply N.mod_lt. discriminate.
    + apply N.Div0.div_lt_upper_bound. exact Hb.
Qed.

(** X27. An entry name cannot break out of the [href] attribute it is
    written into, which the template does not escape: the percent-encoded
    name holds no double quote, ["<"], [">"], ["&"], space or slash, so
    that the whole [href] of a union row is free of the first five, and
    what a plain row appends to the current path is too. *)
Theorem href_markup_free
  (cwd dirname : string) (b : Bucket) (e : Dirent) (s : Stats) (c : ascii) :
  In b (GAMES_BUCKETS cwd dirname) ->
  In c [dquote; "<"; ">"; "&"; " "]%char ->
  occurs c (href (bucketRow b e s)) = false
  /\ occurs c (URI.encodeURIComponent (d_name e)) = false
  /\ occurs "/" (URI.encodeURIComponent (d_name e)) = false.
Proof.
  intros Hb Hc.
  assert (He : occurs c (URI.encodeURIComponent (d_name e)) = false).
  { destruct Hc as [<-|[<-|[<-|[<-|[<-|[]]]]]];
      now apply encodeURIComponent_alphabet. }
  split; [|split; [exact He|now apply encodeURIComponent_alphabet]].
  cbn [href bucketRow]. rewrite !occurs_app, He, !orb_false_r.
  destruct Hb as [<-|[<-|[]]];
    destruct Hc as [<-|[<-|[<-|[<-|[<-|[]]]]]]; reflexivity.
Qed.

Lemma href_markup_free_witness :
  occurs dquote
    (href (bucketRow (mkBucket "solo" (Path.join [ROOT "/" "/app"; "games"; "solo"])
                        "solo")
             (mkDirent (String dquote "><b>.zip") KFile) (exampleStats KFile)))
  = false.
Proof.
  exact (proj1 (href_markup_free "/" "/app" _
                  (mkDirent (String dquote "><b>.zip") KFile)
                  (exampleStats KFile) dquote
                  (or_introl eq_refl) (or_introl eq_refl))).
Defined.
